(** * ao: compute-unit worker, memory checkpointer, evaluator and HyperBEAM codec

    A shallow embedding of

    - [servers/cu/src/domain/client/worker.js]  (the Wasm execution worker),
    - [servers/cu/src/domain/client/wasm.js]    (memory hashing, limit predicates),
    - [connect/src/client/hb-encode.js]         (the HTTP message codec),
    - the [POST /message] route of the messenger unit,

    together with a model of the evaluator loop that drives the worker.

    JavaScript values are an inductive type; promises are results
    ([Resolved] / [Rejected]); the mutable caches, the file system and the
    gateway are threaded explicitly through an [Async] state-and-error monad
    that carries the combinators of [hyper-async] under their own names. *)

From Stdlib Require Import ZArith String Ascii Strings.Byte List Bool Lia.
From Stdlib Require Import Numbers.DecimalString ZifyNat.
From stdpp Require Import base option list gmap strings sorting.

Import ListNotations.
Set Warnings "-register-all".
Open Scope string_scope.
Open Scope list_scope.
Open Scope Z_scope.

(** ** JavaScript values *)

Module JS.

(** A JS number.  [Int z] is an integer-valued double that [String()] prints
    in plain decimal digits; [NonInt repr] is any other number except NaN
    (a fraction, [Infinity], ...), identified by the text [String()] gives
    for it; [NaN] is kept apart because [x !== x] holds for it alone. *)
Inductive number : Type :=
| Int (z : Z)
| NonInt (repr : string)
| NaN.

Inductive value : Type :=
| VUndefined
| VNull
| VBool (b : bool)
| VNum (n : number)
| VStr (s : string)
| VSym (description : option string)
| VBytes (bs : list byte)
| VArr (elems : list value)
| VObj (props : list (string * value)).

(** [VObj props] lists the own enumerable properties in enumeration order
    ([Object.entries]).  Text is held as its UTF-8 bytes, one [ascii] per
    byte, so [String.length] is the byte length [Buffer.from(s).byteLength]. *)

Definition String_of_Z (z : Z) : string := NilZero.string_of_int (Z.to_int z).

(** [String(n)] / [`${n}`] *)
Definition String_ (n : number) : string :=
  match n with
  | Int z => String_of_Z z
  | NonInt repr => repr
  | NaN => "NaN"
  end.

(** ToBoolean *)
Definition truthy (v : value) : bool :=
  match v with
  | VUndefined | VNull => false
  | VBool b => b
  | VNum (Int z) => negb (z =? 0)
  | VNum (NonInt _) => true
  | VNum NaN => false
  | VStr s => negb (String.eqb s "")
  | VSym _ | VBytes _ | VArr _ | VObj _ => true
  end.

(** [v == null] *)
Definition isNullish (v : value) : bool :=
  match v with
  | VUndefined | VNull => true
  | _ => false
  end.

Fixpoint lookup_prop (k : string) (props : list (string * value)) : value :=
  match props with
  | [] => VUndefined
  | (k', v) :: rest => if String.eqb k k' then v else lookup_prop k rest
  end.

(** [obj[k]] for the property names this development reads ([Error],
    [Memory], [Messages], [Spawns], [Output], [GasUsed]): none of them is a
    property of a primitive wrapper, an array or a buffer, so only plain
    objects can carry them. *)
Definition get (k : string) (obj : value) : value :=
  match obj with
  | VObj props => lookup_prop k props
  | _ => VUndefined
  end.

End JS.

Import JS.

(** ** The ramda combinators the worker is written with *)

Module R.

(** [defaultTo(d, v)]: [v == null || v !== v ? d : v] *)
Definition defaultTo (d v : value) : value :=
  match v with
  | VUndefined | VNull | VNum NaN => d
  | _ => v
  end.

(** [path([k], obj)], safe on nullish objects *)
Definition path1 (k : string) (obj : value) : value :=
  if isNullish obj then VUndefined else get k obj.

(** [pathOr(d, [k], obj)] *)
Definition pathOr (d : value) (k : string) (obj : value) : value :=
  defaultTo d (path1 k obj).

(** [propOr(d, k, obj)] *)
Definition propOr (d : value) (k : string) (obj : value) : value :=
  defaultTo d (path1 k obj).

(** [ifElse(pred, onTrue, onFalse)] *)
Definition ifElse {A} (pred : value -> value) (onTrue onFalse : value -> A)
    (x : value) : A :=
  if truthy (pred x) then onTrue x else onFalse x.

Definition always {A B} (a : A) (_ : B) : A := a.
Definition identity {A} (a : A) : A := a.
Definition T (_ : value) : bool := true.

(** [is(String)], [is(Object)], [is(Number)] *)
Definition is_String (v : value) : bool :=
  match v with VStr _ => true | _ => false end.
Definition is_Object (v : value) : bool :=
  match v with VObj _ | VArr _ | VBytes _ => true | _ => false end.
Definition is_Number (v : value) : bool :=
  match v with VNum _ => true | _ => false end.

(** [String] used as a function *)
Definition String_fn (v : value) : value :=
  match v with
  | VNum n => VStr (String_ n)
  | _ => v
  end.

(** [cond([[p1, f1], ...])]: the first clause whose predicate holds *)
Fixpoint cond (clauses : list ((value -> bool) * (value -> value)))
    (x : value) : value :=
  match clauses with
  | [] => VUndefined
  | (p, f) :: rest => if p x then f x else cond rest x
  end.

(** [assocPath([k], v, {})] *)
Definition assocPath1 (k : string) (v : value) : value := VObj [(k, v)].

End R.

(** ** [hyper-async]: lazy asynchronous computations with two outcomes

    An [Async W E A] runs against the mutable world [W] (caches, files, the
    network trace) and settles either [Rejected e] or [Resolved a].  A promise
    that has settled is an [outcome]; [toPromise] runs the computation. *)

Module Async.

Inductive outcome (E A : Type) : Type :=
| Rejected (e : E)
| Resolved (a : A).
Arguments Rejected {E A} e.
Arguments Resolved {E A} a.

Definition Async (W E A : Type) : Type := W -> W * outcome E A.

Section Combinators.
Context {W : Type}.

Definition of_ {E A} (a : A) : Async W E A := fun w => (w, Resolved a).
Definition resolved {E A} (a : A) : Async W E A := fun w => (w, Resolved a).
Definition rejected {E A} (e : E) : Async W E A := fun w => (w, Rejected e).

Definition map {E A B} (f : A -> B) (m : Async W E A) : Async W E B :=
  fun w => match m w with
           | (w', Resolved a) => (w', Resolved (f a))
           | (w', Rejected e) => (w', Rejected e)
           end.

Definition chain {E A B} (f : A -> Async W E B) (m : Async W E A) : Async W E B :=
  fun w => match m w with
           | (w', Resolved a) => f a w'
           | (w', Rejected e) => (w', Rejected e)
           end.

Definition bichain {E E' A B} (onRejected : E -> Async W E' B)
    (onResolved : A -> Async W E' B) (m : Async W E A) : Async W E' B :=
  fun w => match m w with
           | (w', Resolved a) => onResolved a w'
           | (w', Rejected e) => onRejected e w'
           end.

Definition bimap {E E' A B} (f : E -> E') (g : A -> B) (m : Async W E A)
    : Async W E' B :=
  fun w => match m w with
           | (w', Resolved a) => (w', Resolved (g a))
           | (w', Rejected e) => (w', Rejected (f e))
           end.

(** an already settled promise, lifted *)
Definition settled {E A} (p : outcome E A) : Async W E A := fun w => (w, p).

(** a step that only touches the world *)
Definition effect {E} (f : W -> W) : Async W E unit :=
  fun w => (f w, Resolved tt).

Definition toPromise {E A} (m : Async W E A) (w : W) : W * outcome E A := m w.
End Combinators.

End Async.

Import Async.

(** A settled promise whose rejection reason is a JS value. *)
Abbreviation Promise A := (outcome value A).

(** [new Error(message)] *)
Definition new_Error (message : string) : value :=
  VObj [("name", VStr "Error"); ("message", VStr message)].

(** ** [lru-cache]: a bounded map, most recently used entry first *)

Module LRUCache.

Record t (V : Type) : Type := mk { max : nat; entries : list (string * V) }.
Arguments mk {V} max entries.
Arguments max {V} _.
Arguments entries {V} _.

Section Ops.
Context {V : Type}.

Fixpoint find (k : string) (l : list (string * V)) : option V :=
  match l with
  | [] => None
  | (k', v) :: rest => if String.eqb k k' then Some v else find k rest
  end.

Fixpoint remove (k : string) (l : list (string * V)) : list (string * V) :=
  match l with
  | [] => []
  | (k', v) :: rest =>
      if String.eqb k k' then remove k rest else (k', v) :: remove k rest
  end.

Definition create (MAX_SIZE : nat) : t V := mk MAX_SIZE [].

(** [cache.get(k)]: the value, and the entry becomes the most recent *)
Definition get (k : string) (c : t V) : option V * t V :=
  match find k (entries c) with
  | Some v => (Some v, mk (max c) ((k, v) :: remove k (entries c)))
  | None => (None, c)
  end.

(** [cache.set(k, v)]: insert as most recent, evicting past [max] *)
Definition set (k : string) (v : V) (c : t V) : t V :=
  mk (max c) (firstn (max c) ((k, v) :: remove k (entries c))).

(** [cache.peek(k)]: the value, recency untouched *)
Definition peek (k : string) (c : t V) : option V := find k (entries c).
End Ops.

End LRUCache.

(** ** The platform: SHA-256, hexadecimal and base64 text

    [crypto.subtle.digest('SHA-256', data)] and [createHash('sha256')] are
    the hash function of FIPS 180-4, on 32-bit words held in [Z] with the
    wrap-around written out. *)

Module Sha256.

Definition w32 (x : Z) : Z := x mod 2 ^ 32.
Definition add32 (x y : Z) : Z := w32 (x + y).
Definition rotr (n x : Z) : Z :=
  Z.lor (Z.shiftr x n) (w32 (Z.shiftl x (32 - n))).
Definition not32 (x : Z) : Z := 2 ^ 32 - 1 - x.

Definition Ch (x y z : Z) : Z := Z.lxor (Z.land x y) (Z.land (not32 x) z).
Definition Maj (x y z : Z) : Z :=
  Z.lxor (Z.lxor (Z.land x y) (Z.land x z)) (Z.land y z).
Definition Sigma0 (x : Z) : Z := Z.lxor (Z.lxor (rotr 2 x) (rotr 13 x)) (rotr 22 x).
Definition Sigma1 (x : Z) : Z := Z.lxor (Z.lxor (rotr 6 x) (rotr 11 x)) (rotr 25 x).
Definition sigma0 (x : Z) : Z := Z.lxor (Z.lxor (rotr 7 x) (rotr 18 x)) (Z.shiftr x 3).
Definition sigma1 (x : Z) : Z := Z.lxor (Z.lxor (rotr 17 x) (rotr 19 x)) (Z.shiftr x 10).

Definition K : list Z :=
  [ 1116352408; 1899447441; 3049323471; 3921009573;
    961987163; 1508970993; 2453635748; 2870763221;
    3624381080; 310598401; 607225278; 1426881987;
    1925078388; 2162078206; 2614888103; 3248222580;
    3835390401; 4022224774; 264347078; 604807628;
    770255983; 1249150122; 1555081692; 1996064986;
    2554220882; 2821834349; 2952996808; 3210313671;
    3336571891; 3584528711; 113926993; 338241895;
    666307205; 773529912; 1294757372; 1396182291;
    1695183700; 1986661051; 2177026350; 2456956037;
    2730485921; 2820302411; 3259730800; 3345764771;
    3516065817; 3600352804; 4094571909; 275423344;
    430227734; 506948616; 659060556; 883997877;
    958139571; 1322822218; 1537002063; 1747873779;
    1955562222; 2024104815; 2227730452; 2361852424;
    2428436474; 2756734187; 3204031479; 3329325298 ].

(** four bytes, most significant first, to a word and back *)
Fixpoint words_of_bytes (bs : list Z) : list Z :=
  match bs with
  | a :: b :: c :: d :: rest =>
      (Z.shiftl a 24 + Z.shiftl b 16 + Z.shiftl c 8 + d) :: words_of_bytes rest
  | _ => []
  end.

Definition bytes_of_word (w : Z) : list Z :=
  [Z.shiftr w 24 mod 256; Z.shiftr w 16 mod 256; Z.shiftr w 8 mod 256; w mod 256].

(** the message, a [1] bit, zeros up to 56 mod 64, the bit length on 64 bits *)
Definition pad (msg : list Z) : list Z :=
  let len := Z.of_nat (length msg) in
  let bits := 8 * len in
  msg ++ [128] ++ repeat 0 (Z.to_nat ((55 - len) mod 64))
      ++ bytes_of_word (Z.shiftr bits 32 mod 2 ^ 32)
      ++ bytes_of_word (bits mod 2 ^ 32).

(** the message schedule, newest word first while it grows *)
Fixpoint extend (n : nat) (newest_first : list Z) : list Z :=
  match n with
  | O => newest_first
  | S n' =>
      let w2 := nth 1 newest_first 0 in
      let w7 := nth 6 newest_first 0 in
      let w15 := nth 14 newest_first 0 in
      let w16 := nth 15 newest_first 0 in
      extend n' (add32 (add32 (sigma1 w2) w7) (add32 (sigma0 w15) w16)
                   :: newest_first)
  end.

Definition schedule (block : list Z) : list Z := rev (extend 48 (rev block)).

Record regs : Type :=
  Regs { ra : Z; rb : Z; rc : Z; rd : Z; re : Z; rf : Z; rg : Z; rh : Z }.

Definition round (s : regs) (kw : Z * Z) : regs :=
  let '(k, w) := kw in
  let t1 := add32 (add32 (add32 (rh s) (Sigma1 (re s)))
                         (add32 (Ch (re s) (rf s) (rg s)) k)) w in
  let t2 := add32 (Sigma0 (ra s)) (Maj (ra s) (rb s) (rc s)) in
  Regs (add32 t1 t2) (ra s) (rb s) (rc s) (add32 (rd s) t1) (re s) (rf s) (rg s).

Definition compress (h : regs) (block : list Z) : regs :=
  let s := fold_left round (combine K (schedule block)) h in
  Regs (add32 (ra h) (ra s)) (add32 (rb h) (rb s))
       (add32 (rc h) (rc s)) (add32 (rd h) (rd s))
       (add32 (re h) (re s)) (add32 (rf h) (rf s))
       (add32 (rg h) (rg s)) (add32 (rh h) (rh s)).

(** sixteen words at a time; [n] bounds the number of blocks *)
Fixpoint blocks (n : nat) (ws : list Z) : list (list Z) :=
  match n with
  | O => []
  | S n' =>
      match ws with
      | [] => []
      | _ => firstn 16 ws :: blocks n' (skipn 16 ws)
      end
  end.

Definition init : regs :=
  Regs 1779033703 3144134277 1013904242 2773480762
       1359893119 2600822924 528734635 1541459225.

Definition digest_words (msg : list Z) : regs :=
  let ws := words_of_bytes (pad msg) in
  fold_left compress (blocks (length ws) ws) init.

Definition Z_of_byte (b : byte) : Z := Z.of_N (Byte.to_N b).
Definition byte_of_Z (z : Z) : byte :=
  match Byte.of_N (Z.to_N z) with Some b => b | None => x00 end.

Definition sha256 (data : list byte) : list byte :=
  let r := digest_words (List.map Z_of_byte data) in
  List.map byte_of_Z
    (flat_map bytes_of_word [ra r; rb r; rc r; rd r; re r; rf r; rg r; rh r]).

End Sha256.

Module Text.

Definition digit_of (alphabet : string) (n : Z) : ascii :=
  nth (Z.to_nat n) (list_ascii_of_string alphabet) "0"%char.

(** [buffer.toString('hex')] *)
Definition hex (bs : list byte) : string :=
  string_of_list_ascii
    (flat_map (fun b => let z := Sha256.Z_of_byte b in
                        [digit_of "0123456789abcdef" (z / 16);
                         digit_of "0123456789abcdef" (z mod 16)]) bs).

Definition base64_alphabet : string :=
  "ABCDEFGHIJKLMNOPQRSTUVWXYZabcdefghijklmnopqrstuvwxyz0123456789+/".

(** [buffer.toString('base64')], with [=] padding *)
Fixpoint base64_chars (bs : list Z) : list ascii :=
  let d := digit_of base64_alphabet in
  match bs with
  | a :: b :: c :: rest =>
      d (a / 4) :: d ((a mod 4) * 16 + b / 16) :: d ((b mod 16) * 4 + c / 64)
        :: d (c mod 64) :: base64_chars rest
  | [a; b] =>
      [d (a / 4); d ((a mod 4) * 16 + b / 16); d ((b mod 16) * 4); "="%char]
  | [a] => [d (a / 4); d ((a mod 4) * 16); "="%char; "="%char]
  | [] => []
  end.

Definition base64 (bs : list byte) : string :=
  string_of_list_ascii (base64_chars (List.map Sha256.Z_of_byte bs)).

Definition replace_char (from to : ascii) (s : string) : string :=
  string_of_list_ascii
    (List.map (fun c => if Ascii.eqb c from then to else c) (list_ascii_of_string s)).

Definition remove_char (c : ascii) (s : string) : string :=
  string_of_list_ascii
    (List.filter (fun c' => negb (Ascii.eqb c' c)) (list_ascii_of_string s)).

(** [base64url.fromBase64]: drop [=], [+] to [-], [/] to [_] *)
Definition fromBase64 (s : string) : string :=
  replace_char "/" "_" (replace_char "+" "-" (remove_char "=" s)).

(** [base64url.encode(buffer)] *)
Definition base64url_encode (bs : list byte) : string := fromBase64 (base64 bs).

(** [base64url.toBase64]: pad to a multiple of four, [-] to [+], [_] to [/] *)
Definition toBase64 (s : string) : string :=
  let padded :=
    s +:+ string_of_list_ascii
            (repeat "="%char ((4 - String.length s mod 4) mod 4)%nat) in
  replace_char "_" "/" (replace_char "-" "+" padded).

Definition bytes (s : string) : list byte := list_byte_of_string s.

End Text.

(** ** The platform: zlib streams *)

Class Zlib : Type := {
  gzip : list byte -> list byte;
  (** [createGunzip()] applied to a whole input: the inflated bytes, or the
      error the stream raises on a corrupt archive *)
  gunzip : list byte -> Promise (list byte)
}.

(** ** [worker.js]: the Wasm execution worker *)

Module Worker.

(** [EvaluationOutput], the object [applySpec] builds in [mergeOutput] *)
Record EvaluationOutput : Type := mkOutput {
  Memory : value;
  Error : value;
  Messages : value;
  Spawns : value;
  Output : value;
  GasUsed : value
}.

(** Given the previous interaction output, merge the next interaction
    output with the previous. *)
Definition mergeOutput (prevMemory : value) (output : value) : EvaluationOutput :=
  let output := R.defaultTo (VObj []) output in
  {| Memory :=
       R.ifElse (R.pathOr VUndefined "Error")
                (R.always prevMemory)
                (R.propOr prevMemory "Memory") output;
     Error := R.pathOr VUndefined "Error" output;
     Messages := R.pathOr (VArr []) "Messages" output;
     Spawns := R.pathOr (VArr []) "Spawns" output;
     Output :=
       R.cond [ (R.is_String, R.identity);
                (R.is_Object, R.identity);
                (R.is_Number, R.String_fn);
                (R.T, R.identity) ]
              (R.pathOr (VStr "") "Output" output);
     GasUsed := R.pathOr VUndefined "GasUsed" output |}.

(** The handler that wraps a [WebAssembly.Instance]: called with
    [(Memory, message, AoGlobal)], it returns an output or throws. *)
Definition WasmInstance : Type := value -> value -> value -> Promise value.

(** What the worker does to the outside, in order. *)
Inductive Event : Type :=
| ReadFile (file : string)
| WriteFile (file : string)
| Fetch (url : string).

(** A byte stream, read to its end: its bytes, or the error it raised. *)
Definition Stream : Type := Promise (list byte).

(** [res.body] is [null] on a response that carries no body (a 204, a
    205); otherwise it is a stream, which may break before its end. *)
Record Response : Type := mkResponse { status : Z; body : option Stream }.

(** [res.ok] *)
Definition ok (res : Response) : bool := (200 <=? status res) && (status res <=? 299).

(** [res.text()]: the body read to its end, as text; the empty text when
    there is no body; the error of the stream when it breaks. *)
Definition text (res : Response) : Promise string :=
  match body res with
  | None => Resolved ""
  | Some (Resolved bytes) => Resolved (string_of_list_byte bytes)
  | Some (Rejected err) => Rejected err
  end.

(** [res.body.tee()] on a response without body *)
Definition no_body : value :=
  new_Error "TypeError: Cannot read properties of null (reading 'tee')".

(** The argument of the worker's [evaluate]; its [Memory] field is named
    [prevMemory] here, as [mergeOutput] names it. *)
Record Args : Type := mkArgs {
  streamId : string;
  moduleId : string;
  gas : Z;
  memLimit : Z;
  name : string;
  processId : string;
  prevMemory : value;
  message : value;
  AoGlobal : value
}.

(** The platform and the dependencies injected into [evaluateWith]. *)
Class Env : Type := {
  WasmModule : Type;
  (** [WebAssembly.compileStreaming] on the bytes of a module *)
  compile : list byte -> Promise WasmModule;
  zlib :: Zlib;
  (** [fetch(url)] *)
  fetch : string -> Promise Response;
  (** whether [createWriteStream(file)] can be written to its end *)
  writable : string -> bool;
  (** what a write that does not reach its end leaves in the file: a part
      of an archive, or nothing when the file could not be opened *)
  leftover : string -> Stream -> option (list byte);
  (** [AoLoader] around [WebAssembly.instantiate] *)
  bootstrapWasmInstance : WasmModule -> Z -> Z -> Promise WasmInstance;
  DIR : string;
  GATEWAY_URL : string
}.

Section WithEnv.
Context `{env : Env}.

Record World : Type := mkWorld {
  wasmInstanceCache : LRUCache.t WasmInstance;
  wasmModuleCache : LRUCache.t WasmModule;
  files : gmap string (list byte);
  trace : list Event
}.

Definition emit (e : Event) (w : World) : World :=
  mkWorld (wasmInstanceCache w) (wasmModuleCache w) (files w) (trace w ++ [e]).

(** [join(DIR, `${moduleId}.wasm.gz`)] *)
Definition wasmFile (moduleId : string) : string :=
  DIR +:+ "/" +:+ moduleId +:+ ".wasm.gz".

(** [WebAssembly.compileStreaming(wasmResponse(stream))] *)
Definition compileStreaming (stream : Stream) : Promise WasmModule :=
  match stream with
  | Resolved bytes => compile bytes
  | Rejected err => Rejected err
  end.

(** *** File utils *)

(** The promise resolves at once with the gunzip end of the pipeline; a
    missing file or a corrupt archive shows when the stream is read. *)
Definition readWasmFile (moduleId : string) : Async World value Stream :=
  fun w =>
    let file := wasmFile moduleId in
    (emit (ReadFile file) w,
     Resolved match files w !! file with
              | Some gz => gunzip gz
              | None => Rejected (new_Error ("ENOENT: " +:+ file))
              end).

(** The files once [pipelineP(wasmStream, createGzip(), createWriteStream(file))]
    has settled: the whole archive when the stream and the write reach their
    end, what the broken write leaves otherwise. *)
Definition after_write (file : string) (wasmStream : Stream)
    (fs : gmap string (list byte)) : gmap string (list byte) :=
  let abandoned := match leftover file wasmStream with
                   | Some part => <[file := part]> fs
                   | None => fs
                   end in
  match wasmStream with
  | Resolved bytes => if writable file then <[file := gzip bytes]> fs else abandoned
  | Rejected _ => abandoned
  end.

(** A failed write is logged and skipped. *)
Definition writeWasmFile (moduleId : string) (wasmStream : Stream)
    : Async World value unit :=
  fun w =>
    let file := wasmFile moduleId in
    let w := emit (WriteFile file) w in
    (mkWorld (wasmInstanceCache w) (wasmModuleCache w)
             (after_write file wasmStream (files w)) (trace w),
     Resolved tt).

(** The world once [writeWasmFile] has run. *)
Definition written (moduleId : string) (wasmStream : Stream) (w : World) : World :=
  let file := wasmFile moduleId in
  mkWorld (wasmInstanceCache w) (wasmModuleCache w)
          (after_write file wasmStream (files w))
          (trace w ++ [WriteFile file]).

(** What reading and compiling the stored binary comes to, in a world. *)
Definition storedBinary (moduleId : string) (w : World) : Promise WasmModule :=
  compileStreaming match files w !! wasmFile moduleId with
                   | Some gz => gunzip gz
                   | None => Rejected (new_Error ("ENOENT: " +:+ wasmFile moduleId))
                   end.

(** *** Network utils *)

Definition streamTransactionData (id : string) : Async World value Response :=
  fun w =>
    let url := GATEWAY_URL +:+ "/raw/" +:+ id in
    (emit (Fetch url) w,
     match fetch url with
     | Resolved res =>
         if ok res then Resolved res
         else match text res with
              | Resolved text =>
                  Rejected (new_Error (String_of_Z (status res) +:+ ": " +:+ text))
              | Rejected err => Rejected err
              end
     | Rejected err => Rejected err
     end).

(** *** The two caches, as steps on the world *)

Definition wasmModuleCache_get {E} (k : string) : Async World E (option WasmModule) :=
  fun w =>
    let '(r, c) := LRUCache.get k (wasmModuleCache w) in
    (mkWorld (wasmInstanceCache w) c (files w) (trace w), Resolved r).

Definition wasmModuleCache_set (k : string) (m : WasmModule) (w : World) : World :=
  mkWorld (wasmInstanceCache w) (LRUCache.set k m (wasmModuleCache w))
          (files w) (trace w).

Definition wasmInstanceCache_get {E} (k : string) : Async World E (option WasmInstance) :=
  fun w =>
    let '(r, c) := LRUCache.get k (wasmInstanceCache w) in
    (mkWorld c (wasmModuleCache w) (files w) (trace w), Resolved r).

Definition wasmInstanceCache_set (k : string) (i : WasmInstance) (w : World) : World :=
  mkWorld (LRUCache.set k i (wasmInstanceCache w)) (wasmModuleCache w)
          (files w) (trace w).

(** *** [evaluateWith] *)

Definition maybeCachedModule (args : Args) : Async World Args WasmModule :=
  chain (fun wasm : option WasmModule =>
           match wasm with
           | Some wasm => resolved wasm
           | None => rejected args
           end)
        (wasmModuleCache_get (moduleId args)).

Definition maybeStoredBinary (args : Args) : Async World Args WasmModule :=
  bimap (fun _ : value => args) R.identity
    (chain (fun stream => settled (compileStreaming stream))
       (chain readWasmFile (of_ (moduleId args)))).

(** Simultaneously cache the binary in a file and compile it: the file
    is written whether or not the compilation succeeds.  The step
    [.map((res) => res.body.tee())] throws on a response without body, and
    what is thrown in a step rejects. *)
Definition loadTransaction (args : Args) : Async World value WasmModule :=
  map (fun '(_, res) => res)
    (chain (fun '(s1, s2) =>
              chain (fun written : unit =>
                       map (fun wasm => (written, wasm))
                           (settled (compileStreaming s2)))
                    (writeWasmFile (moduleId args) s1))
       (chain (fun res => match body res with
                          | Some stream => resolved (stream, stream)
                          | None => rejected no_body
                          end)
          (chain streamTransactionData (of_ (moduleId args))))).

(** The first half of [loadInstance]: the chain up to, and including,
    the caching of the compiled module. *)
Definition loadModule (args : Args) : Async World value WasmModule :=
  bichain
    (fun _ : Args =>
       chain (fun wasmModule w =>
                (wasmModuleCache_set (moduleId args) wasmModule w,
                 Resolved wasmModule))
         (bichain loadTransaction resolved
            (chain maybeStoredBinary (of_ args))))
    resolved
    (maybeCachedModule args).

Definition loadInstance (args : Args) : Async World value WasmInstance :=
  chain (fun wasmInstance w =>
           (wasmInstanceCache_set (streamId args) wasmInstance w,
            Resolved wasmInstance))
    (chain (fun wasmModule =>
              settled (bootstrapWasmInstance wasmModule (gas args) (memLimit args)))
       (loadModule args)).

Definition maybeCachedInstance (args : Args) : Async World Args WasmInstance :=
  chain (fun wasmInstance : option WasmInstance =>
           match wasmInstance with
           | Some wasmInstance => resolved wasmInstance
           | None => rejected args
           end)
        (wasmInstanceCache_get (streamId args)).

(** Dynamically load the instance: from the instance cache, or through
    [loadInstance]. *)
Definition acquire (args : Args) : Async World value WasmInstance :=
  bichain loadInstance resolved (maybeCachedInstance args).

End WithEnv.

(** Perform the evaluation: a thrown error is mapped to [{ Error }], so
    that the worker never throws due to evaluation. *)
Definition invoke {W : Type} (args : Args) (wasmInstance : WasmInstance)
    : Async W value EvaluationOutput :=
  map (mergeOutput (prevMemory args))
    (bichain (fun err => resolved (R.assocPath1 "Error" err))
             resolved
             (settled (wasmInstance (prevMemory args) (message args) (AoGlobal args)))).

Definition evaluate `{env : Env} (args : Args) : World -> World * Promise EvaluationOutput :=
  toPromise (chain (invoke args) (acquire args)).

End Worker.

(** ** [wasm.js]: hashing the memory of a process, and the limit predicates *)

Module Wasm.

(** A readable stream: the chunks it emits and, if it does not end well,
    the error it raises after them. *)
Record Readable : Type := mkReadable {
  chunks : list (list byte);
  failure : option value
}.

(** [createHash('sha256')]: the hasher remembers what it was fed. *)
Record Hash : Type := mkHash { fed : list byte }.
Definition createHash : Hash := mkHash [].
Definition update (h : Hash) (chunk : list byte) : Hash := mkHash (fed h ++ chunk).
Definition digest_hex (h : Hash) : string := Text.hex (Sha256.sha256 (fed h)).

(** [new PassThrough()] *)
Definition PassThrough (r : Readable) : Readable := r.

(** [createGunzip()], as a transform of the stream piped into it *)
Definition createGunzip `{Zlib} (r : Readable) : Readable :=
  match failure r with
  | Some err => mkReadable [] (Some err)
  | None =>
      match gunzip (concat (chunks r)) with
      | Resolved inflated => mkReadable [inflated] None
      | Rejected err => mkReadable [] (Some err)
      end
  end.

(** [pipelineP(source, transform, hash)]: every chunk that comes out of the
    transform is written to the hasher; an error on the way rejects. *)
Definition pipelineP (source : Readable) (transform : Readable -> Readable)
    (hash : Hash) : Promise Hash :=
  let out := transform source in
  let hash := fold_left update (chunks out) hash in
  match failure out with
  | Some err => Rejected err
  | None => Resolved hash
  end.

(** [encoding === 'gzip'] *)
Definition is_gzip (encoding : value) : bool :=
  match encoding with
  | VStr s => String.eqb s "gzip"
  | _ => false
  end.

(** The memory may be encoded, so in order to compute the correct hash of
    the actual memory, we may need to decode it. *)
Definition hashWasmMemory `{Zlib} (memoryStream : Readable) (encoding : value)
    : Promise string :=
  if truthy encoding && negb (is_gzip encoding) then
    Rejected (new_Error
      "Only GZIP encoding of Memory is supported for Process Checkpoints")
  else
    let hash := createHash in
    match pipelineP memoryStream
            (if is_gzip encoding then createGunzip else PassThrough) hash with
    | Resolved hash => Resolved (digest_hex hash)
    | Rejected err => Rejected err
    end.

Definition doesExceedModuleMaxMemoryWith (PROCESS_WASM_MEMORY_MAX_LIMIT : Z)
    (limit : Z) : Promise bool :=
  Resolved (limit >? PROCESS_WASM_MEMORY_MAX_LIMIT).

Definition doesExceedModuleMaxComputeWith (PROCESS_WASM_COMPUTE_MAX_LIMIT : Z)
    (limit : Z) : Promise bool :=
  Resolved (limit >? PROCESS_WASM_COMPUTE_MAX_LIMIT).

End Wasm.

(** ** [hb-encode.js]: the HyperBEAM HTTP encoding *)

Module HbEncode.

Definition CRLF : string := String "013" (String "010" "").
Definition DQUOTE : string := String "034" "".

(** [s.toLowerCase()], on the letters A-Z *)
Definition toLowerCase (s : string) : string :=
  string_of_list_ascii
    (List.map (fun c => let n := nat_of_ascii c in
                        if (65 <=? n)%nat && (n <=? 90)%nat
                        then ascii_of_nat (n + 32) else c)
              (list_ascii_of_string s)).

(** [s.includes('/')] *)
Definition includes_slash (s : string) : bool :=
  existsb (Ascii.eqb "/") (list_ascii_of_string s).

(** [`${i}`] for an array index *)
Definition index_key (i : nat) : string := String_of_Z (Z.of_nat i).

Definition partition {A} (pred : A -> bool) (arr : list A) : list A * list A :=
  fold_left (fun acc cur =>
               if pred cur then (fst acc ++ [cur], snd acc)
               else (fst acc, snd acc ++ [cur]))
            arr ([], []).

(** [typeof value] *)
Definition typeof (value : value) : string :=
  match value with
  | VUndefined => "undefined"
  | VNull => "object"
  | VBool _ => "boolean"
  | VNum _ => "number"
  | VStr _ => "string"
  | VSym _ => "symbol"
  | VBytes _ | VArr _ | VObj _ => "object"
  end.

(** [value instanceof ArrayBuffer || ArrayBuffer.isView(value)]: a
    [Buffer] here. *)
Definition isBytes (value : value) : bool :=
  match value with VBytes _ => true | _ => false end.

Definition isArray (value : value) : bool :=
  match value with VArr _ => true | _ => false end.

Definition isPojo (value : value) : bool :=
  negb (isBytes value)
  && String.eqb (typeof value) "object"
  && negb (match value with VNull => true | _ => false end).

(** [value.byteLength] of a buffer, [value.length] of a string or an array *)
Definition lengthOf (value : value) : nat :=
  match value with
  | VBytes bs => length bs
  | VStr s => String.length s
  | VArr elems => length elems
  | _ => 0
  end.

Definition Number_isInteger (value : value) : bool :=
  match value with VNum (Int _) => true | _ => false end.

(** [value.toString()], for the values that have the method *)
Fixpoint toString (v : value) : string :=
  match v with
  | VUndefined | VNull => ""
  | VBool true => "true"
  | VBool false => "false"
  | VNum n => String_ n
  | VStr s => s
  | VSym (Some description) => "Symbol(" +:+ description +:+ ")"
  | VSym None => "Symbol()"
  | VBytes bs => string_of_list_byte bs
  | VArr elems => String.concat "," (List.map toString elems)
  | VObj _ => "[object Object]"
  end.

(** [throw new Error(`Cannot encode value: ${value.toString()}`)]; on
    [null] and [undefined] the method call itself throws. *)
Definition cannot_encode (value : value) : JS.value :=
  if isNullish value
  then new_Error "TypeError: Cannot read properties of null or undefined"
  else new_Error ("Cannot encode value: " +:+ toString value).

(** The pair [[type, value]]; an absent component is [None] / [VUndefined]. *)
Definition hbEncodeValue (value : value) : Promise (option string * JS.value) :=
  if isBytes value then
    if (lengthOf value =? 0)%nat then Resolved (None, VStr "empty-binary")
    else Resolved (None, value)
  else if String.eqb (typeof value) "string" then
    if (lengthOf value =? 0)%nat then Resolved (None, VStr "empty-binary")
    else Resolved (None, value)
  else if isArray value && (lengthOf value =? 0)%nat then
    Resolved (Some "empty-list", VUndefined)
  else if String.eqb (typeof value) "number" then
    if negb (Number_isInteger value) then Resolved (Some "float", VStr (toString value))
    else Resolved (Some "integer", VStr (toString value))
  else if String.eqb (typeof value) "symbol" then
    Resolved (Some "atom", match value with
                           | VSym (Some description) => VStr description
                           | _ => VUndefined
                           end)
  else Rejected (cannot_encode value).

(** The accumulator [[encoded, types]]: [encoded] is used as a map from
    flattened key to leaf; [types] is enumerated, so its order is kept. *)
Definition Flattened : Type := gmap string value.
Definition Types : Type := list (string * string).

(** [types[curK] = type] on an object whose enumeration order is the
    order of insertion *)
Fixpoint types_set (curK type : string) (types : Types) : Types :=
  match types with
  | [] => [(curK, type)]
  | (k, t) :: rest =>
      if String.eqb k curK then (k, type) :: rest
      else (k, t) :: types_set curK type rest
  end.

Definition store (fullK curK : string) (dest : Flattened * Types)
    (encoded : option string * value) : Flattened * Types :=
  let '(flattened, types) := dest in
  let '(type, value) := encoded in
  let types := match type with
               | Some type => if negb (String.eqb type "") then types_set curK type types
                              else types
               | None => types
               end in
  let flattened := if truthy value then <[fullK := value]> flattened else flattened in
  (flattened, types).

(** [Object.assign(target, source)] *)
Definition Object_assign (target source : Flattened) : Flattened := source ∪ target.

(** [Object.entries(types).map(([key, value]) => `${key.toLowerCase()}=${value}`).join(',')] *)
Definition ao_types (types : Types) : string :=
  String.concat "," (List.map (fun '(key, value) => toLowerCase key +:+ "=" +:+ value) types).

(** Add the ao-types key for the specific layer, as a structured dictionary. *)
Definition withTypes (parent : string) (acc : Flattened * Types) : Flattened :=
  let '(flattened, types) := acc in
  match types with
  | [] => flattened
  | _ =>
      let typesKey := if negb (String.eqb parent "") then parent +:+ "/ao-types"
                      else "ao-types" in
      <[typesKey := VStr (ao_types types)]> flattened
  end.

Section Reduce.
(** the recursive call of [hbEncode] *)
Variable hbEncode : value -> string -> Promise Flattened.

(** [value.forEach((v, i) => Object.assign(acc[0], hbEncode(v, `${flatK}/${i}`)))] *)
Fixpoint forEach (flatK : string) (vs : list value) (i : nat)
    (flattened : Flattened) : Promise Flattened :=
  match vs with
  | [] => Resolved flattened
  | v :: vs' =>
      match hbEncode v (flatK +:+ "/" +:+ index_key i) with
      | Resolved sub => forEach flatK vs' (S i) (Object_assign flattened sub)
      | Rejected err => Rejected err
      end
  end.

(** the reducer over [Object.entries(obj)] *)
Definition reducer (parent : string) (acc : Flattened * Types)
    (key : string) (value : value) : Promise (Flattened * Types) :=
  let flatK := toLowerCase (if negb (String.eqb parent "")
                            then parent +:+ "/" +:+ key else key) in
  let leaf :=
    match hbEncodeValue value with
    | Resolved encoded => Resolved (store flatK key acc encoded)
    | Rejected err => Rejected err
    end in
  (* skip nullish values *)
  if isNullish value then Resolved acc
  else
    match value with
    (* first/{idx}/name flatten array *)
    | VArr [] => leaf
    | VArr elems =>
        match forEach flatK elems 0 (fst acc) with
        | Resolved flattened => Resolved (flattened, snd acc)
        | Rejected err => Rejected err
        end
    | _ =>
        (* first/second flatten object *)
        if isPojo value then
          match hbEncode value flatK with
          | Resolved sub => Resolved (Object_assign (fst acc) sub, snd acc)
          | Rejected err => Rejected err
          end
        (* leaf encode value *)
        else leaf
    end.

Fixpoint reduce_props (parent : string) (entries : list (string * value))
    (acc : Flattened * Types) : Promise (Flattened * Types) :=
  match entries with
  | [] => Resolved acc
  | (key, value) :: rest =>
      match reducer parent acc key value with
      | Resolved acc => reduce_props parent rest acc
      | Rejected err => Rejected err
      end
  end.

(** the same reduction over the entries [[`${i}`, v]] of an array *)
Fixpoint reduce_elems (parent : string) (elems : list value) (i : nat)
    (acc : Flattened * Types) : Promise (Flattened * Types) :=
  match elems with
  | [] => Resolved acc
  | value :: rest =>
      match reducer parent acc (index_key i) value with
      | Resolved acc => reduce_elems parent rest (S i) acc
      | Rejected err => Rejected err
      end
  end.
End Reduce.

(** [Object.entries] of a string: one entry per character; of a buffer:
    one entry per byte.  Both are leaves for the reducer, which therefore
    never reaches its recursive call on them ([no_nesting] stands for it). *)
Definition char_entries (s : string) : list value :=
  List.map (fun c => VStr (String c "")) (list_ascii_of_string s).
Definition byte_entries (bs : list byte) : list value :=
  List.map (fun b => VNum (Int (Sha256.Z_of_byte b))) bs.

Definition no_nesting (_ : value) (_ : string) : Promise Flattened :=
  Resolved ∅.

Fixpoint hbEncode (obj : value) (parent : string) {struct obj} : Promise Flattened :=
  match obj with
  | VUndefined | VNull =>
      Rejected (new_Error "TypeError: Cannot convert undefined or null to object")
  | VObj props =>
      match reduce_props hbEncode parent props (∅, []) with
      | Resolved acc => Resolved (withTypes parent acc)
      | Rejected err => Rejected err
      end
  | VArr elems =>
      match reduce_elems hbEncode parent elems 0 (∅, []) with
      | Resolved acc => Resolved (withTypes parent acc)
      | Rejected err => Rejected err
      end
  | VStr s =>
      match reduce_elems no_nesting parent (char_entries s) 0 (∅, []) with
      | Resolved acc => Resolved (withTypes parent acc)
      | Rejected err => Rejected err
      end
  | VBytes bs =>
      match reduce_elems no_nesting parent (byte_entries bs) 0 (∅, []) with
      | Resolved acc => Resolved (withTypes parent acc)
      | Rejected err => Rejected err
      end
  | VBool _ | VNum _ | VSym _ => Resolved (withTypes parent (∅, []))
  end.

(** *** Text as the platform reads it

    A string is held as the UTF-8 bytes of the JS string (a lone surrogate
    as the three bytes of its code point).  The platform compares strings
    and checks header text by UTF-16 code unit, so the code points and the
    code units are read back from the bytes. *)

Definition Z_of_ascii (c : ascii) : Z := Z.of_N (N_of_ascii c).

(** the code points of UTF-8 bytes; a byte that begins nothing is U+FFFD *)
Fixpoint code_points_of (bs : list Z) : list Z :=
  let continues b := (128 <=? b) && (b <=? 191) in
  match bs with
  | [] => []
  | b0 :: rest =>
      if b0 <? 128 then b0 :: code_points_of rest
      else
        match rest with
        | [] => [65533]
        | b1 :: rest1 =>
            if (194 <=? b0) && (b0 <=? 223) && continues b1 then
              ((b0 - 192) * 64 + (b1 - 128)) :: code_points_of rest1
            else
              match rest1 with
              | [] => 65533 :: code_points_of rest
              | b2 :: rest2 =>
                  if (224 <=? b0) && (b0 <=? 239) && continues b1 && continues b2
                     && (negb (b0 =? 224) || (160 <=? b1)) then
                    ((b0 - 224) * 4096 + (b1 - 128) * 64 + (b2 - 128))
                      :: code_points_of rest2
                  else
                    match rest2 with
                    | [] => 65533 :: code_points_of rest
                    | b3 :: rest3 =>
                        if (240 <=? b0) && (b0 <=? 244)
                           && continues b1 && continues b2 && continues b3
                           && (negb (b0 =? 240) || (144 <=? b1))
                           && (negb (b0 =? 244) || (b1 <=? 143)) then
                          ((b0 - 240) * 262144 + (b1 - 128) * 4096
                           + (b2 - 128) * 64 + (b3 - 128))
                            :: code_points_of rest3
                        else 65533 :: code_points_of rest
                    end
              end
        end
  end.

Definition code_points (s : string) : list Z :=
  code_points_of (List.map Z_of_ascii (list_ascii_of_string s)).

(** the UTF-16 code units: a code point above U+FFFF is a surrogate pair *)
Definition code_units (s : string) : list Z :=
  flat_map (fun cp => if cp <? 65536 then [cp]
                      else [55296 + (cp - 65536) / 1024; 56320 + (cp - 65536) mod 1024])
           (code_points s).

(** *** [Headers] *)

(** [new Headers()]: the pairs in the order they were added, names in
    lower case. *)
Definition Headers : Type := list (string * string).

(** A name or a value is converted to a [ByteString]: no code unit above
    255. *)
Definition isByteString (s : string) : bool :=
  forallb (fun cp => cp <=? 255) (code_points s).

(** HTTP whitespace: tab, line feed, carriage return, space *)
Definition is_whitespace (c : ascii) : bool :=
  existsb (Ascii.eqb c) ["009"%char; "010"%char; "013"%char; " "%char].

Fixpoint drop_while (p : ascii -> bool) (l : list ascii) : list ascii :=
  match l with
  | [] => []
  | c :: l' => if p c then drop_while p l' else l
  end.

(** a value is normalized: leading and trailing HTTP whitespace go *)
Definition normalize (value : string) : string :=
  string_of_list_ascii
    (rev (drop_while is_whitespace
            (rev (drop_while is_whitespace (list_ascii_of_string value))))).

(** a header name is a token *)
Definition is_token_char (c : ascii) : bool :=
  existsb (Ascii.eqb c)
    (list_ascii_of_string
       "!#$%&'*+-.^_`|~0123456789ABCDEFGHIJKLMNOPQRSTUVWXYZabcdefghijklmnopqrstuvwxyz").

Definition isValidHeaderName (name : string) : bool :=
  negb (String.eqb name "") && forallb is_token_char (list_ascii_of_string name).

(** a normalized value holds no NUL, line feed or carriage return *)
Definition isValidHeaderValue (value : string) : bool :=
  forallb (fun c => negb (existsb (Ascii.eqb c) ["000"%char; "010"%char; "013"%char]))
          (list_ascii_of_string value).

(** what [Headers] takes *)
Definition accepted (name value : string) : bool :=
  isByteString name && isByteString value
  && isValidHeaderName name && isValidHeaderValue (normalize value).

(** the [TypeError] of [Headers] (its message is the platform's) *)
Definition invalid_header (name : string) : JS.value :=
  new_Error ("TypeError: invalid header " +:+ name).

(** The pair [Headers] keeps for a name and a value, or its [TypeError]. *)
Definition checked (name value : string) : Promise (string * string) :=
  if accepted name value then Resolved (toLowerCase name, normalize value)
  else Rejected (invalid_header name).

Definition append (name value : string) (h : Headers) : Promise Headers :=
  match checked name value with
  | Resolved kept => Resolved (h ++ [kept])
  | Rejected err => Rejected err
  end.

(** [h.set(name, value)]: the first pair of that name takes the value,
    the others go; a new name is appended. *)
Fixpoint set_existing (name value : string) (h : Headers) : Headers :=
  match h with
  | [] => []
  | (n, v) :: rest =>
      if String.eqb n name
      then (name, value) :: List.filter (fun p => negb (String.eqb (fst p) name)) rest
      else (n, v) :: set_existing name value rest
  end.

Definition set (name value : string) (h : Headers) : Promise Headers :=
  match checked name value with
  | Resolved (name, value) =>
      Resolved (if existsb (fun p => String.eqb (fst p) name) h
                then set_existing name value h
                else h ++ [(name, value)])
  | Rejected err => Rejected err
  end.

(** [h.get(name)]: the values of that name, joined *)
Definition get (name : string) (h : Headers) : option string :=
  match List.filter (fun p => String.eqb (fst p) (toLowerCase name)) h with
  | [] => None
  | ps => Some (String.concat ", " (List.map snd ps))
  end.

(** the bytes a [Blob] part or [Buffer.from] makes of a leaf *)
Definition bytes_of (leaf : option value) : list byte :=
  match leaf with
  | Some (VBytes bs) => bs
  | Some (VStr s) => Text.bytes s
  | _ => []
  end.

(** the text [Headers] makes of a leaf *)
Definition text_of (leaf : option value) : string :=
  match leaf with
  | Some (VBytes bs) => string_of_list_byte bs
  | Some (VStr s) => s
  | _ => ""
  end.

(** the lexicographic order of two lists of numbers *)
Fixpoint units_compare (a b : list Z) : comparison :=
  match a, b with
  | [], [] => Eq
  | [], _ :: _ => Lt
  | _ :: _, [] => Gt
  | x :: a', y :: b' =>
      match x ?= y with
      | Eq => units_compare a' b'
      | c => c
      end
  end.

(** What [sort] compares: the UTF-16 code units of a key.  Two keys with
    the same code units are one JS string; the bytes after the end mark
    [-1] only order texts that are not the UTF-8 of a JS string. *)
Definition sort_key (s : string) : list Z :=
  code_units s ++ (-1) :: List.map Z_of_ascii (list_ascii_of_string s).

Definition String_le (s1 s2 : string) : Prop :=
  units_compare (sort_key s1) (sort_key s2) <> Gt.
#[global] Instance String_le_dec : RelDecision String_le.
Proof.
  intros s1 s2. unfold String_le.
  destruct (units_compare (sort_key s1) (sort_key s2));
    [left; discriminate | left; discriminate | right; intros Hne; now apply Hne].
Defined.

(** [Object.keys(flattened).sort()]: the default order of [sort] compares
    the keys as strings, UTF-16 code unit by code unit. *)
Definition sorted_keys (flattened : Flattened) : list string :=
  merge_sort String_le (List.map fst (map_to_list flattened)).

(** Some values may be encoded into headers, while others may be encoded
    into the body: anything larger than 4k goes into the body. *)
Definition goes_in_body (flattened : Flattened) (key : string) : bool :=
  if includes_slash key then true
  else (Z.of_nat (length (bytes_of (flattened !! key))) >? 4096).

Definition split_keys (flattened : Flattened) : list string * list string :=
  partition (goes_in_body flattened) (sorted_keys flattened).

Fixpoint join_bytes (sep : list byte) (parts : list (list byte)) : list byte :=
  match parts with
  | [] => []
  | [p] => p
  | p :: rest => p ++ sep ++ join_bytes sep rest
  end.

Definition boundaryFrom (bodyParts : list (list byte)) : string :=
  let base := join_bytes (Text.bytes CRLF) bodyParts in
  let hash := Sha256.sha256 base in
  Text.base64url_encode hash.

Record Encoded : Type := mkEncoded {
  headers : Headers;
  body : option (list byte)
}.

Definition bodyPart (flattened : Flattened) (name : string) : list byte :=
  Text.bytes ("content-disposition: form-data;name=" +:+ DQUOTE +:+ name +:+ DQUOTE
                +:+ CRLF +:+ CRLF)
    ++ bytes_of (flattened !! name).

(** Segment each part with the multipart boundary, then add the
    terminating boundary. *)
Definition multipart (boundary : string) (bodyParts : list (list byte)) : list byte :=
  flat_map (fun p => Text.bytes ("--" +:+ boundary +:+ CRLF) ++ p ++ Text.bytes CRLF)
           bodyParts
    ++ Text.bytes ("--" +:+ boundary +:+ "--").

(** [headerKeys.forEach((key) => h.append(key, flattened[key]))]: the
    first header that [Headers] refuses ends the loop with its [TypeError]. *)
Fixpoint append_all (flattened : Flattened) (headerKeys : list string) (h : Headers)
    : Promise Headers :=
  match headerKeys with
  | [] => Resolved h
  | key :: rest =>
      match append key (text_of (flattened !! key)) h with
      | Resolved h => append_all flattened rest h
      | Rejected err => Rejected err
      end
  end.

Definition encode_flattened (flattened : Flattened) : Promise Encoded :=
  let '(bodyKeys, headerKeys) := split_keys flattened in
  match append_all flattened headerKeys [] with
  | Rejected err => Rejected err
  | Resolved h =>
      match bodyKeys with
      | [] => Resolved (mkEncoded h None)
      | _ =>
          let bodyParts := List.map (bodyPart flattened) bodyKeys in
          let boundary := boundaryFrom bodyParts in
          let body := multipart boundary bodyParts in
          let contentDigest := Sha256.sha256 body in
          let base64 := Text.toBase64 (Text.base64url_encode contentDigest) in
          match set "Content-Type"
                    ("multipart/form-data; boundary=" +:+ DQUOTE +:+ boundary +:+ DQUOTE)
                    h with
          | Rejected err => Rejected err
          | Resolved h =>
              match append "Content-Digest" ("sha-256=:" +:+ base64 +:+ ":") h with
              | Rejected err => Rejected err
              | Resolved h => Resolved (mkEncoded h (Some body))
              end
          end
      end
  end.

(** Encode the object as HyperBEAM HTTP multipart message.  Nested objects
    are flattened to a single depth multipart.  ([obj = {}] when the
    argument is [undefined]; the guard [Object.keys(obj) === 0] compares an
    array with a number and never holds.) *)
Definition encode (obj : value) : Promise Encoded :=
  let obj := match obj with VUndefined => VObj [] | _ => obj end in
  match hbEncode obj "" with
  | Resolved flattened => encode_flattened flattened
  | Rejected err => Rejected err
  end.

(** In the words of the specification: a key goes into the body iff its
    flattened path contains a [/] or the UTF-8 byte length of the key
    exceeds 4096. *)
Definition by_key_length (key : string) : bool :=
  includes_slash key || (Z.of_nat (String.length key) >? 4096).

(** The [Content-Digest] header of an encoding, when there is one. *)
Definition contentDigestOf (r : Promise Encoded) : option string :=
  match r with
  | Resolved e => get "Content-Digest" (headers e)
  | Rejected _ => None
  end.

End HbEncode.

(** ** The evaluator

    [domain/lib/evaluate.js] is not among the sources; its test,
    [evaluate.test.js], is.  The loop is modelled from the specification of
    the evaluator (its eight numbered steps), around the worker's [invoke]
    and the collaborators that are injected into it. *)

Module Evaluator.

Record Tag : Type := mkTag { tag_name : string; tag_value : string }.

(** Modelled from the spec: the items of the message stream of
    [evaluate.js] (the data model's Message): the message proper and the
    fields the evaluator adds to it. *)
Record Message : Type := mkMessage {
  Id : string;
  Timestamp : Z;
  Owner : string;
  Tags : list Tag;
  Block_Height : Z;
  ordinate : Z;
  cron : option string;
  deepHash : option string;
  noSave : bool;
  AoGlobal : value
}.

Module Cursor.
Record t : Type := mk {
  timestamp : Z;
  blockHeight : Z;
  ordinate : Z;
  cron : option string
}.
End Cursor.

Module Evaluation.
Record t : Type := mk {
  processId : string;
  message : Message;
  output : Worker.EvaluationOutput;
  ordinate : Z;
  timestamp : Z;
  blockHeight : Z;
  cron : option string
}.
End Evaluation.

Module Stats.
Record t : Type := mk { scheduled : nat; cron : nat; error : nat }.
End Stats.

(** Modelled from the spec: the part of the [EvaluationContext] of
    [evaluate.js] that a run only reads. *)
Record Context : Type := mkContext {
  id : string;
  from : Z;
  moduleId : string;
  moduleComputeLimit : Z;
  moduleMemoryLimit : Z
}.

(** Modelled from the spec: the collaborators injected into [evaluate.js],
    over the state [Db] of the evaluation store. *)
Class Env : Type := {
  Db : Type;
  saveEvaluation : Evaluation.t -> Db -> Db * Promise unit;
  (** [Some record] when the hash was evaluated before, [None] for NotFound *)
  findMessageHashBefore : string -> string -> Z -> Db -> Db * option value;
  loadEvaluator : string -> Z -> Z -> Worker.WasmInstance;
  saveLatestProcessMemory : string -> value -> option Cursor.t -> Db -> Db * Promise unit;
  (** tag names, besides [From] and [Owner], that the scheduler populates *)
  reservedTag : string -> bool
}.

Section WithEnv.
Context `{env : Env}.

(** Modelled from the spec: what a run of [evaluate.js] mutates; the last
    four fields record the calls it makes. *)
Record State : Type := mkState {
  stats : Stats.t;
  result : Worker.EvaluationOutput;
  evaledCrons : gset (string * Z * Z);
  last : option Cursor.t;
  db : Db;
  saved : list Evaluation.t;
  hashLookups : list string;
  invoked : list (Message * Worker.EvaluationOutput);
  checkpoints : list (value * option Cursor.t)
}.

Definition with_stats (f : Stats.t -> Stats.t) (st : State) : State :=
  mkState (f (stats st)) (result st) (evaledCrons st) (last st) (db st)
          (saved st) (hashLookups st) (invoked st) (checkpoints st).

Definition cronKey (m : Message) (c : string) : string * Z * Z :=
  (c, Timestamp m, ordinate m).

Definition cursorOf (m : Message) : Cursor.t :=
  Cursor.mk (Timestamp m) (Block_Height m) (ordinate m) (cron m).

(** Modelled from the spec: step 3 of the loop of [evaluate.js], "Tag
    sanitisation". *)
Definition isPrivileged (tagName : string) : bool :=
  String.eqb tagName "From" || String.eqb tagName "Owner" || reservedTag tagName.

Definition sanitiseTags (tags : list Tag) : list Tag :=
  List.filter (fun t => negb (isPrivileged (tag_name t))) tags.

Definition tagValue (t : Tag) : value :=
  VObj [("name", VStr (tag_name t)); ("value", VStr (tag_value t))].

(** the message as the Wasm handler receives it *)
Definition toWasm (m : Message) : value :=
  VObj [ ("Id", VStr (Id m));
         ("Timestamp", VNum (Int (Timestamp m)));
         ("Owner", VStr (Owner m));
         ("Tags", VArr (List.map tagValue (sanitiseTags (Tags m))));
         ("Block-Height", VNum (Int (Block_Height m))) ].

Definition evaluationOf (ctx : Context) (m : Message)
    (output : Worker.EvaluationOutput) : Evaluation.t :=
  Evaluation.mk (id ctx) m output (ordinate m) (Timestamp m) (Block_Height m) (cron m).

Definition workerArgs (ctx : Context) (m : Message) (Memory : value) : Worker.Args :=
  Worker.mkArgs (id ctx +:+ "-" +:+ String_of_Z (from ctx)) (moduleId ctx)
                (moduleComputeLimit ctx) (moduleMemoryLimit ctx)
                (Id m) (id ctx) Memory (toWasm m) (AoGlobal m).

(** Modelled from the spec: step 1 of the loop of [evaluate.js], "Stat
    bump". *)
Definition bumpStat (m : Message) : Async State value unit :=
  effect (with_stats (fun s =>
    match cron m with
    | Some _ => Stats.mk (Stats.scheduled s) (S (Stats.cron s)) (Stats.error s)
    | None => Stats.mk (S (Stats.scheduled s)) (Stats.cron s) (Stats.error s)
    end)).

(** Modelled from the spec: step 2 of the loop of [evaluate.js], "Dedup",
    on the hash index. *)
Definition alreadyEvaluated (ctx : Context) (m : Message) : Async State value bool :=
  match deepHash m with
  | None => resolved false
  | Some h =>
      fun st =>
        let '(db', found) := findMessageHashBefore h (id ctx) (from ctx) (db st) in
        (mkState (stats st) (result st) (evaledCrons st) (last st) db'
                 (saved st) (hashLookups st ++ [h]) (invoked st) (checkpoints st),
         Resolved (bool_decide (is_Some found)))
  end.

(** Modelled from the spec: step 2 of the loop of [evaluate.js], "Dedup",
    on the cron keys seen during this run. *)
Definition seenCron (m : Message) : Async State value bool :=
  match cron m with
  | None => resolved false
  | Some c =>
      fun st =>
        let key := cronKey m c in
        if bool_decide (key ∈ evaledCrons st) then (st, Resolved true)
        else
          (mkState (stats st) (result st) ({[key]} ∪ evaledCrons st) (last st) (db st)
                   (saved st) (hashLookups st) (invoked st) (checkpoints st),
           Resolved false)
  end.

(** Modelled from the spec: steps 3 to 5 of the loop of [evaluate.js]:
    sanitise the tags, invoke through the worker on [ctx.result.Memory],
    fold the output into [ctx.result]. *)
Definition invokeAndFold (ctx : Context) (m : Message)
    : Async State value Worker.EvaluationOutput :=
  fun st =>
    let wasmInstance :=
      loadEvaluator (moduleId ctx) (moduleComputeLimit ctx) (moduleMemoryLimit ctx) in
    match Worker.invoke (workerArgs ctx m (Worker.Memory (result st))) wasmInstance st with
    | (st, Resolved output) =>
        (mkState (stats st) output (evaledCrons st) (last st) (db st)
                 (saved st) (hashLookups st) (invoked st ++ [(m, output)])
                 (checkpoints st),
         Resolved output)
    | (st, Rejected err) => (st, Rejected err)
    end.

(** Modelled from the spec: step 6 of the loop of [evaluate.js], "Stats
    on error". *)
Definition countError (output : Worker.EvaluationOutput) : Async State value unit :=
  if truthy (Worker.Error output)
  then effect (with_stats (fun s =>
         Stats.mk (Stats.scheduled s) (Stats.cron s) (S (Stats.error s))))
  else resolved tt.

(** Modelled from the spec: step 7 of the loop of [evaluate.js],
    "Persist". *)
Definition persist (ctx : Context) (m : Message) (output : Worker.EvaluationOutput)
    : Async State value unit :=
  if negb (noSave m) && negb (truthy (Worker.Error output)) then
    fun st =>
      let evaluation := evaluationOf ctx m output in
      let '(db', r) := saveEvaluation evaluation (db st) in
      (mkState (stats st) (result st) (evaledCrons st) (last st) db'
               (saved st ++ [evaluation]) (hashLookups st) (invoked st)
               (checkpoints st),
       r)
  else resolved tt.

(** Modelled from the spec: step 8 of the loop of [evaluate.js], "Advance
    cursor". *)
Definition advance (m : Message) : Async State value unit :=
  effect (fun st =>
    mkState (stats st) (result st) (evaledCrons st) (Some (cursorOf m)) (db st)
            (saved st) (hashLookups st) (invoked st) (checkpoints st)).

(** Modelled from the spec: steps 6 to 8 of the loop of [evaluate.js],
    once the output is folded. *)
Definition settle (ctx : Context) (m : Message) (output : Worker.EvaluationOutput)
    : Async State value unit :=
  chain (fun _ : unit =>
    chain (fun _ : unit => advance m)
      (persist ctx m output))
    (countError output).

(** Modelled from the spec: steps 3 to 8 of the loop of [evaluate.js], for a
    message that is not a duplicate. *)
Definition evaluateFresh (ctx : Context) (m : Message) : Async State value unit :=
  chain (settle ctx m) (invokeAndFold ctx m).

(** Modelled from the spec: one turn of the loop of [evaluate.js]; a
    duplicate leaves the loop after step 2. *)
Definition evaluateMessage (ctx : Context) (m : Message) : Async State value unit :=
  chain (fun _ : unit =>
    chain (fun found : bool =>
      if found then resolved tt
      else
        chain (fun duplicate : bool =>
          if duplicate then resolved tt else evaluateFresh ctx m)
          (seenCron m))
      (alreadyEvaluated ctx m))
    (bumpStat m).

(** Modelled from the spec: the loop of [evaluate.js] over the stream, in
    order; a failed [saveEvaluation] ends the run. *)
Fixpoint evaluateAll (ctx : Context) (messages : list Message)
    : Async State value unit :=
  match messages with
  | [] => resolved tt
  | m :: rest => chain (fun _ : unit => evaluateAll ctx rest) (evaluateMessage ctx m)
  end.

(** Modelled from the spec: the end of a run of [evaluate.js]: the latest
    memory is saved, once. *)
Definition checkpoint (ctx : Context) : Async State value unit :=
  fun st =>
    let Memory := Worker.Memory (result st) in
    let '(db', r) := saveLatestProcessMemory (id ctx) Memory (last st) (db st) in
    (mkState (stats st) (result st) (evaledCrons st) (last st) db'
             (saved st) (hashLookups st) (invoked st)
             (checkpoints st ++ [(Memory, last st)]),
     r).

(** Modelled from the spec: [evaluate(ctx)] of [evaluate.js], giving
    [{ output, last }]. *)
Definition evaluate (ctx : Context) (messages : list Message)
    : State -> State * Promise (Worker.EvaluationOutput * option Cursor.t) :=
  toPromise
    (chain (fun _ : unit => fun st => (st, Resolved (result st, last st)))
       (chain (fun _ : unit => checkpoint ctx)
          (evaluateAll ctx messages))).

(** Modelled from the spec: the state a run of [evaluate.js] starts from. *)
Definition start (Memory : value) (store : Db) : State :=
  mkState (Stats.mk 0 0 0)
          (Worker.mkOutput Memory VUndefined VUndefined VUndefined VUndefined VUndefined)
          ∅ None store [] [] [] [].

(** The output the worker gives for a message on a memory. *)
Definition outputOf (ctx : Context) (m : Message) (Memory : value)
    : Worker.EvaluationOutput :=
  Worker.mergeOutput Memory
    match loadEvaluator (moduleId ctx) (moduleComputeLimit ctx) (moduleMemoryLimit ctx)
            Memory (toWasm m) (AoGlobal m) with
    | Resolved raw => raw
    | Rejected err => R.assocPath1 "Error" err
    end.

(** In the words of the specification: a message is persisted iff its
    invocation did not produce an [Error] and its [noSave] flag is unset. *)
Definition mustPersist (entry : Message * Worker.EvaluationOutput) : bool :=
  negb (truthy (Worker.Error (snd entry))) && negb (noSave (fst entry)).

Definition persisted (ctx : Context)
    (log : list (Message * Worker.EvaluationOutput)) : list Evaluation.t :=
  List.map (fun entry => evaluationOf ctx (fst entry) (snd entry))
           (List.filter mustPersist log).

(** What a skipped message must leave as it was: the folded result, the
    invocations, the persisted evaluations, the cursor, the cron keys seen
    and the checkpoints. *)
Definition untouched (st st' : State) : Prop :=
  result st' = result st
  /\ invoked st' = invoked st
  /\ saved st' = saved st
  /\ last st' = last st
  /\ evaledCrons st' = evaledCrons st
  /\ checkpoints st' = checkpoints st.

(** The cron keys of the cron messages in a log of invocations. *)
Definition cronKeys (log : list (Message * Worker.EvaluationOutput))
    : list (string * Z * Z) :=
  flat_map (fun entry => match cron (fst entry) with
                         | Some c => [cronKey (fst entry) c]
                         | None => []
                         end) log.

(** The invariant of the loop: what was invoked, what was persisted of it,
    and the cron keys of the invoked messages. *)
Definition extends (ctx : Context) (st st' : State) (new : list (Message * Worker.EvaluationOutput))
    : Prop :=
  invoked st' = invoked st ++ new
  /\ saved st' = saved st ++ persisted ctx new
  /\ NoDup (cronKeys new)
  /\ (forall k, k ∈ cronKeys new -> k ∉ evaledCrons st)
  /\ evaledCrons st ⊆ evaledCrons st'.

(** A message that neither dedup step can skip. *)
Definition plain (m : Message) : Prop := deepHash m = None /\ cron m = None.

End WithEnv.

End Evaluator.

(** * Concrete environments, used to run the models *)

Module Scenario.

Import Worker.

(** a handler that always throws *)
Definition throwing : WasmInstance := fun _ _ _ => Rejected (VStr "out of gas").

(** a handler that reports an error and still hands back a memory *)
Definition failing : WasmInstance :=
  fun _ _ _ => Resolved (VObj [("Error", VStr "bad input"); ("Memory", VBytes ["x"%byte])]).

(** a handler that counts the messages it has seen in its memory *)
Definition counting : WasmInstance :=
  fun Memory _ _ =>
    let n := match Memory with VNum (Int n) => n | _ => 0 end in
    Resolved (VObj [("Memory", VNum (Int (n + 1))); ("Output", VNum (Int (n + 1)))]).

Definition identityZlib : Zlib :=
  {| gzip := fun bs => bs; gunzip := fun bs => Resolved bs |}.

(** A gateway that serves [served] with status [code]; every binary that
    is not empty compiles. *)
Definition workerEnv (code : Z) (served : list byte) (handler : WasmInstance) : Env :=
  {| WasmModule := list byte;
     compile := fun bs => match bs with
                          | [] => Rejected (new_Error "CompileError")
                          | _ => Resolved bs
                          end;
     zlib := identityZlib;
     fetch := fun _ => Resolved (mkResponse code (Some (Resolved served)));
     writable := fun _ => true;
     leftover := fun _ _ => None;
     bootstrapWasmInstance := fun _ _ _ => Resolved handler;
     DIR := "/wasm";
     GATEWAY_URL := "https://gateway" |}.

Definition args0 : Args :=
  mkArgs "stream-1" "mod-1" 9000 9000 "message 1" "process-1"
         (VBytes ["m"%byte]) (VObj []) (VObj []).

(** a text of [n] bytes *)
Definition filler (n : nat) : string := string_of_list_ascii (repeat "x"%char n).

(** a short key with a value of 4097 bytes, and a key of 4097 bytes with a
    short value *)
Definition bigValue : value := VObj [("a", VStr (filler 4097))].
Definition bigKey : value := VObj [(filler 4097, VStr "v")].

(** The object of the round-trip scenario of the specification. *)
Definition nested : value :=
  VObj [ ("a", VNum (Int 1)); ("b", VStr "x");
         ("c", VObj [("d", VArr [VNum (Int 10); VNum (Int 20)])]) ].

(** Two objects that differ only in the order in which the keys of [x]
    were inserted. *)
Definition ab : value := VObj [("x", VObj [("a", VNum (Int 1)); ("b", VNum (Int 2))])].
Definition ba : value := VObj [("x", VObj [("b", VNum (Int 2)); ("a", VNum (Int 1))])].

Definition emptyWorld `{Env} : World :=
  mkWorld (LRUCache.create 2) (LRUCache.create 2) ∅ [].

(** An evaluation store that remembers the deep hashes it was given. *)
Definition evaluatorEnv (handler : WasmInstance) : Evaluator.Env :=
  {| Evaluator.Db := list string;
     Evaluator.saveEvaluation := fun evaluation store =>
       (match Evaluator.deepHash (Evaluator.Evaluation.message evaluation) with
        | Some h => h :: store
        | None => store
        end, Resolved tt);
     Evaluator.findMessageHashBefore := fun h _ _ store =>
       (store, if existsb (String.eqb h) store then Some (VStr h) else None);
     Evaluator.loadEvaluator := fun _ _ _ => handler;
     Evaluator.saveLatestProcessMemory := fun _ _ _ store => (store, Resolved tt);
     Evaluator.reservedTag := fun _ => false |}.

Definition ctx0 : Evaluator.Context :=
  Evaluator.mkContext "ctr-1234" 1702846520559 "foo-module" 9000000000000 9000000000000.

Definition scheduled (owner fn : string) (height ord : Z) : Evaluator.Message :=
  Evaluator.mkMessage "message-123" 1702846520559 owner
    [Evaluator.mkTag "function" fn] height ord None None false
    (VObj [("Process", VObj [("Id", VStr "1234"); ("Tags", VArr [])])]).

Definition withNoSave (m : Evaluator.Message) : Evaluator.Message :=
  Evaluator.mkMessage (Evaluator.Id m) (Evaluator.Timestamp m) (Evaluator.Owner m)
    (Evaluator.Tags m) (Evaluator.Block_Height m) (Evaluator.ordinate m)
    (Evaluator.cron m) (Evaluator.deepHash m) true (Evaluator.AoGlobal m).

Definition withDeepHash (h : string) (m : Evaluator.Message) : Evaluator.Message :=
  Evaluator.mkMessage (Evaluator.Id m) (Evaluator.Timestamp m) (Evaluator.Owner m)
    (Evaluator.Tags m) (Evaluator.Block_Height m) (Evaluator.ordinate m)
    (Evaluator.cron m) (Some h) (Evaluator.noSave m) (Evaluator.AoGlobal m).

Definition withCron (c : string) (timestamp : Z) (m : Evaluator.Message)
    : Evaluator.Message :=
  Evaluator.mkMessage (Evaluator.Id m) timestamp (Evaluator.Owner m)
    (Evaluator.Tags m) (Evaluator.Block_Height m) (Evaluator.ordinate m)
    (Some c) (Evaluator.deepHash m) (Evaluator.noSave m) (Evaluator.AoGlobal m).

(** An evaluation store whose hash index misses on the first lookup and
    hits on every later one, as the stub of the test 'skip over messages
    that are already evaluated (deepHash)' does. *)
Definition missThenHitEnv (handler : WasmInstance) : Evaluator.Env :=
  {| Evaluator.Db := nat;
     Evaluator.saveEvaluation := fun _ calls => (calls, Resolved tt);
     Evaluator.findMessageHashBefore := fun _ _ _ calls =>
       (S calls, match calls with
                 | O => None
                 | S _ => Some (VObj [("_id", VStr "evaluation-doc-123")])
                 end);
     Evaluator.loadEvaluator := fun _ _ _ => handler;
     Evaluator.saveLatestProcessMemory := fun _ _ _ calls => (calls, Resolved tt);
     Evaluator.reservedTag := fun _ => false |}.

(** the value of the tag [function] of a message handed to a handler *)
Fixpoint functionTag (tags : list value) : string :=
  match tags with
  | [] => ""
  | tag :: rest =>
      match get "name" tag, get "value" tag with
      | VStr "function", VStr fn => fn
      | _, _ => functionTag rest
      end
  end.

(** a handler that answers [errorResult] with an error and counts the other
    messages in its memory *)
Definition sad : WasmInstance :=
  fun Memory message AoGlobal =>
    match get "Tags" message with
    | VArr tags =>
        if String.eqb (functionTag tags) "errorResult"
        then Resolved (VObj [("Memory", VNum (Int 99));
                             ("Error", VObj [("code", VNum (Int 123))])])
        else counting Memory message AoGlobal
    | _ => counting Memory message AoGlobal
    end.

Definition atTimestamp (timestamp : Z) (m : Evaluator.Message)
    : Evaluator.Message :=
  Evaluator.mkMessage (Evaluator.Id m) timestamp (Evaluator.Owner m)
    (Evaluator.Tags m) (Evaluator.Block_Height m) (Evaluator.ordinate m)
    (Evaluator.cron m) (Evaluator.deepHash m) (Evaluator.noSave m) (Evaluator.AoGlobal m).

(** The stream of the test 'save each interaction'. *)
Definition saveEachInteraction : list Evaluator.Message :=
  [ withNoSave (scheduled "owner-123" "hello" 1234 0);
    scheduled "owner-123" "hello" 1234 1;
    scheduled "owner-456" "world" 1235 1 ].

(** The stream of the test 'skip over messages that are already evaluated
    (deepHash)'. *)
Definition skipDeepHash : list Evaluator.Message :=
  [ withDeepHash "deephash-123" (scheduled "owner-123" "hello" 1234 1);
    withDeepHash "deephash-456" (scheduled "owner-456" "world" 1235 1);
    scheduled "owner-456" "world" 1236 1 ].

(** The stream of the test 'skip over Cron Messages that are already
    evaluated'. *)
Definition skipCron : list Evaluator.Message :=
  [ withCron "1-10-minutes" 1702846520559
      (withDeepHash "deephash-123" (scheduled "owner-123" "hello" 1234 1));
    withDeepHash "deephash-456" (scheduled "owner-456" "world" 1235 1);
    withCron "1-20-minutes" 1702846520600 (scheduled "owner-456" "world" 1236 2);
    withCron "1-20-minutes" 1702846520600 (scheduled "owner-456" "world" 1236 2);
    withDeepHash "deephash-789"
      (atTimestamp 1702846520700 (scheduled "owner-456" "world" 1235 3)) ].

(** The stream of the test 'continue evaluating, ignoring output of errored
    message'. *)
Definition errorThenCounters : list Evaluator.Message :=
  [ scheduled "owner-456" "errorResult" 1234 1;
    scheduled "owner-456" "counter" 1235 1;
    scheduled "owner-456" "counter" 1236 1 ].

End Scenario.

(** * Further models and scenarios *)

(** ** What [lru-cache] keeps: a cache within its bound, one entry per key *)

Module LRUCacheSpec.

Definition within_bound {V} (c : LRUCache.t V) : Prop :=
  (length (LRUCache.entries c) <= LRUCache.max c)%nat
  /\ NoDup (List.map fst (LRUCache.entries c)).

End LRUCacheSpec.

(** ** The shape of a digest in text *)

Module TextSpec.

Definition is_lower_hex (c : ascii) : bool :=
  existsb (Ascii.eqb c) (list_ascii_of_string "0123456789abcdef").

(** the characters of standard base64, [=] apart *)
Definition is_base64 (c : ascii) : bool :=
  existsb (Ascii.eqb c) (list_ascii_of_string Text.base64_alphabet).

(** the characters of base64url *)
Definition is_base64url (c : ascii) : bool :=
  existsb (Ascii.eqb c)
    (list_ascii_of_string
       "ABCDEFGHIJKLMNOPQRSTUVWXYZabcdefghijklmnopqrstuvwxyz0123456789-_").

(** one character through [fromBase64], and one through [toBase64] *)
Definition to_url (c : ascii) : ascii :=
  let c := if Ascii.eqb c "+" then "-"%char else c in
  if Ascii.eqb c "/" then "_"%char else c.

Definition of_url (c : ascii) : ascii :=
  let c := if Ascii.eqb c "-" then "+"%char else c in
  if Ascii.eqb c "_" then "/"%char else c.

End TextSpec.

(** ** What the codec takes, and what a flattening holds *)

Module HbEncodeSpec.

(** a leaf of a flattening: a string or a buffer, and not an empty one *)
Definition is_leaf (v : value) : Prop :=
  match v with
  | VStr s => s <> ""
  | VBytes bs => bs <> []
  | _ => False
  end.

Section Accepts.
(** what [hbEncode] takes as its argument *)
Variable accepts : value -> bool.

(** what [hbEncode] takes as the value of an entry *)
Definition accepts_entry (v : value) : bool :=
  match v with
  | VBool _ => false
  | VArr elems => forallb accepts elems
  | VObj _ => accepts v
  | _ => true
  end.
End Accepts.

Fixpoint accepts (obj : value) : bool :=
  match obj with
  | VUndefined | VNull => false
  | VObj props => forallb (fun p => accepts_entry accepts (snd p)) props
  | VArr elems => forallb (accepts_entry accepts) elems
  | _ => true
  end.

(** a character of text that [Headers] takes as it is: space to tilde *)
Definition printable (c : ascii) : bool :=
  (32 <=? HbEncode.Z_of_ascii c) && (HbEncode.Z_of_ascii c <=? 126).

(** a text of seven-bit characters only *)
Definition seven_bit (s : string) : bool :=
  forallb (fun c => HbEncode.Z_of_ascii c <? 128) (list_ascii_of_string s).

(** the headers a flattening asks for: one for each header key *)
Definition asked (flattened : HbEncode.Flattened) (headerKeys : list string)
    : HbEncode.Headers :=
  List.map (fun key => (HbEncode.toLowerCase key,
                        HbEncode.normalize (HbEncode.text_of (flattened !! key))))
           headerKeys.

(** whether [Headers] takes every header key with its value *)
Definition all_accepted (flattened : HbEncode.Flattened) (headerKeys : list string)
    : bool :=
  forallb (fun key => HbEncode.accepted key (HbEncode.text_of (flattened !! key)))
          headerKeys.

(** the headers once [Content-Type] is set *)
Definition with_content_type (value : string) (h : HbEncode.Headers) : HbEncode.Headers :=
  if existsb (fun p => String.eqb (fst p) "content-type") h
  then HbEncode.set_existing "content-type" value h
  else h ++ [("content-type", value)].

(** one character of [toLowerCase] *)
Definition lower_char (c : ascii) : ascii :=
  let n := nat_of_ascii c in
  if (65 <=? n)%nat && (n <=? 90)%nat then ascii_of_nat (n + 32) else c.

(** an entry of the flattening made under [parent]: the key is in lower
    case and lies under the parent, the value is a leaf *)
Definition well_keyed (parent k : string) (v : value) : Prop :=
  HbEncode.toLowerCase k = k
  /\ is_leaf v
  /\ (parent <> "" -> exists rest, k = parent +:+ "/" +:+ rest).

Definition well_formed (parent : string) (flattened : HbEncode.Flattened) : Prop :=
  forall k v, flattened !! k = Some v -> well_keyed parent k v.

Definition flattens_well (f : value -> string -> Promise HbEncode.Flattened)
    (v : value) : Prop :=
  forall parent flattened,
    HbEncode.toLowerCase parent = parent ->
    f v parent = Resolved flattened -> well_formed parent flattened.

(** the reasons [hbEncode] rejects with *)
Definition no_object : value :=
  new_Error "TypeError: Cannot convert undefined or null to object".
Definition no_boolean (b : bool) : value :=
  new_Error ("Cannot encode value: " +:+ HbEncode.toString (VBool b)).

Definition rejects_for (err : value) : Prop :=
  err = no_object \/ exists b, err = no_boolean b.

(** [f] resolves on the values that are accepted, and on those only *)
Definition decides (f : value -> string -> Promise HbEncode.Flattened)
    (v : value) : Prop :=
  forall parent,
    match f v parent with
    | Resolved _ => accepts v = true
    | Rejected err => accepts v = false /\ rejects_for err
    end.

End HbEncodeSpec.

(** ** The message route of the messenger unit: [POST /message]

    The handler that [withMessageRoutes] registers.  What it is given in
    [req] is a parameter: [sendMsg], which resolves to the forwarded
    transaction [tx] and to [crank], and [logger.tap], whose result is passed
    on whatever it is.  The response object and the two calls are observed
    through the events they leave; the value the handler resolves to (the
    response after a 400, nothing otherwise) is not modelled. *)

Module Routes.

Inductive Event : Type :=
| SendMsg (input : value)
| Respond (status : Z) (payload : value)
| CrankIt.

Record Tx : Type := mkTx { id : value }.

Record Forwarded (D : Type) : Type := mkForwarded {
  tx : Tx;
  crank : D -> D * Promise value
}.
Arguments mkForwarded {D} tx crank.
Arguments tx {D} _.
Arguments crank {D} _.

Class Env : Type := {
  (** the state behind [domain.apis] *)
  Domain : Type;
  sendMsg : value -> Domain -> Domain * Promise (Forwarded Domain);
  tap : forall A : Type, string -> A -> A
}.

Record World `{Env} : Type := mkWorld {
  domain : Domain;
  trace : list Event
}.
Arguments mkWorld {_} domain trace.

Section WithEnv.
Context `{env : Env}.

(** [res.status(status).send(payload)] *)
Definition send (status : Z) (payload : value) (w : World) : World :=
  mkWorld (domain w) (trace w ++ [Respond status payload]).

Definition call_sendMsg (input : value) : Async World value (Forwarded Domain) :=
  fun w =>
    let '(d, r) := sendMsg input (domain w) in
    (mkWorld d (trace w ++ [SendMsg input]), r).

Definition crankIt (forwarded : Forwarded Domain) : Async World value value :=
  fun w =>
    let '(d, r) := crank forwarded (domain w) in
    (mkWorld d (trace w ++ [CrankIt]), r).

Definition postMessage (body : value) : World -> World * Promise unit :=
  if negb (truthy body) then
    fun w => (send 400 (VStr "Signed data item is required") w, Resolved tt)
  else
    (* Forward the message *)
    toPromise
      (map (fun _ => tt)
        (chain
          (fun forwarded =>
             (* Respond to the client after the initial message has been
                forwarded, then transparently continue cranking its results *)
             fun w =>
               bimap (tap value "Failed to crank messages")
                     (tap value "Successfully cranked messages")
                     (crankIt forwarded)
                     (send 202 (VObj [("message", VStr "Processing message");
                                      ("id", id (tx forwarded))]) w))
          (bimap
             (tap value
                "Failed to forward initial message to the SU and read result from the CU")
             (tap (Forwarded Domain)
                "Successfully forwarded initial message to the SU and read result from the CU. Beginning to crank...")
             (chain call_sendMsg (of_ (VObj [("raw", body)])))))).

End WithEnv.

End Routes.

(** ** Further scenarios *)

Module Cases.

Import Worker.

(** A worker whose modules compile but cannot be instantiated. *)
Definition noInstanceEnv : Env :=
  {| WasmModule := list byte;
     compile := fun bs => Resolved bs;
     zlib := Scenario.identityZlib;
     fetch := fun _ => Resolved (mkResponse 200 (Some (Resolved ["w"%byte])));
     writable := fun _ => true;
     leftover := fun _ _ => None;
     bootstrapWasmInstance := fun _ _ _ => Rejected (new_Error "LinkError");
     DIR := "/wasm";
     GATEWAY_URL := "https://gateway" |}.

(** A worker that cannot reach its gateway. *)
Definition offlineEnv : Env :=
  {| WasmModule := list byte;
     compile := fun bs => Resolved bs;
     zlib := Scenario.identityZlib;
     fetch := fun _ => Rejected (new_Error "ECONNREFUSED");
     writable := fun _ => true;
     leftover := fun _ _ => None;
     bootstrapWasmInstance := fun _ _ _ => Resolved Scenario.counting;
     DIR := "/wasm";
     GATEWAY_URL := "https://gateway" |}.

(** the arguments of [Scenario.args0], for another module on the same stream *)
Definition args1 : Args :=
  mkArgs "stream-1" "mod-2" 9000 9000 "message 2" "process-1"
         (VNum (Int 1)) (VObj []) (VObj []).

(** a scheduler that takes the message, and a crank that fails *)
Definition failingCrank : Routes.Env := {|
  Routes.Domain := nat;
  Routes.sendMsg := fun _ n =>
    (S n, Resolved (Routes.mkForwarded (Routes.mkTx (VStr "tx-1"))
                      (fun n => (S n, Rejected (new_Error "crank")))));
  Routes.tap := fun _ _ a => a
|}.

(** A gateway that answers 204: a response in the 2xx range, without body. *)
Definition noContentEnv : Env :=
  {| WasmModule := list byte;
     compile := fun bs => Resolved bs;
     zlib := Scenario.identityZlib;
     fetch := fun _ => Resolved (mkResponse 204 None);
     writable := fun _ => true;
     leftover := fun _ _ => None;
     bootstrapWasmInstance := fun _ _ _ => Resolved Scenario.counting;
     DIR := "/wasm";
     GATEWAY_URL := "https://gateway" |}.

End Cases.

(** * Properties *)

(** ** Text: strings, digests, base64 *)

Module TextFacts.

Lemma sha256_length (data : list byte) : length (Sha256.sha256 data) = 32%nat.
Proof.
  unfold Sha256.sha256. rewrite List.length_map.
  generalize (Sha256.digest_words (List.map Sha256.Z_of_byte data)). intros r.
  reflexivity.
Qed.

Lemma length_string_of_list_ascii (l : list ascii) :
  String.length (string_of_list_ascii l) = length l.
Proof. induction l as [|c l IH]; cbn; congruence. Qed.

Lemma string_app_cons (x : ascii) (a b : string) : String x a +:+ b = String x (a +:+ b).
Proof. reflexivity. Qed.

Lemma string_app_assoc (a b c : string) : (a +:+ b) +:+ c = a +:+ (b +:+ c).
Proof.
  induction a as [|x a IH]; [reflexivity|]. now rewrite !string_app_cons, IH.
Qed.

Lemma string_app_nonempty (a b : string) : a <> "" -> a +:+ b <> "".
Proof. destruct a; [congruence | discriminate]. Qed.

(** *** base64 and base64url *)

Lemma list_ind3 {A} (P : list A -> Prop) :
  P [] -> (forall a, P [a]) -> (forall a b, P [a; b]) ->
  (forall a b c l, P l -> P (a :: b :: c :: l)) ->
  forall l, P l.
Proof.
  intros H0 H1 H2 H3 l.
  assert (P l /\ (forall a, P (a :: l)) /\ (forall a b, P (a :: b :: l))) as [Hl _].
  { induction l as [|x l (IH0 & IH1 & IH2)]; [now auto|].
    split; [apply IH1|]. split; [intros a; apply IH2|]. intros a b. now apply H3. }
  exact Hl.
Qed.

Lemma string_of_list_ascii_app (l r : list ascii) :
  string_of_list_ascii (l ++ r) = string_of_list_ascii l +:+ string_of_list_ascii r.
Proof.
  induction l as [|c l IH]; [reflexivity|].
  cbn [app string_of_list_ascii]. now rewrite string_app_cons, IH.
Qed.

Lemma fromBase64_chars (l : list ascii) :
  Text.fromBase64 (string_of_list_ascii l)
  = string_of_list_ascii
      (List.map TextSpec.to_url (List.filter (fun c => negb (Ascii.eqb c "=")) l)).
Proof.
  unfold Text.fromBase64, Text.replace_char, Text.remove_char.
  rewrite !list_ascii_of_string_of_list_ascii, List.map_map. reflexivity.
Qed.

Lemma toBase64_chars (l : list ascii) :
  Text.toBase64 (string_of_list_ascii l)
  = string_of_list_ascii
      (List.map TextSpec.of_url
                (l ++ repeat "="%char ((4 - length l mod 4) mod 4)%nat)).
Proof.
  unfold Text.toBase64, Text.replace_char.
  rewrite length_string_of_list_ascii, <- string_of_list_ascii_app.
  rewrite !list_ascii_of_string_of_list_ascii, List.map_map. reflexivity.
Qed.

Lemma base64_digit (c : ascii) :
  TextSpec.is_base64 c = true ->
  Ascii.eqb c "=" = false
  /\ TextSpec.of_url (TextSpec.to_url c) = c
  /\ TextSpec.is_base64url (TextSpec.to_url c) = true.
Proof.
  destruct c as [[] [] [] [] [] [] [] []]; vm_compute; intros Hc;
    try discriminate Hc; repeat split.
Qed.

Lemma digit_of_base64 (n : Z) :
  0 <= n < 64 -> TextSpec.is_base64 (Text.digit_of Text.base64_alphabet n) = true.
Proof.
  intros Hn.
  assert (forallb (fun k => TextSpec.is_base64
                              (nth k (list_ascii_of_string Text.base64_alphabet) "0"%char))
                  (seq 0 64) = true) as Hall by (vm_compute; reflexivity).
  rewrite forallb_forall in Hall. unfold Text.digit_of. apply Hall.
  apply in_seq. lia.
Qed.

(** The text of standard base64: digits, then the padding. *)
Lemma base64_chars_shape (bs : list Z) :
  Forall (fun b => 0 <= b < 256) bs ->
  exists core pad,
    Text.base64_chars bs = core ++ repeat "="%char pad
    /\ forallb TextSpec.is_base64 core = true
    /\ pad = ((3 - length bs mod 3) mod 3)%nat
    /\ (length core + pad = 4 * ((length bs + 2) / 3))%nat.
Proof.
  induction bs as [| a | a b | a b c bs IH] using list_ind3; intros Hbs.
  - exists [], 0%nat. repeat split.
  - apply Forall_cons in Hbs as [Ha _].
    exists [Text.digit_of Text.base64_alphabet (a / 4);
            Text.digit_of Text.base64_alphabet (a mod 4 * 16)], 2%nat.
    split; [reflexivity|]. split; [|split; reflexivity].
    cbn [forallb]. rewrite !digit_of_base64; [reflexivity | |];
      Z.div_mod_to_equations; lia.
  - apply Forall_cons in Hbs as [Ha Hbs]. apply Forall_cons in Hbs as [Hb _].
    exists [Text.digit_of Text.base64_alphabet (a / 4);
            Text.digit_of Text.base64_alphabet (a mod 4 * 16 + b / 16);
            Text.digit_of Text.base64_alphabet (b mod 16 * 4)], 1%nat.
    split; [reflexivity|]. split; [|split; reflexivity].
    cbn [forallb]. rewrite !digit_of_base64; [reflexivity | | |];
      Z.div_mod_to_equations; lia.
  - apply Forall_cons in Hbs as [Ha Hbs]. apply Forall_cons in Hbs as [Hb Hbs].
    apply Forall_cons in Hbs as [Hc Hbs].
    destruct (IH Hbs) as (core & pad & Hchars & Hcore & Hpad & Hlen).
    exists (Text.digit_of Text.base64_alphabet (a / 4)
              :: Text.digit_of Text.base64_alphabet (a mod 4 * 16 + b / 16)
              :: Text.digit_of Text.base64_alphabet (b mod 16 * 4 + c / 64)
              :: Text.digit_of Text.base64_alphabet (c mod 64) :: core), pad.
    split; [|split; [|split]].
    + cbn [Text.base64_chars]. rewrite Hchars. reflexivity.
    + cbn [forallb]. rewrite Hcore, !digit_of_base64; [reflexivity | | | |];
        Z.div_mod_to_equations; lia.
    + rewrite Hpad. cbn [length]. zify. Z.div_mod_to_equations. lia.
    + cbn [length]. revert Hlen. zify. Z.div_mod_to_equations. lia.
Qed.

Lemma Z_of_byte_range (bs : list byte) :
  Forall (fun b => 0 <= b < 256) (List.map Sha256.Z_of_byte bs).
Proof.
  apply Forall_forall. intros z Hin.
  apply list_elem_of_In, List.in_map_iff in Hin as (b & <- & _).
  destruct b; vm_compute; split; congruence.
Qed.

Lemma filter_digits (core : list ascii) (pad : nat) :
  forallb TextSpec.is_base64 core = true ->
  List.filter (fun c => negb (Ascii.eqb c "=")) (core ++ repeat "="%char pad) = core.
Proof.
  intros Hcore. induction core as [|c core IH]; cbn [app].
  - induction pad as [|pad IH]; [reflexivity | exact IH].
  - cbn [forallb] in Hcore. apply andb_true_iff in Hcore as [Hc Hcore].
    cbn [List.filter]. destruct (base64_digit c Hc) as (-> & _). cbn [negb].
    now rewrite IH.
Qed.

Lemma of_url_to_url (core : list ascii) :
  forallb TextSpec.is_base64 core = true ->
  List.map TextSpec.of_url (List.map TextSpec.to_url core) = core.
Proof.
  induction core as [|c core IH]; [reflexivity|].
  cbn [forallb List.map]. intros Hcore. apply andb_true_iff in Hcore as [Hc Hcore].
  destruct (base64_digit c Hc) as (_ & -> & _). now rewrite IH.
Qed.

Lemma to_url_chars (core : list ascii) :
  forallb TextSpec.is_base64 core = true ->
  forallb TextSpec.is_base64url (List.map TextSpec.to_url core) = true.
Proof.
  induction core as [|c core IH]; [reflexivity|].
  cbn [forallb List.map]. intros Hcore. apply andb_true_iff in Hcore as [Hc Hcore].
  destruct (base64_digit c Hc) as (_ & _ & ->). now apply IH.
Qed.

(** [base64url.toBase64(base64url.encode(buffer))] is the standard base64
    of the buffer, padding included. *)
Lemma toBase64_of_base64url (bs : list byte) :
  Text.toBase64 (Text.base64url_encode bs) = Text.base64 bs.
Proof.
  unfold Text.base64url_encode, Text.base64.
  destruct (base64_chars_shape _ (Z_of_byte_range bs))
    as (core & pad & -> & Hcore & Hpad & Hlen).
  rewrite fromBase64_chars, (filter_digits _ _ Hcore), toBase64_chars.
  rewrite List.map_app, (of_url_to_url _ Hcore), List.length_map.
  assert (((4 - length core mod 4) mod 4)%nat = pad) as ->.
  { revert Hpad Hlen. generalize (length (List.map Sha256.Z_of_byte bs)).
    intros n. zify. Z.div_mod_to_equations. lia. }
  f_equal. f_equal. clear. induction pad as [|pad IH]; cbn; congruence.
Qed.

(** The digest of 32 bytes in base64url: 43 characters of its alphabet;
    in base64: 44 characters. *)
Lemma base64_of_a_digest (bs : list byte) :
  length bs = 32%nat ->
  String.length (Text.base64url_encode bs) = 43%nat
  /\ forallb TextSpec.is_base64url (list_ascii_of_string (Text.base64url_encode bs)) = true
  /\ String.length (Text.base64 bs) = 44%nat.
Proof.
  intros H32. unfold Text.base64url_encode, Text.base64.
  destruct (base64_chars_shape _ (Z_of_byte_range bs))
    as (core & pad & -> & Hcore & Hpad & Hlen).
  rewrite List.length_map, H32 in Hpad, Hlen. cbn in Hpad. subst pad. cbn in Hlen.
  rewrite fromBase64_chars, (filter_digits _ _ Hcore).
  rewrite !length_string_of_list_ascii, list_ascii_of_string_of_list_ascii.
  rewrite List.length_map, List.length_app. cbn [repeat length].
  split; [lia|]. split; [now apply to_url_chars | lia].
Qed.

End TextFacts.

(** ** The worker *)

Module WorkerFacts.

Import Worker.

Lemma path1_defaultTo (k : string) (raw : value) :
  R.path1 k (R.defaultTo (VObj []) raw) = get k raw.
Proof.
  destruct raw as [| | b | [z | r |] | s | d | bs | l | props]; reflexivity.
Qed.

Lemma pathOr_raw (d : value) (k : string) (raw : value) :
  R.pathOr d k (R.defaultTo (VObj []) raw) = R.defaultTo d (get k raw).
Proof. unfold R.pathOr. now rewrite path1_defaultTo. Qed.

Lemma Memory_mergeOutput (prevMemory raw : value) :
  Memory (mergeOutput prevMemory raw) =
    if truthy (R.defaultTo VUndefined (get "Error" raw)) then prevMemory
    else R.defaultTo prevMemory (get "Memory" raw).
Proof.
  unfold mergeOutput; cbn [Memory]. unfold R.ifElse, R.always, R.propOr.
  now rewrite pathOr_raw, path1_defaultTo.
Qed.

Lemma Error_mergeOutput (prevMemory raw : value) :
  Error (mergeOutput prevMemory raw) = R.defaultTo VUndefined (get "Error" raw).
Proof. unfold mergeOutput; cbn [Error]. apply pathOr_raw. Qed.

Lemma Output_mergeOutput (prevMemory raw : value) :
  Output (mergeOutput prevMemory raw) =
    match R.defaultTo (VStr "") (get "Output" raw) with
    | VNum n => VStr (String_ n)
    | v => v
    end.
Proof.
  unfold mergeOutput; cbn [Output]. rewrite pathOr_raw.
  destruct (R.defaultTo (VStr "") (get "Output" raw))
    as [| | b | n | s | d | bs | l | props]; reflexivity.
Qed.

(** An error-carrying output keeps the memory it was given. *)
Lemma mergeOutput_error_keeps_memory (prevMemory raw : value) :
  truthy (Error (mergeOutput prevMemory raw)) = true ->
  Memory (mergeOutput prevMemory raw) = prevMemory.
Proof.
  rewrite Memory_mergeOutput, Error_mergeOutput. now intros ->.
Qed.

(** A thrown value becomes the [Error] of an output on the old memory. *)
Lemma mergeOutput_thrown (prevMemory err : value) :
  let out := mergeOutput prevMemory (R.assocPath1 "Error" err) in
  Memory out = prevMemory /\ Error out = R.defaultTo VUndefined err.
Proof.
  cbn zeta. rewrite Memory_mergeOutput, Error_mergeOutput.
  cbn [R.assocPath1 get lookup_prop String.eqb Ascii.eqb Bool.eqb].
  split; [|reflexivity].
  now destruct (truthy (R.defaultTo VUndefined err)).
Qed.

Lemma defaultTo_truthy (d v : value) : truthy v = true -> R.defaultTo d v = v.
Proof. destruct v as [| | b | [z | r |] | s | ds | bs | l | props]; cbn; congruence. Qed.

(** [invoke] does not touch the world, and always resolves. *)
Lemma invoke_resolves {W} (args : Args) (wasmInstance : WasmInstance) (w : W) :
  invoke args wasmInstance w =
    (w, Resolved (mergeOutput (prevMemory args)
                    match wasmInstance (prevMemory args) (message args) (AoGlobal args) with
                    | Resolved raw => raw
                    | Rejected err => R.assocPath1 "Error" err
                    end)).
Proof.
  unfold invoke, map, bichain, settled, resolved.
  now destruct (wasmInstance _ _ _).
Qed.

Lemma evaluate_acquired `{Env} (args : Args) (w w' : World) (wasmInstance : WasmInstance) :
  acquire args w = (w', Resolved wasmInstance) ->
  evaluate args w = invoke args wasmInstance w'.
Proof. unfold evaluate, toPromise, chain. now intros ->. Qed.

(** C1. Once the worker holds the instance for the stream, an exception
    thrown by the Wasm handler is never propagated: [evaluate] resolves
    with an output whose [Memory] is the memory passed in and whose [Error]
    is the thrown value (a thrown [null], [undefined] or [NaN] leaves
    [Error] undefined).  Whatever the handler does, [evaluate] resolves,
    and an output that carries a (truthy) [Error] has the memory that was
    passed in. *)
Theorem evaluate_never_throws_due_to_evaluation `{Env}
    (args : Args) (w w' : World) (wasmInstance : WasmInstance) :
  acquire args w = (w', Resolved wasmInstance) ->
  (forall err,
      wasmInstance (prevMemory args) (message args) (AoGlobal args) = Rejected err ->
      exists out,
        evaluate args w = (w', Resolved out)
        /\ Memory out = prevMemory args
        /\ Error out = R.defaultTo VUndefined err
        /\ (truthy err = true -> Error out = err))
  /\ (exists out,
        evaluate args w = (w', Resolved out)
        /\ (truthy (Error out) = true -> Memory out = prevMemory args)).
Proof.
  intros Hacq. rewrite (evaluate_acquired _ _ _ _ Hacq), invoke_resolves. split.
  - intros err ->. eexists. split; [reflexivity|].
    destruct (mergeOutput_thrown (prevMemory args) err) as [HM HE].
    split; [exact HM|]. split; [exact HE|].
    intros Ht. rewrite HE. now apply defaultTo_truthy.
  - eexists. split; [reflexivity|]. apply mergeOutput_error_keeps_memory.
Qed.

Lemma evaluate_never_throws_witness :
  let env := Scenario.workerEnv 200 ["w"%byte] Scenario.throwing in
  let w' := fst (acquire Scenario.args0 Scenario.emptyWorld) in
  exists out,
    evaluate Scenario.args0 Scenario.emptyWorld = (w', Resolved out)
    /\ Memory out = VBytes ["m"%byte]
    /\ Error out = VStr "out of gas".
Proof.
  intros env w'.
  destruct (evaluate_never_throws_due_to_evaluation
              Scenario.args0 Scenario.emptyWorld w' Scenario.throwing eq_refl)
    as [Hthrow _].
  destruct (Hthrow (VStr "out of gas") eq_refl) as (out & He & Hm & _ & Herr).
  exists out. split; [exact He|]. split; [exact Hm|]. now apply Herr.
Defined.

(** C8. Whatever the handler returned (nothing at all included), the
    normalised output has [Messages = []] and [Spawns = []] where they were
    missing and [Output = ""] where it was missing; a numeric [Output]
    (other than NaN, which [pathOr] treats as missing) becomes its decimal
    string; a string or an object [Output] passes through unchanged. *)
Theorem mergeOutput_normalises (prevMemory raw : value) :
  let out := mergeOutput prevMemory raw in
  (get "Messages" raw = VUndefined -> Messages out = VArr [])
  /\ (get "Spawns" raw = VUndefined -> Spawns out = VArr [])
  /\ (get "Output" raw = VUndefined -> Output out = VStr "")
  /\ (forall n, get "Output" raw = VNum n -> n <> NaN -> Output out = VStr (String_ n))
  /\ (forall s, get "Output" raw = VStr s -> Output out = VStr s)
  /\ (forall o, R.is_Object o = true -> get "Output" raw = o -> Output out = o).
Proof.
  cbn zeta. rewrite Output_mergeOutput.
  unfold mergeOutput; cbn [Messages Spawns]. rewrite !pathOr_raw.
  repeat split.
  - now intros ->.
  - now intros ->.
  - now intros ->.
  - intros n -> Hn. destruct n; [reflexivity | reflexivity | congruence].
  - now intros s ->.
  - intros o Ho ->. now destruct o.
Qed.

Lemma mergeOutput_normalises_witness :
  let out := mergeOutput VNull (VObj [("Output", VNum (Int 42))]) in
  Messages out = VArr [] /\ Spawns out = VArr [] /\ Output out = VStr "42".
Proof.
  destruct (mergeOutput_normalises VNull (VObj [("Output", VNum (Int 42))]))
    as (HM & HS & _ & HN & _).
  split; [now apply HM|]. split; [now apply HS|].
  now apply (HN (Int 42)).
Defined.

(** A handler that returns an [Error] together with a new memory: the
    memory that was passed in is kept. *)
Example evaluate_drops_memory_of_failed_step :
  let env := Scenario.workerEnv 200 ["w"%byte] Scenario.failing in
  snd (evaluate Scenario.args0 Scenario.emptyWorld)
  = Resolved (mkOutput (VBytes ["m"%byte]) (VStr "bad input") (VArr []) (VArr [])
                       (VStr "") VUndefined).
Proof. reflexivity. Qed.

(** A thrown [null] is caught as well, but leaves no [Error] behind. *)
Example evaluate_thrown_null :
  let env := Scenario.workerEnv 200 ["w"%byte] (fun _ _ _ => Rejected VNull) in
  snd (evaluate Scenario.args0 Scenario.emptyWorld)
  = Resolved (mkOutput (VBytes ["m"%byte]) VUndefined (VArr []) (VArr [])
                       (VStr "") VUndefined).
Proof. reflexivity. Qed.

(** Other shapes of the handler output: none at all, NaN as [Output], a
    negative number. *)
Example mergeOutput_of_undefined :
  mergeOutput (VBytes ["m"%byte]) VUndefined
  = mkOutput (VBytes ["m"%byte]) VUndefined (VArr []) (VArr []) (VStr "") VUndefined.
Proof. reflexivity. Qed.

Example mergeOutput_Output_NaN :
  Output (mergeOutput VNull (VObj [("Output", VNum NaN)])) = VStr "".
Proof. reflexivity. Qed.

Example mergeOutput_Output_negative :
  Output (mergeOutput VNull (VObj [("Output", VNum (Int (-7)))])) = VStr "-7".
Proof. reflexivity. Qed.

(** *** Loading a module *)

Lemma get_miss {V} (k : string) (c : LRUCache.t V) :
  LRUCache.peek k c = None -> LRUCache.get k c = (None, c).
Proof. unfold LRUCache.peek, LRUCache.get. now intros ->. Qed.

Lemma get_hit {V} (k : string) (c : LRUCache.t V) (v : V) :
  LRUCache.peek k c = Some v ->
  LRUCache.get k c
    = (Some v, LRUCache.mk (LRUCache.max c) ((k, v) :: LRUCache.remove k (LRUCache.entries c))).
Proof. unfold LRUCache.peek, LRUCache.get. now intros ->. Qed.

(** What is set in a cache that holds at least one entry can be read back. *)
Lemma peek_set {V} (k : string) (v : V) (c : LRUCache.t V) :
  (0 < LRUCache.max c)%nat -> LRUCache.peek k (LRUCache.set k v c) = Some v.
Proof.
  intros Hmax. unfold LRUCache.peek, LRUCache.set. cbn.
  destruct (LRUCache.max c) as [|n]; [lia|]. cbn. now rewrite String.eqb_refl.
Qed.

Lemma world_eta `{Env} (w : World) :
  mkWorld (wasmInstanceCache w) (wasmModuleCache w) (files w) (trace w) = w.
Proof. now destruct w. Qed.

Section LoadModule.
Context `{env : Env}.

(** The steps of the chain, each as one equation on the world. *)

Lemma maybeCachedModule_miss (args : Args) (w : World) :
  LRUCache.peek (moduleId args) (wasmModuleCache w) = None ->
  maybeCachedModule args w = (w, Rejected args).
Proof.
  intros Hmiss. unfold maybeCachedModule, chain, wasmModuleCache_get, rejected.
  rewrite (get_miss _ _ Hmiss). now rewrite world_eta.
Qed.

Lemma maybeStoredBinary_run (args : Args) (w : World) :
  maybeStoredBinary args w
  = (emit (ReadFile (wasmFile (moduleId args))) w,
     match storedBinary (moduleId args) w with
     | Resolved wasm => Resolved wasm
     | Rejected _ => Rejected args
     end).
Proof.
  unfold maybeStoredBinary, storedBinary, bimap, chain, of_, settled, readWasmFile.
  now destruct (compileStreaming _).
Qed.

Lemma loadTransaction_run (args : Args) (w : World) :
  loadTransaction args w
  = let url := GATEWAY_URL +:+ "/raw/" +:+ moduleId args in
    let w1 := emit (Fetch url) w in
    match fetch url with
    | Resolved res =>
        if ok res then
          match body res with
          | Some stream => (written (moduleId args) stream w1, compileStreaming stream)
          | None => (w1, Rejected no_body)
          end
        else
          (w1, match text res with
               | Resolved text =>
                   Rejected (new_Error (String_of_Z (status res) +:+ ": " +:+ text))
               | Rejected err => Rejected err
               end)
    | Rejected err => (w1, Rejected err)
    end.
Proof.
  unfold loadTransaction, map, chain, of_, settled, streamTransactionData,
    writeWasmFile, written, resolved, rejected.
  cbn zeta. destruct (fetch _) as [err | res]; [reflexivity|].
  destruct (ok res); [|now destruct (text res)].
  destruct (body res) as [stream|]; [|reflexivity].
  now destruct (compileStreaming stream).
Qed.

Lemma loadModule_miss (args : Args) (w : World) :
  LRUCache.peek (moduleId args) (wasmModuleCache w) = None ->
  loadModule args w
  = let w1 := emit (ReadFile (wasmFile (moduleId args))) w in
    match storedBinary (moduleId args) w with
    | Resolved wasm => (wasmModuleCache_set (moduleId args) wasm w1, Resolved wasm)
    | Rejected _ =>
        match loadTransaction args w1 with
        | (w2, Resolved wasm) => (wasmModuleCache_set (moduleId args) wasm w2, Resolved wasm)
        | (w2, Rejected err) => (w2, Rejected err)
        end
    end.
Proof.
  intros Hmiss. unfold loadModule, bichain.
  rewrite (maybeCachedModule_miss _ _ Hmiss).
  unfold chain, bichain, of_, resolved. rewrite maybeStoredBinary_run.
  cbn zeta. destruct (storedBinary _ _); [|reflexivity].
  now destruct (loadTransaction _ _) as [w2 [err | wasm]].
Qed.

Variable args : Args.
Variable w : World.

Let m := moduleId args.
Let file := wasmFile m.
Let url := GATEWAY_URL +:+ "/raw/" +:+ m.

(** a hit in the compiled-module cache: nothing is read, nothing is fetched *)
Lemma loadModule_cached (wasm : WasmModule) :
  LRUCache.peek m (wasmModuleCache w) = Some wasm ->
  exists w',
    loadModule args w = (w', Resolved wasm)
    /\ trace w' = trace w /\ files w' = files w
    /\ LRUCache.peek m (wasmModuleCache w') = Some wasm.
Proof.
  intros Hhit. unfold m in *.
  unfold loadModule, maybeCachedModule, bichain, chain, wasmModuleCache_get, resolved.
  rewrite (get_hit _ _ _ Hhit).
  eexists. split; [reflexivity|]. cbn. repeat split.
  unfold LRUCache.peek; cbn. now rewrite String.eqb_refl.
Qed.

(** a miss, then the binary stored on disk compiles: no fetch *)
Lemma loadModule_stored (wasm : WasmModule) :
  LRUCache.peek m (wasmModuleCache w) = None ->
  storedBinary m w = Resolved wasm ->
  exists w',
    loadModule args w = (w', Resolved wasm)
    /\ trace w' = trace w ++ [ReadFile file]
    /\ files w' = files w
    /\ wasmModuleCache w' = LRUCache.set m wasm (wasmModuleCache w).
Proof.
  intros Hmiss Hdisk. unfold file, m in *.
  rewrite (loadModule_miss _ _ Hmiss). cbn zeta. rewrite Hdisk.
  eexists. split; [reflexivity|]. now cbn.
Qed.

(** a miss, nothing usable on disk, the gateway answers 2xx and the body
    compiles: the body goes to the file and the module is cached *)
Lemma loadModule_fetched (err : value) (res : Response) (stream : Stream)
    (wasm : WasmModule) :
  LRUCache.peek m (wasmModuleCache w) = None ->
  storedBinary m w = Rejected err ->
  fetch url = Resolved res ->
  200 <= status res <= 299 ->
  body res = Some stream ->
  compileStreaming stream = Resolved wasm ->
  exists w',
    loadModule args w = (w', Resolved wasm)
    /\ trace w' = trace w ++ [ReadFile file; Fetch url; WriteFile file]
    /\ files w' = after_write file stream (files w)
    /\ wasmModuleCache w' = LRUCache.set m wasm (wasmModuleCache w).
Proof.
  intros Hmiss Hdisk Hfetch Hok Hbody Hcompile.
  assert (ok res = true) as Hok' by (unfold ok; lia). unfold url, file, m in *.
  rewrite (loadModule_miss _ _ Hmiss). cbn zeta. rewrite Hdisk, loadTransaction_run.
  cbn zeta. rewrite Hfetch, Hok', Hbody, Hcompile.
  eexists. split; [reflexivity|]. cbn. rewrite <- !app_assoc. now cbn.
Qed.

(** a miss, nothing usable on disk, the gateway answers outside 2xx: the
    load fails, nothing is written, nothing is cached *)
Lemma loadModule_gateway_error (err : value) (res : Response) :
  LRUCache.peek m (wasmModuleCache w) = None ->
  storedBinary m w = Rejected err ->
  fetch url = Resolved res ->
  (status res < 200 \/ 299 < status res) ->
  exists w',
    loadModule args w
      = (w', Rejected match text res with
                      | Resolved text =>
                          new_Error (String_of_Z (status res) +:+ ": " +:+ text)
                      | Rejected broken => broken
                      end)
    /\ trace w' = trace w ++ [ReadFile file; Fetch url]
    /\ files w' = files w
    /\ wasmModuleCache w' = wasmModuleCache w.
Proof.
  intros Hmiss Hdisk Hfetch Hbad.
  assert (ok res = false) as Hok' by (unfold ok; lia). unfold url, file, m in *.
  rewrite (loadModule_miss _ _ Hmiss). cbn zeta. rewrite Hdisk, loadTransaction_run.
  cbn zeta. rewrite Hfetch, Hok'.
  destruct (text res); eexists; (split; [reflexivity|]); cbn; rewrite <- !app_assoc;
    now cbn.
Qed.

(** a miss, nothing usable on disk, the gateway answers 2xx without a
    body: the load fails before anything is written or compiled *)
Lemma loadModule_gateway_no_body (err : value) (res : Response) :
  LRUCache.peek m (wasmModuleCache w) = None ->
  storedBinary m w = Rejected err ->
  fetch url = Resolved res ->
  200 <= status res <= 299 ->
  body res = None ->
  exists w',
    loadModule args w = (w', Rejected no_body)
    /\ trace w' = trace w ++ [ReadFile file; Fetch url]
    /\ files w' = files w
    /\ wasmModuleCache w' = wasmModuleCache w.
Proof.
  intros Hmiss Hdisk Hfetch Hok Hbody.
  assert (ok res = true) as Hok' by (unfold ok; lia). unfold url, file, m in *.
  rewrite (loadModule_miss _ _ Hmiss). cbn zeta. rewrite Hdisk, loadTransaction_run.
  cbn zeta. rewrite Hfetch, Hok', Hbody.
  eexists. split; [reflexivity|]. cbn. rewrite <- !app_assoc. now cbn.
Qed.

(** C7. Module loading tries its sources in order.  A hit in the
    compiled-module cache answers alone.  On a miss the gzip file on disk is
    read, gunzipped and compiled, and the module is put in the cache, where
    it is found afterwards.  When that fails,
    [GET <GATEWAY_URL>/raw/<moduleId>] is fetched: on a 2xx answer the body
    goes both to the gzip file and to the compiler and the module is put in
    the cache, where it is found afterwards; on any other status the load
    fails with the status and the text of the answer, and neither the file
    nor the cache is touched. *)
Theorem loadModule_sources_in_order :
  (forall wasm,
      LRUCache.peek m (wasmModuleCache w) = Some wasm ->
      exists w',
        loadModule args w = (w', Resolved wasm)
        /\ trace w' = trace w /\ files w' = files w
        /\ LRUCache.peek m (wasmModuleCache w') = Some wasm)
  /\ (LRUCache.peek m (wasmModuleCache w) = None ->
      (forall wasm,
          storedBinary m w = Resolved wasm ->
          exists w',
            loadModule args w = (w', Resolved wasm)
            /\ trace w' = trace w ++ [ReadFile file]
            /\ files w' = files w
            /\ wasmModuleCache w' = LRUCache.set m wasm (wasmModuleCache w)
            /\ ((0 < LRUCache.max (wasmModuleCache w))%nat ->
                LRUCache.peek m (wasmModuleCache w') = Some wasm))
      /\ (forall err res,
             storedBinary m w = Rejected err ->
             fetch url = Resolved res ->
             (200 <= status res <= 299 ->
              forall bytes wasm,
                body res = Some (Resolved bytes) ->
                compile bytes = Resolved wasm ->
                exists w',
                  loadModule args w = (w', Resolved wasm)
                  /\ trace w' = trace w ++ [ReadFile file; Fetch url; WriteFile file]
                  /\ files w' = after_write file (Resolved bytes) (files w)
                  /\ (writable file = true ->
                      files w' = <[file := gzip bytes]> (files w))
                  /\ wasmModuleCache w' = LRUCache.set m wasm (wasmModuleCache w)
                  /\ ((0 < LRUCache.max (wasmModuleCache w))%nat ->
                      LRUCache.peek m (wasmModuleCache w') = Some wasm))
             /\ (status res < 200 \/ 299 < status res ->
                 exists w',
                   loadModule args w
                     = (w', Rejected match text res with
                                     | Resolved text =>
                                         new_Error (String_of_Z (status res) +:+ ": "
                                                      +:+ text)
                                     | Rejected broken => broken
                                     end)
                   /\ trace w' = trace w ++ [ReadFile file; Fetch url]
                   /\ files w' = files w
                   /\ wasmModuleCache w' = wasmModuleCache w))).
Proof.
  split; [exact loadModule_cached|].
  intros Hmiss. split.
  - intros wasm Hdisk.
    destruct (loadModule_stored wasm Hmiss Hdisk) as (w' & Hload & Htrace & Hfiles & Hcache).
    exists w'. repeat (split; [assumption|]).
    intros Hmax. rewrite Hcache. now apply peek_set.
  - intros err res Hdisk Hfetch. split.
    + intros Hok bytes wasm Hbody Hcompile.
      destruct (loadModule_fetched err res (Resolved bytes) wasm
                  Hmiss Hdisk Hfetch Hok Hbody Hcompile)
        as (w' & Hload & Htrace & Hfiles & Hcache).
      exists w'. repeat (split; [assumption|]). split; [|split; [assumption|]].
      * intros Hwritable. rewrite Hfiles. cbn. now rewrite Hwritable.
      * intros Hmax. rewrite Hcache. now apply peek_set.
    + intros Hbad. now apply (loadModule_gateway_error err res).
Qed.

End LoadModule.

Lemma loadModule_sources_witness :
  (let env := Scenario.workerEnv 200 ["w"%byte] Scenario.throwing in
   exists w',
     loadModule Scenario.args0 Scenario.emptyWorld = (w', Resolved ["w"%byte])
     /\ trace w' = [ReadFile "/wasm/mod-1.wasm.gz"; Fetch "https://gateway/raw/mod-1";
                    WriteFile "/wasm/mod-1.wasm.gz"]
     /\ files w' = {["/wasm/mod-1.wasm.gz" := ["w"%byte]]}
     /\ LRUCache.peek "mod-1" (wasmModuleCache w') = Some ["w"%byte])
  /\ (let env := Scenario.workerEnv 404 ["n"%byte; "o"%byte] Scenario.throwing in
      exists w',
        loadModule Scenario.args0 Scenario.emptyWorld
          = (w', Rejected (new_Error "404: no"))
        /\ files w' = ∅).
Proof.
  split; intros env.
  - destruct (loadModule_sources_in_order Scenario.args0 Scenario.emptyWorld)
      as [_ Hmiss].
    destruct (Hmiss eq_refl) as [_ Hgateway].
    destruct (Hgateway _ (mkResponse 200 (Some (Resolved ["w"%byte]))) eq_refl eq_refl)
      as [Hok _].
    destruct (Hok ltac:(cbn; lia) ["w"%byte] ["w"%byte] eq_refl eq_refl)
      as (w' & Hload & Htrace & _ & Hfiles & _ & Hpeek).
    exists w'. split; [exact Hload|]. split; [exact Htrace|].
    split; [rewrite (Hfiles eq_refl); reflexivity|].
    apply Hpeek. cbn. lia.
  - destruct (loadModule_sources_in_order Scenario.args0 Scenario.emptyWorld)
      as [_ Hmiss].
    destruct (Hmiss eq_refl) as [_ Hgateway].
    destruct (Hgateway _ (mkResponse 404 (Some (Resolved ["n"%byte; "o"%byte])))
                eq_refl eq_refl) as [_ Hbad].
    destruct (Hbad ltac:(cbn; lia)) as (w' & Hload & _ & Hfiles & _).
    exists w'. split; [exact Hload|]. exact Hfiles.
Defined.

(** An instance cached for the stream is reused: nothing is loaded. *)
Lemma acquire_cached `{Env} (args : Args) (w : World) (wasmInstance : WasmInstance) :
  LRUCache.peek (streamId args) (wasmInstanceCache w) = Some wasmInstance ->
  exists w',
    acquire args w = (w', Resolved wasmInstance)
    /\ trace w' = trace w /\ files w' = files w
    /\ wasmModuleCache w' = wasmModuleCache w.
Proof.
  intros Hhit.
  unfold acquire, maybeCachedInstance, bichain, chain, wasmInstanceCache_get, resolved.
  rewrite (get_hit _ _ _ Hhit). eexists. split; [reflexivity|]. now cbn.
Qed.

(** Evaluating twice on one stream: the second call finds the instance and
    does no input or output. *)
Example evaluate_reuses_instance :
  let env := Scenario.workerEnv 200 ["w"%byte] Scenario.counting in
  let w1 := fst (evaluate Scenario.args0 Scenario.emptyWorld) in
  let '(w2, r) := evaluate Scenario.args0 w1 in
  trace w2 = trace w1
  /\ length (trace w1) = 3%nat
  /\ r = Resolved (mkOutput (VNum (Int 1)) VUndefined (VArr []) (VArr [])
                            (VStr "1") VUndefined).
Proof. cbn. repeat split. Qed.

(** Loaded once from the gateway, the module is served from the cache the
    second time: the trace does not grow. *)
Example loadModule_twice :
  let env := Scenario.workerEnv 200 ["w"%byte] Scenario.throwing in
  let w1 := fst (loadModule Scenario.args0 Scenario.emptyWorld) in
  let '(w2, r) := loadModule Scenario.args0 w1 in
  r = Resolved ["w"%byte] /\ trace w2 = trace w1 /\ length (trace w1) = 3%nat.
Proof. cbn. repeat split. Qed.

End WorkerFacts.

(** ** The memory checkpointer and the limit predicates *)

Module WasmFacts.

Import Wasm.

(** The test vectors of FIPS 180-4 for the hash function. *)
Example sha256_abc :
  Text.hex (Sha256.sha256 (Text.bytes "abc"))
  = "ba7816bf8f01cfea414140de5dae2223b00361a396177a9cb410ff61f20015ad".
Proof. vm_compute. reflexivity. Qed.

Example sha256_empty :
  Text.hex (Sha256.sha256 [])
  = "e3b0c44298fc1c149afbf4c8996fb92427ae41e4649b934ca495991b7852b855".
Proof. vm_compute. reflexivity. Qed.

Example sha256_two_blocks :
  Text.hex (Sha256.sha256
              (Text.bytes "abcdbcdecdefdefgefghfghighijhijkijkljklmklmnlmnomnopnopq"))
  = "248d6a61d20638b8e5c026930c3e6039a33ce45964ff2167f6ecedd419db06c1".
Proof. vm_compute. reflexivity. Qed.

(** Feeding the hasher chunk by chunk feeds it the concatenation. *)
Lemma fed_fold_update (cs : list (list byte)) (h : Hash) :
  fed (fold_left update cs h) = fed h ++ concat cs.
Proof.
  revert h. induction cs as [|c cs IH]; intros h; cbn.
  - now rewrite app_nil_r.
  - rewrite IH. cbn. now rewrite <- app_assoc.
Qed.

Lemma pipelineP_ok (source : Readable) (transform : Readable -> Readable) :
  failure (transform source) = None ->
  pipelineP source transform createHash
  = Resolved (mkHash (concat (chunks (transform source)))).
Proof.
  intros Hok. unfold pipelineP. rewrite Hok. f_equal.
  pose proof (fed_fold_update (chunks (transform source)) createHash) as Hfed.
  destruct (fold_left _ _ _) as [bytes]. cbn in Hfed. now subst.
Qed.

(** C9. [hashWasmMemory] fails for every encoding that is given (truthy)
    and is not ['gzip'].  With ['gzip'] the stream is gunzipped, without an
    encoding (any falsy value) it passes through unchanged; either way the
    chunks are written one after the other to a SHA-256 hasher, and the hex
    digest is the result once the stream has ended. *)
Theorem hashWasmMemory_encodings `{Zlib} (memoryStream : Readable) (encoding : value) :
  (truthy encoding = true -> is_gzip encoding = false ->
   hashWasmMemory memoryStream encoding
   = Rejected (new_Error
       "Only GZIP encoding of Memory is supported for Process Checkpoints"))
  /\ (is_gzip encoding = true ->
      failure memoryStream = None ->
      forall inflated,
        gunzip (concat (chunks memoryStream)) = Resolved inflated ->
        hashWasmMemory memoryStream encoding
        = Resolved (Text.hex (Sha256.sha256 inflated)))
  /\ (truthy encoding = false ->
      failure memoryStream = None ->
      hashWasmMemory memoryStream encoding
      = Resolved (digest_hex (fold_left update (chunks memoryStream) createHash))
      /\ hashWasmMemory memoryStream encoding
         = Resolved (Text.hex (Sha256.sha256 (concat (chunks memoryStream))))).
Proof.
  assert (is_gzip encoding = true -> truthy encoding = true) as Hgz_truthy.
  { destruct encoding as [| | | | s | | | |]; try discriminate. now destruct s. }
  assert (truthy encoding = false -> is_gzip encoding = false) as Hfalsy_gz.
  { destruct (is_gzip encoding); [|reflexivity]. intros Hf. now rewrite Hgz_truthy in Hf. }
  unfold hashWasmMemory. split; [|split].
  - now intros -> ->.
  - intros Hgz Hok inflated Hinf.
    rewrite (Hgz_truthy Hgz), Hgz. cbn [negb andb].
    rewrite pipelineP_ok; unfold createGunzip; rewrite Hok, Hinf; [|reflexivity].
    cbn. now rewrite app_nil_r.
  - intros Hfalsy Hok. rewrite Hfalsy, (Hfalsy_gz Hfalsy). cbn [andb]. split.
    + unfold pipelineP, PassThrough. now rewrite Hok.
    + now rewrite pipelineP_ok by exact Hok.
Qed.

Lemma hashWasmMemory_encodings_witness :
  let zlib := Scenario.identityZlib in
  let stream := mkReadable [Text.bytes "a"; Text.bytes "bc"] None in
  hashWasmMemory stream (VStr "brotli")
  = Rejected (new_Error
      "Only GZIP encoding of Memory is supported for Process Checkpoints")
  /\ hashWasmMemory stream (VStr "gzip")
     = Resolved "ba7816bf8f01cfea414140de5dae2223b00361a396177a9cb410ff61f20015ad"
  /\ hashWasmMemory stream VUndefined
     = Resolved "ba7816bf8f01cfea414140de5dae2223b00361a396177a9cb410ff61f20015ad".
Proof.
  intros zlib stream.
  destruct (hashWasmMemory_encodings stream (VStr "brotli")) as (Hbad & _ & _).
  destruct (hashWasmMemory_encodings stream (VStr "gzip")) as (_ & Hgz & _).
  destruct (hashWasmMemory_encodings stream VUndefined) as (_ & _ & Hnone).
  split; [now apply Hbad|]. split.
  - rewrite (Hgz eq_refl eq_refl (Text.bytes "abc") eq_refl).
    exact (f_equal Resolved sha256_abc).
  - destruct (Hnone eq_refl eq_refl) as [_ ->].
    exact (f_equal Resolved sha256_abc).
Defined.

(** The string ['none'] is an encoding that is given and is not ['gzip']. *)
Example hashWasmMemory_none_string `{Zlib} (memoryStream : Readable) :
  exists err, hashWasmMemory memoryStream (VStr "none") = Rejected err.
Proof. eexists. reflexivity. Qed.

(** C10. The limit predicates are strict: each answers [true] exactly when
    the limit is greater than the configured maximum, so a limit equal to
    the maximum does not exceed it. *)
Theorem limits_are_strict (MAX limit : Z) :
  (doesExceedModuleMaxMemoryWith MAX limit = Resolved true <-> limit > MAX)
  /\ (doesExceedModuleMaxComputeWith MAX limit = Resolved true <-> limit > MAX)
  /\ doesExceedModuleMaxMemoryWith MAX MAX = Resolved false
  /\ doesExceedModuleMaxComputeWith MAX MAX = Resolved false.
Proof.
  unfold doesExceedModuleMaxMemoryWith, doesExceedModuleMaxComputeWith.
  rewrite !Z.gtb_ltb, Z.ltb_irrefl.
  assert (forall b : bool, @Resolved value bool b = Resolved true <-> b = true) as Hinj
      by (intros b; split; [now intros [= ->] | now intros ->]).
  rewrite !Hinj, Z.ltb_lt. repeat split; lia.
Qed.

End WasmFacts.

(** ** The evaluator *)

Module EvaluatorFacts.

Import Evaluator.

Section Run.
Context `{env : Env}.
Variable ctx : Context.

(** *** One message *)

Lemma invokeAndFold_run (m : Message) (st : State) :
  invokeAndFold ctx m st
  = let output := outputOf ctx m (Worker.Memory (result st)) in
    (mkState (stats st) output (evaledCrons st) (last st) (db st)
             (saved st) (hashLookups st) (invoked st ++ [(m, output)]) (checkpoints st),
     Resolved output).
Proof.
  unfold invokeAndFold. rewrite WorkerFacts.invoke_resolves. reflexivity.
Qed.

(** a message whose deep hash is found is skipped *)
Lemma skip_found (m : Message) (st : State) (h : string) (record : value) :
  deepHash m = Some h ->
  snd (findMessageHashBefore h (id ctx) (from ctx) (db st)) = Some record ->
  exists st',
    evaluateMessage ctx m st = (st', Resolved tt)
    /\ untouched st st'
    /\ hashLookups st' = hashLookups st ++ [h].
Proof.
  intros Hh Hfound.
  unfold evaluateMessage, chain, bumpStat, effect, alreadyEvaluated, with_stats.
  rewrite Hh. cbn.
  destruct (findMessageHashBefore h (id ctx) (from ctx) (db st)) as [db' found].
  cbn in Hfound. subst found. cbn.
  eexists. split; [reflexivity|]. now cbn.
Qed.

(** a cron message whose key was seen is skipped *)
Lemma skip_seen (m : Message) (st : State) (c : string) :
  cron m = Some c ->
  cronKey m c ∈ evaledCrons st ->
  exists st', evaluateMessage ctx m st = (st', Resolved tt) /\ untouched st st'.
Proof.
  intros Hc Hseen.
  unfold evaluateMessage, chain, bumpStat, effect, alreadyEvaluated, with_stats, resolved.
  destruct (deepHash m) as [h|]; cbn.
  - destruct (findMessageHashBefore h (id ctx) (from ctx) (db st)) as [db' found].
    cbn. destruct (bool_decide (is_Some found)).
    + eexists. split; [reflexivity|]. now cbn.
    + unfold seenCron. rewrite Hc. cbn. rewrite bool_decide_eq_true_2 by exact Hseen.
      eexists. split; [reflexivity|]. now cbn.
  - unfold seenCron. rewrite Hc. cbn. rewrite bool_decide_eq_true_2 by exact Hseen.
    eexists. split; [reflexivity|]. now cbn.
Qed.

(** What steps 3 to 8 add to the two logs. *)
Lemma evaluateFresh_logs (m : Message) (st st' : State) (r : Promise unit) :
  evaluateFresh ctx m st = (st', r) ->
  exists output,
    output = outputOf ctx m (Worker.Memory (result st))
    /\ invoked st' = invoked st ++ [(m, output)]
    /\ saved st' = saved st ++ persisted ctx [(m, output)]
    /\ evaledCrons st' = evaledCrons st.
Proof.
  unfold evaluateFresh, chain. rewrite invokeAndFold_run. cbn zeta.
  remember (outputOf ctx m (Worker.Memory (result st))) as output eqn:Hout.
  unfold settle, chain, countError, persist, persisted, mustPersist, advance, effect,
    with_stats, resolved.
  cbn [fst snd List.filter List.map].
  rewrite (andb_comm (negb (noSave m))).
  destruct (truthy (Worker.Error output)) eqn:Herr; cbn.
  - intros [= <- <-]. exists output. rewrite Herr. cbn. now rewrite app_nil_r.
  - destruct (noSave m) eqn:HnoSave; cbn.
    + intros [= <- <-]. exists output. rewrite Herr. cbn. now rewrite app_nil_r.
    + destruct (saveEvaluation _ _) as [db' [err | []]]; cbn;
        intros [= <- <-]; exists output; rewrite Herr; now cbn.
Qed.

(** What a turn of the loop adds to the two logs and to the cron keys:
    nothing, or one invocation, persisted when it must be. *)
Lemma evaluateMessage_logs (m : Message) (st st' : State) (r : Promise unit) :
  evaluateMessage ctx m st = (st', r) ->
  (invoked st' = invoked st /\ saved st' = saved st
   /\ evaledCrons st' = evaledCrons st)
  \/ (exists output,
         invoked st' = invoked st ++ [(m, output)]
         /\ saved st' = saved st ++ persisted ctx [(m, output)]
         /\ match cron m with
            | Some c => (cronKey m c ∉ evaledCrons st)
                        /\ evaledCrons st' = {[cronKey m c]} ∪ evaledCrons st
            | None => evaledCrons st' = evaledCrons st
            end).
Proof.
  unfold evaluateMessage, chain, bumpStat, effect.
  set (st0 := with_stats _ st).
  assert (invoked st0 = invoked st /\ saved st0 = saved st
          /\ evaledCrons st0 = evaledCrons st /\ db st0 = db st) as (Hi0 & Hs0 & Hc0 & Hd0)
      by now cbn.
  clearbody st0.
  destruct (alreadyEvaluated ctx m st0) as [st1 [err | found]] eqn:Hhash.
  - unfold alreadyEvaluated, resolved in Hhash.
    destruct (deepHash m); [destruct (findMessageHashBefore _ _ _ _)|]; discriminate.
  - assert (invoked st1 = invoked st /\ saved st1 = saved st
            /\ evaledCrons st1 = evaledCrons st) as (Hi1 & Hs1 & Hc1).
    { unfold alreadyEvaluated, resolved in Hhash.
      destruct (deepHash m); [destruct (findMessageHashBefore _ _ _ _)|];
        injection Hhash as <- _; now cbn. }
    destruct found.
    + intros [= <- <-]. now left.
    + destruct (seenCron m st1) as [st2 [err | duplicate]] eqn:Hcron.
      * unfold seenCron, resolved in Hcron.
        destruct (cron m); [destruct (bool_decide _)|]; discriminate.
      * unfold seenCron, resolved in Hcron.
        destruct (cron m) as [c|].
        -- destruct (bool_decide (cronKey m c ∈ evaledCrons st1)) eqn:Hseen;
             injection Hcron as <- <-.
           ++ intros [= <- <-]. now left.
           ++ intros Hrun. apply evaluateFresh_logs in Hrun as (output & _ & Hi & Hs & Hc).
              cbn in Hi, Hs, Hc. right. exists output.
              rewrite Hi, Hs, Hc, Hi1, Hs1, Hc1. repeat split.
              apply bool_decide_eq_false in Hseen. now rewrite <- Hc1.
        -- injection Hcron as <- <-.
           intros Hrun. apply evaluateFresh_logs in Hrun as (output & _ & Hi & Hs & Hc).
           right. exists output. now rewrite Hi, Hs, Hc, Hi1, Hs1, Hc1.
Qed.

(** *** A whole run *)

Lemma persisted_app (log1 log2 : list (Message * Worker.EvaluationOutput)) :
  persisted ctx (log1 ++ log2) = persisted ctx log1 ++ persisted ctx log2.
Proof. unfold persisted. now rewrite List.filter_app, List.map_app. Qed.

Lemma cronKeys_app (log1 log2 : list (Message * Worker.EvaluationOutput)) :
  cronKeys (log1 ++ log2) = cronKeys log1 ++ cronKeys log2.
Proof. unfold cronKeys. apply flat_map_app. Qed.

Lemma evaluateMessage_extends (m : Message) (st st' : State) (r : Promise unit) :
  evaluateMessage ctx m st = (st', r) ->
  exists new, extends ctx st st' new /\ (new = [] \/ exists output, new = [(m, output)]).
Proof.
  intros Hrun. apply evaluateMessage_logs in Hrun as [(Hi & Hs & Hc) | (output & Hi & Hs & Hc)].
  - exists []. split; [|now left]. unfold extends. cbn.
    rewrite Hi, Hs, Hc, !app_nil_r. repeat split; [constructor | | done].
    intros k Hk. now apply elem_of_nil in Hk.
  - exists [(m, output)]. split; [|right; now exists output].
    unfold extends, cronKeys. cbn. rewrite Hi, Hs.
    destruct (cron m) as [c|]; cbn.
    + destruct Hc as [Hfresh ->]. repeat split.
      * apply NoDup_singleton.
      * intros k Hk. apply list_elem_of_singleton in Hk. now subst.
      * set_solver.
    + rewrite Hc. repeat split; [constructor | | done].
      intros k Hk. now apply elem_of_nil in Hk.
Qed.

Lemma extends_trans (st0 st1 st2 : State) (new1 new2 : list (Message * Worker.EvaluationOutput)) :
  extends ctx st0 st1 new1 ->
  extends ctx st1 st2 new2 ->
  (forall k, k ∈ cronKeys new1 -> k ∈ evaledCrons st1) ->
  extends ctx st0 st2 (new1 ++ new2).
Proof.
  intros (Hi1 & Hs1 & Hn1 & Hf1 & Hsub1) (Hi2 & Hs2 & Hn2 & Hf2 & Hsub2) Hseen.
  unfold extends. rewrite Hi2, Hi1, Hs2, Hs1, persisted_app, cronKeys_app, <- !app_assoc.
  repeat split.
  - apply NoDup_app. repeat split; [exact Hn1 | | exact Hn2].
    intros k Hk1 Hk2. exact (Hf2 k Hk2 (Hseen k Hk1)).
  - intros k Hk. apply elem_of_app in Hk as [Hk | Hk]; [now apply Hf1|].
    intros Hin. apply (Hf2 k Hk). now apply Hsub1.
  - set_solver.
Qed.

Lemma evaluateMessage_seen (m : Message) (st st' : State) (r : Promise unit)
    (new : list (Message * Worker.EvaluationOutput)) :
  evaluateMessage ctx m st = (st', r) ->
  invoked st' = invoked st ++ new ->
  forall k, k ∈ cronKeys new -> k ∈ evaledCrons st'.
Proof.
  intros Hrun Hnew k Hk.
  apply evaluateMessage_logs in Hrun as [(Hi & _) | (output & Hi & _ & Hc)];
    rewrite Hi in Hnew.
  - rewrite <- (app_nil_r (invoked st)) in Hnew at 1.
    apply app_inv_head in Hnew. subst new. now apply elem_of_nil in Hk.
  - apply app_inv_head in Hnew. subst new. unfold cronKeys in Hk. cbn in Hk.
    destruct (cron m) as [c|]; cbn in Hk; [|now apply elem_of_nil in Hk].
    apply list_elem_of_singleton in Hk. subst k. destruct Hc as [_ ->]. set_solver.
Qed.

Lemma evaluateAll_extends (messages : list Message) (st st' : State) (r : Promise unit) :
  evaluateAll ctx messages st = (st', r) ->
  exists new, extends ctx st st' new /\ sublist (List.map fst new) messages.
Proof.
  revert st. induction messages as [|m rest IH]; intros st; cbn.
  - intros [= <- <-]. exists []. split; [|constructor].
    unfold extends. cbn. rewrite !app_nil_r. repeat split; [constructor | | done].
    intros k Hk. now apply elem_of_nil in Hk.
  - unfold chain. destruct (evaluateMessage ctx m st) as [st1 [err | []]] eqn:Hm.
    + intros [= <- <-]. apply evaluateMessage_extends in Hm as (new & Hext & Hnew).
      exists new. split; [exact Hext|].
      destruct Hnew as [-> | [output ->]]; cbn.
      * apply sublist_nil_l.
      * apply sublist_skip, sublist_nil_l.
    + intros Hrest. apply IH in Hrest as (new2 & Hext2 & Hsub2).
      pose proof Hm as Hm'. apply evaluateMessage_extends in Hm' as (new1 & Hext1 & Hnew1).
      exists (new1 ++ new2). split.
      * apply (extends_trans st st1 st' new1 new2 Hext1 Hext2).
        apply (evaluateMessage_seen m st st1 _ new1 Hm). apply Hext1.
      * rewrite List.map_app. destruct Hnew1 as [-> | [output ->]]; cbn.
        -- now apply sublist_cons.
        -- now apply sublist_skip.
Qed.

Lemma evaluate_extends (messages : list Message) (st st' : State)
    (r : Promise (Worker.EvaluationOutput * option Cursor.t)) :
  evaluate ctx messages st = (st', r) ->
  exists new, extends ctx st st' new /\ sublist (List.map fst new) messages.
Proof.
  unfold evaluate, toPromise, chain.
  destruct (evaluateAll ctx messages st) as [st1 [err | []]] eqn:Hall.
  - intros [= <- <-]. now apply evaluateAll_extends in Hall.
  - apply evaluateAll_extends in Hall as (new & (Hi & Hs & Hn & Hf & Hsub) & Hmsgs).
    unfold checkpoint. destruct (saveLatestProcessMemory _ _ _ _) as [db' [err | []]];
      intros [= <- <-]; exists new; (split; [|exact Hmsgs]); unfold extends; now cbn.
Qed.

(** *** Runs in which nothing is skipped and nothing fails *)

Lemma evaluateFresh_plain (m : Message) (st : State) :
  (forall Memory, truthy (Worker.Error (outputOf ctx m Memory)) = false) ->
  (forall evaluation store, snd (saveEvaluation evaluation store) = Resolved tt) ->
  exists st',
    evaluateFresh ctx m st = (st', Resolved tt)
    /\ length (saved st') = (length (saved st) + (if noSave m then 0 else 1))%nat
    /\ length (invoked st') = S (length (invoked st)).
Proof.
  intros Hno Hsave. unfold evaluateFresh, chain. rewrite invokeAndFold_run. cbn zeta.
  pose proof (Hno (Worker.Memory (result st))) as Herr.
  remember (outputOf ctx m (Worker.Memory (result st))) as output eqn:Hout.
  unfold settle, chain, countError, persist, advance, effect, resolved.
  rewrite Herr. cbn. destruct (noSave m); cbn.
  - eexists. split; [reflexivity|]. cbn. rewrite length_app. cbn. lia.
  - specialize (Hsave (evaluationOf ctx m output) (db st)).
    destruct (saveEvaluation _ _) as [db' r]. cbn in Hsave. subst r.
    eexists. split; [reflexivity|]. cbn. rewrite !length_app. cbn. lia.
Qed.

Lemma evaluateMessage_plain (m : Message) (st : State) :
  plain m ->
  (forall Memory, truthy (Worker.Error (outputOf ctx m Memory)) = false) ->
  (forall evaluation store, snd (saveEvaluation evaluation store) = Resolved tt) ->
  exists st',
    evaluateMessage ctx m st = (st', Resolved tt)
    /\ length (saved st') = (length (saved st) + (if noSave m then 0 else 1))%nat
    /\ length (invoked st') = S (length (invoked st)).
Proof.
  intros [Hh Hc] Hno Hsave.
  unfold evaluateMessage, chain, bumpStat, effect, alreadyEvaluated, seenCron, resolved.
  rewrite Hh, Hc.
  exact (evaluateFresh_plain m _ Hno Hsave).
Qed.

Lemma evaluateAll_plain (messages : list Message) (st : State) :
  Forall plain messages ->
  (forall m Memory, truthy (Worker.Error (outputOf ctx m Memory)) = false) ->
  (forall evaluation store, snd (saveEvaluation evaluation store) = Resolved tt) ->
  exists st',
    evaluateAll ctx messages st = (st', Resolved tt)
    /\ length (saved st')
       = (length (saved st) + length (List.filter (fun m => negb (noSave m)) messages))%nat
    /\ length (invoked st') = (length (invoked st) + length messages)%nat.
Proof.
  intros Hplain Hno Hsave. revert st.
  induction Hplain as [|m rest Hm _ IH]; intros st; cbn.
  - exists st. repeat split; lia.
  - destruct (evaluateMessage_plain m st Hm (Hno m) Hsave) as (st1 & Hrun & Hs1 & Hi1).
    destruct (IH st1) as (st' & Hrest & Hs' & Hi').
    exists st'. unfold chain. rewrite Hrun. split; [exact Hrest|].
    rewrite Hs', Hs1, Hi', Hi1. destruct (noSave m); cbn; lia.
Qed.

(** C2. In a run of the evaluator, the evaluations handed to
    [saveEvaluation] are those of the messages that were invoked, did not
    produce an [Error] and do not carry [noSave], in order: a message is
    persisted iff both hold, and nothing that is persisted has an [Error].
    In particular three messages of which the first is marked [noSave],
    none skipped and none failing, give exactly two calls. *)
Theorem saveEvaluation_iff_no_Error_and_no_noSave :
  (forall messages st st' r,
      evaluate ctx messages st = (st', r) ->
      exists new,
        invoked st' = invoked st ++ new
        /\ saved st' = saved st ++ persisted ctx new
        /\ (forall m output,
               (m, output) ∈ new ->
               (evaluationOf ctx m output ∈ persisted ctx new
                <-> truthy (Worker.Error output) = false /\ noSave m = false))
        /\ (forall evaluation,
               evaluation ∈ persisted ctx new ->
               truthy (Worker.Error (Evaluation.output evaluation)) = false
               /\ noSave (Evaluation.message evaluation) = false))
  /\ (forall m1 m2 m3 Memory store,
         noSave m1 = true -> noSave m2 = false -> noSave m3 = false ->
         plain m1 -> plain m2 -> plain m3 ->
         (forall m Memory, truthy (Worker.Error (outputOf ctx m Memory)) = false) ->
         (forall evaluation store, snd (saveEvaluation evaluation store) = Resolved tt) ->
         exists st' r,
           evaluate ctx [m1; m2; m3] (start Memory store) = (st', r)
           /\ length (saved st') = 2%nat
           /\ length (invoked st') = 3%nat).
Proof.
  split.
  - intros messages st st' r Hrun.
    apply evaluate_extends in Hrun as (new & (Hi & Hs & _) & _).
    exists new. split; [exact Hi|]. split; [exact Hs|].
    assert (forall evaluation,
               evaluation ∈ persisted ctx new <->
               exists entry, entry ∈ new /\ mustPersist entry = true
                             /\ evaluation = evaluationOf ctx (fst entry) (snd entry))
      as Hpersisted.
    { intros evaluation. unfold persisted.
      rewrite list_elem_of_In, List.in_map_iff. split.
      - intros (entry & <- & Hin). apply List.filter_In in Hin as [Hin Hp].
        exists entry. now rewrite list_elem_of_In.
      - intros (entry & Hin & Hp & ->). exists entry. split; [reflexivity|].
        apply List.filter_In. now rewrite <- list_elem_of_In. }
    split.
    + intros m output Hin. rewrite Hpersisted. split.
      * intros ([m' output'] & _ & Hp & Heq).
        pose proof (f_equal Evaluation.message Heq) as Hm.
        pose proof (f_equal Evaluation.output Heq) as Ho.
        cbn in Hm, Ho. subst m' output'.
        unfold mustPersist in Hp. cbn in Hp.
        apply andb_true_iff in Hp as [H1 H2].
        now apply negb_true_iff in H1, H2.
      * intros [Herr HnoSave]. exists (m, output). split; [exact Hin|].
        unfold mustPersist. cbn. now rewrite Herr, HnoSave.
    + intros evaluation Hin. apply Hpersisted in Hin as ([m output] & _ & Hp & ->).
      unfold mustPersist in Hp. cbn in Hp |- *.
      apply andb_true_iff in Hp as [H1 H2].
      now apply negb_true_iff in H1, H2.
  - intros m1 m2 m3 Memory store H1 H2 H3 Hp1 Hp2 Hp3 Hno Hsave.
    destruct (evaluateAll_plain [m1; m2; m3] (start Memory store)) as (st1 & Hrun & Hs & Hi);
      [repeat (constructor; [assumption|]); constructor | exact Hno | exact Hsave |].
    cbn in Hs, Hi. rewrite H1, H2, H3 in Hs. cbn in Hs.
    unfold evaluate, toPromise, chain. rewrite Hrun. unfold checkpoint.
    destruct (saveLatestProcessMemory _ _ _ _) as [db' [err | []]];
      eexists; eexists; (split; [reflexivity|]); now cbn.
Qed.

(** C3. A message whose deep hash [findMessageHashBefore] finds is skipped:
    it is not invoked and the folded result, the persisted evaluations, the
    cursor and the cron keys stay as they were.  A cron message whose key was
    seen in this run is skipped in the same way.  So, in a run, the cron
    messages that are invoked have pairwise different keys, none of them seen
    before, and a cron message that is not skipped on its hash and whose key
    is new is invoked, which marks its key as seen. *)
Theorem duplicates_are_skipped :
  (forall m st h record,
      deepHash m = Some h ->
      snd (findMessageHashBefore h (id ctx) (from ctx) (db st)) = Some record ->
      exists st', evaluateMessage ctx m st = (st', Resolved tt) /\ untouched st st')
  /\ (forall m st c,
         cron m = Some c ->
         cronKey m c ∈ evaledCrons st ->
         exists st', evaluateMessage ctx m st = (st', Resolved tt) /\ untouched st st')
  /\ (forall messages st st' r,
         evaluate ctx messages st = (st', r) ->
         exists new,
           invoked st' = invoked st ++ new
           /\ sublist (List.map fst new) messages
           /\ NoDup (cronKeys new)
           /\ (forall k, k ∈ cronKeys new -> k ∉ evaledCrons st))
  /\ (forall m st st' r c,
         cron m = Some c ->
         deepHash m = None ->
         (cronKey m c ∉ evaledCrons st) ->
         evaluateMessage ctx m st = (st', r) ->
         invoked st' = invoked st ++ [(m, outputOf ctx m (Worker.Memory (result st)))]
         /\ cronKey m c ∈ evaledCrons st').
Proof.
  split; [|split; [|split]].
  - intros m st h record Hh Hfound.
    destruct (skip_found m st h record Hh Hfound) as (st' & Hrun & Hun & _).
    now exists st'.
  - intros m st c. apply skip_seen.
  - intros messages st st' r Hrun.
    apply evaluate_extends in Hrun as (new & (Hi & _ & Hn & Hf & _) & Hsub).
    now exists new.
  - intros m st st' r c Hc Hh Hfresh.
    unfold evaluateMessage, chain, bumpStat, effect, alreadyEvaluated, seenCron, resolved.
    rewrite Hh, Hc. cbn. rewrite bool_decide_eq_false_2 by exact Hfresh.
    intros Hrun.
    destruct (evaluateFresh_logs _ _ _ _ Hrun) as (output & Hout & Hi & Hs & Hkeys).
    subst output. cbn in Hi, Hkeys. split; [exact Hi|]. rewrite Hkeys.
    apply elem_of_union_l, elem_of_singleton. reflexivity.
Qed.

End Run.

Lemma saveEvaluation_iff_witness :
  let env := Scenario.evaluatorEnv Scenario.counting in
  exists st' r,
    evaluate Scenario.ctx0 Scenario.saveEachInteraction (start VNull []) = (st', r)
    /\ length (saved st') = 2%nat
    /\ length (invoked st') = 3%nat.
Proof.
  intros env.
  destruct (saveEvaluation_iff_no_Error_and_no_noSave Scenario.ctx0) as [_ Hthree].
  apply (Hthree _ _ _ VNull []); try reflexivity; try (split; reflexivity).
Defined.

Lemma duplicates_are_skipped_witness :
  let env := Scenario.evaluatorEnv Scenario.counting in
  let seen := Scenario.withCron "1-20-minutes" 1702846520600
                (Scenario.scheduled "owner-456" "world" 1236 2) in
  let known := Scenario.withDeepHash "deephash-456"
                 (Scenario.scheduled "owner-456" "world" 1235 1) in
  let st := mkState (Stats.mk 1 1 0) (result (start VNull []))
                    {[("1-20-minutes", 1702846520600, 2)]} None ["deephash-456"]
                    [] [] [] [] in
  (exists st', evaluateMessage Scenario.ctx0 known st = (st', Resolved tt) /\ untouched st st')
  /\ (exists st', evaluateMessage Scenario.ctx0 seen st = (st', Resolved tt) /\ untouched st st').
Proof.
  intros env seen known st.
  destruct (duplicates_are_skipped Scenario.ctx0) as (Hhash & Hcron & _).
  split.
  - apply (Hhash known st "deephash-456" (VStr "deephash-456")); reflexivity.
  - apply (Hcron seen st "1-20-minutes"); [reflexivity|].
    cbn. apply elem_of_singleton. reflexivity.
Defined.

End EvaluatorFacts.

(** *** The streams of [evaluate.test.js], run on the model *)

Module EvaluatorTests.

Import Evaluator.

(** 'save each interaction': [cacheCount] is 2. *)
Example save_each_interaction :
  let env := Scenario.evaluatorEnv Scenario.counting in
  let '(st, r) := evaluate Scenario.ctx0 Scenario.saveEachInteraction (start VNull []) in
  length (saved st) = 2%nat
  /\ option_map Worker.Output (match r with Resolved (o, _) => Some o | _ => None end)
     = Some (VStr "3").
Proof. vm_compute. split; reflexivity. Qed.

(** 'skip over messages that are already evaluated (deepHash)': the hash
    index is consulted twice and [cacheCount] is 2. *)
Example skip_over_deepHash :
  let env := Scenario.missThenHitEnv Scenario.counting in
  let '(st, _) := evaluate Scenario.ctx0 Scenario.skipDeepHash (start VNull 0%nat) in
  length (hashLookups st) = 2%nat /\ length (saved st) = 2%nat.
Proof. vm_compute. split; reflexivity. Qed.

(** 'skip over Cron Messages that are already evaluated': the second
    [1-20-minutes] message is skipped.  The test expects three saved
    evaluations: its first message repeats the starting point of the run
    ([from], [fromCron]), so the run is started with that key as seen. *)
Example skip_over_cron :
  let env := Scenario.evaluatorEnv Scenario.counting in
  let st0 := mkState (Stats.mk 0 0 0) (result (start VNull []))
                     {[("1-10-minutes", 1702846520559, 1)]} None [] [] [] [] [] in
  let '(st, _) := evaluate Scenario.ctx0 Scenario.skipCron st0 in
  length (saved st) = 3%nat
  /\ List.map (fun e => Block_Height (fst e)) (invoked st) = [1235; 1236; 1235].
Proof. vm_compute. split; reflexivity. Qed.

(** 'continue evaluating, ignoring output of errored message': the final
    [Output] is ["2"], the memory the failed message handed back is dropped. *)
Example continue_after_error :
  let env := Scenario.evaluatorEnv Scenario.sad in
  let '(st, r) := evaluate Scenario.ctx0 Scenario.errorThenCounters (start VNull []) in
  option_map Worker.Output (match r with Resolved (o, _) => Some o | _ => None end)
    = Some (VStr "2")
  /\ length (saved st) = 2%nat
  /\ Stats.error (stats st) = 1%nat.
Proof. vm_compute. repeat split; reflexivity. Qed.

End EvaluatorTests.

(** ** The codec *)

Module HbEncodeFacts.

Import HbEncode.

(** *** The order on keys *)

Lemma Ascii_compare_N (a b : ascii) :
  Ascii.compare a b = N.compare (N_of_ascii a) (N_of_ascii b).
Proof. reflexivity. Qed.

Lemma units_compare_antisym (a b : list Z) :
  units_compare b a = CompOpp (units_compare a b).
Proof.
  revert b. induction a as [|x a IH]; intros [|y b]; cbn; try reflexivity.
  rewrite (Z.compare_antisym x y). destruct (x ?= y); cbn; [apply IH | reflexivity ..].
Qed.

Lemma units_compare_trans_le (a b c : list Z) :
  units_compare a b <> Gt -> units_compare b c <> Gt -> units_compare a c <> Gt.
Proof.
  revert b c. induction a as [|x a IH]; intros [|y b] [|z c]; cbn; try congruence.
  destruct (Z.compare_spec x y) as [Hxy | Hxy | Hxy];
    destruct (Z.compare_spec y z) as [Hyz | Hyz | Hyz];
    destruct (Z.compare_spec x z) as [Hxz | Hxz | Hxz];
    try congruence; try lia.
  apply IH.
Qed.

#[local] Instance String_le_trans : Transitive String_le.
Proof. intros s1 s2 s3. apply units_compare_trans_le. Qed.

#[local] Instance String_le_total : Total String_le.
Proof.
  intros s1 s2. unfold String_le.
  rewrite (units_compare_antisym (sort_key s1) (sort_key s2)).
  destruct (units_compare (sort_key s1) (sort_key s2)); cbn;
    [left | left | right]; discriminate.
Qed.

(** On seven-bit text a code unit is a byte, and the order is the
    byte-wise order of strings. *)
Lemma code_points_of_seven_bit (bs : list Z) :
  Forall (fun b => b < 128) bs -> code_points_of bs = bs.
Proof.
  induction 1 as [|b bs Hb _ IH]; [reflexivity|].
  cbn [code_points_of]. destruct (Z.ltb_spec b 128); [now rewrite IH | lia].
Qed.

Lemma seven_bit_bytes (s : string) :
  HbEncodeSpec.seven_bit s = true ->
  Forall (fun b => 0 <= b < 128) (List.map Z_of_ascii (list_ascii_of_string s)).
Proof.
  unfold HbEncodeSpec.seven_bit. intros Hs. apply Forall_forall. intros b Hin.
  apply list_elem_of_In, List.in_map_iff in Hin as (c & <- & Hin).
  rewrite forallb_forall in Hs. specialize (Hs c Hin).
  apply Z.ltb_lt in Hs. split; [apply N2Z.is_nonneg | exact Hs].
Qed.

Lemma code_points_seven_bit (s : string) :
  HbEncodeSpec.seven_bit s = true ->
  code_points s = List.map Z_of_ascii (list_ascii_of_string s).
Proof.
  intros Hs. apply code_points_of_seven_bit.
  eapply Forall_impl; [exact (seven_bit_bytes s Hs)|]. cbn. lia.
Qed.

Lemma code_units_seven_bit (s : string) :
  HbEncodeSpec.seven_bit s = true ->
  code_units s = List.map Z_of_ascii (list_ascii_of_string s).
Proof.
  intros Hs. unfold code_units. rewrite (code_points_seven_bit s Hs).
  pose proof (seven_bit_bytes s Hs) as Hbytes.
  induction Hbytes as [|b bs Hb _ IH]; [reflexivity|].
  cbn [flat_map]. destruct (Z.ltb_spec b 65536); [now rewrite IH | lia].
Qed.

Lemma units_compare_marked (l1 l2 t1 t2 : list Z) :
  Forall (fun x => 0 <= x) l1 -> Forall (fun x => 0 <= x) l2 ->
  units_compare (l1 ++ (-1) :: t1) (l2 ++ (-1) :: t2)
  = match units_compare l1 l2 with
    | Eq => units_compare t1 t2
    | c => c
    end.
Proof.
  intros H1. revert l2.
  induction H1 as [|x l1 Hx _ IH]; intros l2 H2; destruct H2 as [|y l2 Hy H2];
    cbn [app units_compare].
  - reflexivity.
  - destruct (Z.compare_spec (-1) y); [lia | reflexivity | lia].
  - destruct (Z.compare_spec x (-1)); [lia | lia | reflexivity].
  - destruct (x ?= y); [now apply IH | reflexivity ..].
Qed.

Lemma units_compare_String (s1 s2 : string) :
  units_compare (List.map Z_of_ascii (list_ascii_of_string s1))
                (List.map Z_of_ascii (list_ascii_of_string s2))
  = String.compare s1 s2.
Proof.
  revert s2. induction s1 as [|a s1 IH]; intros [|b s2];
    cbn [list_ascii_of_string List.map units_compare String.compare]; try reflexivity.
  unfold Z_of_ascii at 1 2. rewrite N2Z.inj_compare, <- Ascii_compare_N.
  destruct (Ascii.compare a b); [apply IH | reflexivity ..].
Qed.

Lemma String_le_seven_bit (s1 s2 : string) :
  HbEncodeSpec.seven_bit s1 = true -> HbEncodeSpec.seven_bit s2 = true ->
  (String_le s1 s2 <-> String.leb s1 s2 = true).
Proof.
  intros H1 H2. unfold String_le, sort_key.
  rewrite (code_units_seven_bit s1 H1), (code_units_seven_bit s2 H2).
  rewrite units_compare_marked;
    [|eapply Forall_impl; [apply (seven_bit_bytes _ H1) | cbn; lia]
     |eapply Forall_impl; [apply (seven_bit_bytes _ H2) | cbn; lia]].
  rewrite units_compare_String. unfold String.leb.
  destruct (String.compare s1 s2); split; congruence.
Qed.

(** A character outside the basic plane is two surrogates, which sort
    before a character of U+E000 to U+FFFF although its bytes sort after. *)
Example an_astral_key_sorts_first :
  let astral := String "240" (String "159" (String "152" (String "128" ""))) in
  let private := String "238" (String "128" (String "128" "")) in
  code_units astral = [55357; 56832]
  /\ code_units private = [57344]
  /\ String_le astral private /\ ~ String_le private astral
  /\ String.leb private astral = true.
Proof. vm_compute. repeat split; try discriminate. intros Hle. now apply Hle. Qed.

(** *** [partition] *)

Lemma partition_filter {A} (pred : A -> bool) (arr : list A) :
  partition pred arr
  = (List.filter pred arr, List.filter (fun x => negb (pred x)) arr).
Proof.
  unfold partition.
  assert (forall acc : list A * list A,
             fold_left (fun acc cur =>
                          if pred cur then (fst acc ++ [cur], snd acc)
                          else (fst acc, snd acc ++ [cur])) arr acc
             = (fst acc ++ List.filter pred arr,
                snd acc ++ List.filter (fun x => negb (pred x)) arr)) as Hgen.
  { induction arr as [|x arr IH]; intros [yes no]; cbn.
    - now rewrite !app_nil_r.
    - rewrite IH. destruct (pred x); cbn; now rewrite <- app_assoc. }
  now rewrite Hgen.
Qed.

Lemma sorted_keys_spec (flattened : Flattened) (key : string) :
  key ∈ sorted_keys flattened <-> is_Some (flattened !! key).
Proof.
  unfold sorted_keys. rewrite merge_sort_Permutation.
  rewrite list_elem_of_fmap. split.
  - intros ([k v] & -> & Hin). apply elem_of_map_to_list in Hin. cbn. eauto.
  - intros [v Hv]. exists (key, v). split; [reflexivity|]. now apply elem_of_map_to_list.
Qed.

(** *** Header keys and body keys *)

Lemma goes_in_body_spec (flattened : Flattened) (key : string) :
  goes_in_body flattened key = true
  <-> includes_slash key = true
      \/ 4096 < Z.of_nat (length (bytes_of (flattened !! key))).
Proof.
  unfold goes_in_body. destruct (includes_slash key).
  - split; [now left | reflexivity].
  - rewrite Z.gtb_ltb, Z.ltb_lt. split; [now right | now intros [? | ?]].
Qed.

(** *** What [Headers] takes *)

Lemma drop_while_In (p : ascii -> bool) (l : list ascii) (c : ascii) :
  In c (drop_while p l) -> In c l.
Proof.
  induction l as [|x l IH]; cbn; [easy|].
  destruct (p x); [intros Hin; right; now apply IH | easy].
Qed.

Lemma normalize_In (value : string) (c : ascii) :
  In c (list_ascii_of_string (normalize value)) -> In c (list_ascii_of_string value).
Proof.
  unfold normalize. rewrite list_ascii_of_string_of_list_ascii.
  intros Hin. apply List.in_rev, drop_while_In, List.in_rev, drop_while_In in Hin.
  exact Hin.
Qed.

Lemma list_ascii_of_string_app (a b : string) :
  list_ascii_of_string (a +:+ b) = list_ascii_of_string a ++ list_ascii_of_string b.
Proof.
  induction a as [|c a IH]; [reflexivity|].
  rewrite TextFacts.string_app_cons. cbn. now rewrite IH.
Qed.

(** a value that begins and ends with something else than whitespace is
    kept as it is *)
Lemma normalize_wrapped (c d : ascii) (mid : string) :
  is_whitespace c = false -> is_whitespace d = false ->
  normalize (String c (mid +:+ String d "")) = String c (mid +:+ String d "").
Proof.
  intros Hc Hd. unfold normalize.
  assert (list_ascii_of_string (String c (mid +:+ String d ""))
          = c :: (list_ascii_of_string mid ++ [d])) as ->
      by (cbn [list_ascii_of_string]; now rewrite list_ascii_of_string_app).
  cbn [drop_while]. rewrite Hc.
  assert (rev (c :: list_ascii_of_string mid ++ [d])
          = d :: (rev (list_ascii_of_string mid) ++ [c])) as ->
      by (cbn [rev]; now rewrite List.rev_app_distr).
  cbn [drop_while]. rewrite Hd.
  assert (rev (d :: rev (list_ascii_of_string mid) ++ [c])
          = c :: (list_ascii_of_string mid ++ [d])) as ->
      by (cbn [rev]; now rewrite List.rev_app_distr, List.rev_involutive).
  cbn [string_of_list_ascii].
  now rewrite TextFacts.string_of_list_ascii_app, string_of_list_ascii_of_string.
Qed.

Lemma printable_value (value : string) :
  forallb HbEncodeSpec.printable (list_ascii_of_string value) = true ->
  isByteString value = true /\ isValidHeaderValue (normalize value) = true.
Proof.
  intros Hvalue. rewrite forallb_forall in Hvalue. split.
  - unfold isByteString. rewrite code_points_seven_bit.
    + apply forallb_forall. intros b Hin.
      apply List.in_map_iff in Hin as (c & <- & Hin). specialize (Hvalue c Hin).
      unfold HbEncodeSpec.printable in Hvalue. lia.
    + apply forallb_forall. intros c Hin. specialize (Hvalue c Hin).
      unfold HbEncodeSpec.printable in Hvalue. lia.
  - apply forallb_forall. intros c Hin. apply normalize_In in Hin.
    specialize (Hvalue c Hin). revert Hvalue. clear.
    destruct c as [[] [] [] [] [] [] [] []]; vm_compute; congruence.
Qed.

Lemma printable_base64url (c : ascii) :
  TextSpec.is_base64url c = true -> HbEncodeSpec.printable c = true.
Proof. destruct c as [[] [] [] [] [] [] [] []]; vm_compute; congruence. Qed.

Lemma printable_base64 (bs : list byte) :
  forallb HbEncodeSpec.printable (list_ascii_of_string (Text.base64 bs)) = true.
Proof.
  unfold Text.base64.
  destruct (TextFacts.base64_chars_shape _ (TextFacts.Z_of_byte_range bs))
    as (core & pad & -> & Hcore & _).
  rewrite list_ascii_of_string_of_list_ascii, forallb_app.
  apply andb_true_iff. split.
  - rewrite forallb_forall in *. intros c Hin. specialize (Hcore c Hin).
    revert Hcore. clear.
    destruct c as [[] [] [] [] [] [] [] []]; vm_compute; congruence.
  - clear. induction pad as [|pad IH]; [reflexivity | exact IH].
Qed.

(** The two headers that [encode] adds of its own are always taken, and
    kept as they are. *)
Lemma content_type_checked (boundary : string) :
  forallb TextSpec.is_base64url (list_ascii_of_string boundary) = true ->
  let value := "multipart/form-data; boundary=" +:+ DQUOTE +:+ boundary +:+ DQUOTE in
  checked "Content-Type" value = Resolved ("content-type", value).
Proof.
  intros Hboundary value.
  assert (forallb HbEncodeSpec.printable (list_ascii_of_string value) = true) as Hvalue.
  { unfold value. rewrite !list_ascii_of_string_app, !forallb_app.
    repeat (apply andb_true_iff; split); try reflexivity.
    rewrite forallb_forall in *. intros c Hin. now apply printable_base64url, Hboundary. }
  destruct (printable_value value Hvalue) as [Hbytes Hvalid].
  assert (normalize value = value) as Hsame.
  { unfold value.
    replace ("multipart/form-data; boundary=" +:+ DQUOTE +:+ boundary +:+ DQUOTE)
      with (String "m" (("ultipart/form-data; boundary=" +:+ DQUOTE +:+ boundary)
                          +:+ String "034" ""))
      by (rewrite !TextFacts.string_app_assoc; reflexivity).
    now apply normalize_wrapped. }
  unfold checked, accepted. rewrite Hbytes, Hvalid, Hsame. reflexivity.
Qed.

Lemma content_digest_checked (digest : list byte) :
  let value := "sha-256=:" +:+ Text.base64 digest +:+ ":" in
  checked "Content-Digest" value = Resolved ("content-digest", value).
Proof.
  intros value.
  assert (forallb HbEncodeSpec.printable (list_ascii_of_string value) = true) as Hvalue.
  { unfold value. rewrite !list_ascii_of_string_app, !forallb_app.
    repeat (apply andb_true_iff; split); try reflexivity. apply printable_base64. }
  destruct (printable_value value Hvalue) as [Hbytes Hvalid].
  assert (normalize value = value) as Hsame.
  { unfold value.
    replace ("sha-256=:" +:+ Text.base64 digest +:+ ":")
      with (String "s" (("ha-256=:" +:+ Text.base64 digest) +:+ String ":" ""))
      by (rewrite !TextFacts.string_app_assoc; reflexivity).
    now apply normalize_wrapped. }
  unfold checked, accepted. rewrite Hbytes, Hvalid, Hsame. reflexivity.
Qed.

(** *** The headers and the body of an encoding *)

Lemma append_all_spec (flattened : Flattened) (keys : list string) (h : Headers) :
  match append_all flattened keys h with
  | Resolved h' =>
      HbEncodeSpec.all_accepted flattened keys = true
      /\ h' = h ++ HbEncodeSpec.asked flattened keys
  | Rejected err =>
      HbEncodeSpec.all_accepted flattened keys = false
      /\ exists key,
           key ∈ keys /\ accepted key (text_of (flattened !! key)) = false
           /\ err = invalid_header key
  end.
Proof.
  revert h. induction keys as [|key keys IH]; intros h; cbn [append_all].
  - split; [reflexivity | now rewrite app_nil_r].
  - unfold append, checked, HbEncodeSpec.all_accepted. cbn [forallb].
    destruct (accepted key (text_of (flattened !! key))) eqn:Hkey; cbn [andb].
    + specialize (IH (h ++ [(toLowerCase key, normalize (text_of (flattened !! key)))])).
      destruct (append_all flattened keys _) as [err | h'].
      * destruct IH as (Hall & key' & Hin & Hno & ->). split; [exact Hall|].
        exists key'. split; [|now split]. apply elem_of_cons. now right.
      * destruct IH as [Hall ->]. split; [exact Hall|].
        cbn [HbEncodeSpec.asked List.map]. now rewrite <- app_assoc.
    + split; [reflexivity|]. exists key. split; [|now split].
      apply elem_of_cons. now left.
Qed.

Lemma set_existing_names (name value : string) (h : Headers) (n : string) :
  n ∈ List.map fst h -> n ∈ List.map fst (set_existing name value h).
Proof.
  induction h as [|[n0 v0] h IH]; cbn; [easy|].
  intros Hin. apply elem_of_cons in Hin as [-> | Hin].
  - destruct (String.eqb n0 name) eqn:Heq; cbn.
    + apply String.eqb_eq in Heq. subst. apply elem_of_cons. now left.
    + apply elem_of_cons. now left.
  - destruct (String.eqb n0 name) eqn:Heq; cbn.
    + destruct (String.eqb n name) eqn:Hn.
      * apply String.eqb_eq in Hn. subst. apply elem_of_cons. now left.
      * apply elem_of_cons. right.
        apply list_elem_of_In, List.in_map_iff.
        apply list_elem_of_In, List.in_map_iff in Hin as ([n' v'] & Hfst & Hin).
        cbn in Hfst. subst n'. exists (n, v'). split; [reflexivity|].
        apply List.filter_In. split; [exact Hin|]. cbn. now rewrite Hn.
    + apply elem_of_cons. right. now apply IH.
Qed.

Lemma with_content_type_names (value : string) (h : Headers) (n : string) :
  n ∈ List.map fst h -> n ∈ List.map fst (HbEncodeSpec.with_content_type value h).
Proof.
  intros Hin. unfold HbEncodeSpec.with_content_type. destruct (existsb _ h).
  - now apply set_existing_names.
  - rewrite List.map_app. apply elem_of_app. now left.
Qed.

(** What [encode] makes of a flattening: nothing when [Headers] refuses a
    header key; otherwise the headers asked for, and with a body key the
    body, its type and its digest. *)
Lemma encode_flattened_spec (flattened : Flattened) :
  let bodyKeys := fst (split_keys flattened) in
  let headerKeys := snd (split_keys flattened) in
  let bodyParts := List.map (bodyPart flattened) bodyKeys in
  let boundary := boundaryFrom bodyParts in
  let body := multipart boundary bodyParts in
  if HbEncodeSpec.all_accepted flattened headerKeys then
    encode_flattened flattened
    = Resolved
        match bodyKeys with
        | [] => mkEncoded (HbEncodeSpec.asked flattened headerKeys) None
        | _ =>
            mkEncoded
              (HbEncodeSpec.with_content_type
                 ("multipart/form-data; boundary=" +:+ DQUOTE +:+ boundary +:+ DQUOTE)
                 (HbEncodeSpec.asked flattened headerKeys)
               ++ [("content-digest",
                    "sha-256=:" +:+ Text.base64 (Sha256.sha256 body) +:+ ":")])
              (Some body)
        end
  else
    exists key,
      key ∈ headerKeys /\ accepted key (text_of (flattened !! key)) = false
      /\ encode_flattened flattened = Rejected (invalid_header key).
Proof.
  cbn zeta. unfold encode_flattened.
  destruct (split_keys flattened) as [bodyKeys headerKeys]. cbn [fst snd].
  pose proof (append_all_spec flattened headerKeys []) as Hall.
  destruct (append_all flattened headerKeys []) as [err | h].
  - destruct Hall as (-> & key & Hin & Hno & ->). now exists key.
  - destruct Hall as [-> ->]. cbn [app].
    destruct bodyKeys as [|key0 bodyKeys]; [reflexivity|].
    set (bodyParts := List.map (bodyPart flattened) (key0 :: bodyKeys)).
    destruct (TextFacts.base64_of_a_digest
                (Sha256.sha256 (join_bytes (Text.bytes CRLF) bodyParts))
                (TextFacts.sha256_length _)) as (_ & Hchars & _).
    unfold set. fold (boundaryFrom bodyParts) in Hchars.
    rewrite (content_type_checked (boundaryFrom bodyParts) Hchars).
    unfold append. rewrite TextFacts.toBase64_of_base64url, content_digest_checked.
    reflexivity.
Qed.

(** C4, as the code has it.  The keys are sorted by their UTF-16 code
    units, lexicographically, every flattened key is among them once, and
    the sorted keys are split in order: a key goes into the body iff it
    contains a [/] or the byte length of its value (not of the key) exceeds
    4096, and is a header key otherwise.  When the encoding resolves, the
    header keys are the names of its headers, the body keys give the parts
    of the multipart body, and there is no body without a body key.  It
    resolves exactly when [Headers] takes every header key with its value;
    otherwise it rejects with the [TypeError] of a header key that is
    refused.  On keys of seven-bit characters the order is the byte-wise
    order of strings. *)
Theorem keys_sorted_and_split_by_value_size (flattened : Flattened) :
  let bodyKeys := fst (split_keys flattened) in
  let headerKeys := snd (split_keys flattened) in
  let bodyParts := List.map (bodyPart flattened) bodyKeys in
  StronglySorted String_le (sorted_keys flattened)
  /\ NoDup (sorted_keys flattened)
  /\ (forall key, key ∈ sorted_keys flattened <-> is_Some (flattened !! key))
  /\ bodyKeys = List.filter (goes_in_body flattened) (sorted_keys flattened)
  /\ headerKeys
     = List.filter (fun key => negb (goes_in_body flattened key)) (sorted_keys flattened)
  /\ (forall key,
         key ∈ bodyKeys
         <-> is_Some (flattened !! key)
             /\ (includes_slash key = true
                 \/ 4096 < Z.of_nat (length (bytes_of (flattened !! key)))))
  /\ (forall key,
         key ∈ headerKeys
         <-> is_Some (flattened !! key)
             /\ includes_slash key = false
             /\ Z.of_nat (length (bytes_of (flattened !! key))) <= 4096)
  /\ (forall encoded,
         encode_flattened flattened = Resolved encoded ->
         (forall key, key ∈ headerKeys ->
                      toLowerCase key ∈ List.map fst (headers encoded))
         /\ (bodyKeys = [] -> body encoded = None)
         /\ (bodyKeys <> [] ->
             body encoded = Some (multipart (boundaryFrom bodyParts) bodyParts)))
  /\ ((exists encoded, encode_flattened flattened = Resolved encoded)
      <-> forall key, key ∈ headerKeys ->
                      accepted key (text_of (flattened !! key)) = true)
  /\ (forall err,
         encode_flattened flattened = Rejected err ->
         exists key,
           key ∈ headerKeys /\ accepted key (text_of (flattened !! key)) = false
           /\ err = invalid_header key)
  /\ (forall key1 key2,
         HbEncodeSpec.seven_bit key1 = true -> HbEncodeSpec.seven_bit key2 = true ->
         (String_le key1 key2 <-> String.leb key1 key2 = true)).
Proof.
  cbn zeta.
  split; [apply StronglySorted_merge_sort; apply _|].
  split.
  { unfold sorted_keys. rewrite merge_sort_Permutation. apply NoDup_fst_map_to_list. }
  split; [apply sorted_keys_spec|].
  pose proof (encode_flattened_spec flattened) as Hspec. cbn zeta in Hspec.
  assert (HbEncodeSpec.all_accepted flattened (snd (split_keys flattened)) = true
          <-> forall key, key ∈ snd (split_keys flattened) ->
                          accepted key (text_of (flattened !! key)) = true) as Hall.
  { unfold HbEncodeSpec.all_accepted. rewrite forallb_forall.
    split; intros Hkeys key Hin; apply Hkeys; now apply list_elem_of_In. }
  unfold split_keys in *. rewrite partition_filter in *. cbn [fst snd] in *.
  split; [reflexivity|]. split; [reflexivity|].
  split; [|split; [|split; [|split; [|split; [|exact String_le_seven_bit]]]]].
  - intros key.
    rewrite list_elem_of_In, List.filter_In, <- list_elem_of_In,
      sorted_keys_spec, goes_in_body_spec. reflexivity.
  - intros key.
    rewrite list_elem_of_In, List.filter_In, <- list_elem_of_In,
      sorted_keys_spec, negb_true_iff.
    pose proof (goes_in_body_spec flattened key) as Hgoes.
    destruct (goes_in_body flattened key), (includes_slash key) eqn:Hslash.
    + split; [intros [_ [=]] | intros (_ & [=] & _)].
    + split; [intros [_ [=]] | intros (_ & _ & Hle)].
      destruct Hgoes as [[[=] | Hgt] _]; [reflexivity | lia].
    + destruct Hgoes as [_ Hgoes]. discriminate Hgoes. now left.
    + split; [intros [Hin _] | intros (Hin & _ & _); now split].
      split; [exact Hin|]. split; [reflexivity|].
      destruct (Z.le_gt_cases (Z.of_nat (length (bytes_of (flattened !! key)))) 4096)
        as [Hle | Hgt]; [exact Hle|].
      destruct Hgoes as [_ Hgoes]. discriminate Hgoes. now right.
  - intros encoded Henc.
    destruct (HbEncodeSpec.all_accepted flattened _) eqn:Hacc;
      [|destruct Hspec as (key & _ & _ & Hrej); congruence].
    rewrite Hspec in Henc. injection Henc as <-.
    assert (forall key,
               key ∈ List.filter (fun key => negb (goes_in_body flattened key))
                                 (sorted_keys flattened) ->
               toLowerCase key
               ∈ List.map fst
                   (HbEncodeSpec.asked flattened
                      (List.filter (fun key => negb (goes_in_body flattened key))
                                   (sorted_keys flattened)))) as Hnames.
    { intros key Hin. unfold HbEncodeSpec.asked. rewrite List.map_map. cbn.
      apply list_elem_of_In, List.in_map_iff. exists key.
      split; [reflexivity|]. now apply list_elem_of_In. }
    destruct (List.filter (goes_in_body flattened) (sorted_keys flattened))
      as [|key0 bodyKeys].
    + split; [exact Hnames|]. split; [reflexivity | congruence].
    + split; [|split; [congruence | reflexivity]].
      intros key Hin. cbn [headers]. rewrite List.map_app. apply elem_of_app. left.
      apply with_content_type_names. now apply Hnames.
  - rewrite <- Hall.
    destruct (HbEncodeSpec.all_accepted flattened _) eqn:Hacc.
    + split; [reflexivity | intros _; eauto].
    + destruct Hspec as (key & _ & _ & Hrej). rewrite Hrej.
      split; [now intros [encoded [=]] | discriminate].
  - intros err Henc.
    destruct (HbEncodeSpec.all_accepted flattened _) eqn:Hacc; [congruence|].
    destruct Hspec as (key & Hin & Hno & Hrej). rewrite Hrej in Henc.
    injection Henc as <-. now exists key.
Qed.

Lemma keys_sorted_and_split_witness :
  let flattened : Flattened :=
    {[ "a" := VStr (Scenario.filler 4097); "b" := VStr "x"; "c/d" := VStr "y" ]} in
  "a" ∈ fst (split_keys flattened)
  /\ "c/d" ∈ fst (split_keys flattened)
  /\ "b" ∈ snd (split_keys flattened).
Proof.
  intros flattened.
  destruct (keys_sorted_and_split_by_value_size flattened)
    as (_ & _ & _ & _ & _ & Hbody & Hheader & _).
  split; [|split].
  - apply Hbody. split; [now exists (VStr (Scenario.filler 4097))|].
    right. vm_compute. reflexivity.
  - apply Hbody. split; [now exists (VStr "y")|]. left. reflexivity.
  - apply Hheader. split; [now exists (VStr "x")|]. split; [reflexivity|].
    vm_compute. discriminate.
Defined.

(** C4, as it is stated, fails both ways: the key [a] is short and has no
    [/], yet goes into the body because its value has 4097 bytes; a key of
    4097 bytes with a short value stays a header. *)
Lemma key_length_does_not_decide :
  ~ (forall obj flattened key,
        hbEncode obj "" = Resolved flattened ->
        is_Some (flattened !! key) ->
        (key ∈ fst (split_keys flattened) <-> by_key_length key = true)).
Proof.
  intros Hclaim.
  assert (exists flattened,
             hbEncode Scenario.bigValue "" = Resolved flattened
             /\ flattened !! "a" = Some (VStr (Scenario.filler 4097))
             /\ fst (split_keys flattened) = ["a"]) as (flattened & Henc & Hlook & Hbody).
  { eexists. split; [reflexivity|]. split; vm_compute; reflexivity. }
  specialize (Hclaim Scenario.bigValue flattened "a" Henc ltac:(rewrite Hlook; eauto)).
  rewrite Hbody in Hclaim. destruct Hclaim as [Hclaim _].
  discriminate Hclaim. apply list_elem_of_singleton. reflexivity.
Qed.

(** The other way round: a key of 4097 bytes with a short value is a
    header key. *)
Example long_key_stays_a_header :
  exists flattened,
    hbEncode Scenario.bigKey "" = Resolved flattened
    /\ split_keys flattened = ([], [Scenario.filler 4097])
    /\ by_key_length (Scenario.filler 4097) = true.
Proof. eexists. split; [reflexivity|]. split; vm_compute; reflexivity. Qed.

(** *** Leaves *)

(** On a value that is neither an array nor an object the reducer does not
    use the recursive call. *)
Lemma reducer_leaf (f g : value -> string -> Promise Flattened) (parent : string)
    (acc : Flattened * Types) (key : string) (value : value) :
  isPojo value = false -> reducer f parent acc key value = reducer g parent acc key value.
Proof.
  intros Hleaf. unfold reducer. rewrite Hleaf.
  destruct value as [| | b | n | s | d | bs | elems | props]; try reflexivity;
    discriminate Hleaf.
Qed.

Lemma reduce_elems_leaves (f g : value -> string -> Promise Flattened) (parent : string)
    (elems : list value) (i : nat) (acc : Flattened * Types) :
  Forall (fun value => isPojo value = false) elems ->
  reduce_elems f parent elems i acc = reduce_elems g parent elems i acc.
Proof.
  intros Hleaves. revert i acc.
  induction Hleaves as [|value elems Hleaf _ IH]; intros i acc; cbn; [reflexivity|].
  rewrite (reducer_leaf f g _ _ _ _ Hleaf).
  destruct (reducer g parent acc (index_key i) value); [reflexivity | apply IH].
Qed.

(** So the entries of a string are reduced as the entries of an array of
    its characters are. *)
Lemma hbEncode_string (s parent : string) :
  hbEncode (VStr s) parent = hbEncode (VArr (char_entries s)) parent.
Proof.
  cbn [hbEncode].
  rewrite (reduce_elems_leaves no_nesting hbEncode); [reflexivity|].
  unfold char_entries. apply Forall_forall. intros v Hin.
  apply list_elem_of_In, List.in_map_iff in Hin as (c & <- & _). reflexivity.
Qed.

(** *** Arrays *)

Lemma hbEncode_number (n : number) (parent : string) :
  hbEncode (VNum n) parent = Resolved ∅.
Proof. reflexivity. Qed.

Lemma forEach_numbers (flatK : string) (ns : list number) (i : nat)
    (flattened : Flattened) :
  forEach hbEncode flatK (List.map VNum ns) i flattened = Resolved flattened.
Proof.
  revert i flattened. induction ns as [|n ns IH]; intros i flattened; cbn [List.map forEach].
  - reflexivity.
  - rewrite hbEncode_number. unfold Object_assign. rewrite (left_id_L ∅ (∪)). apply IH.
Qed.

(** C5 fails on the code: the elements of an array are flattened as if
    they were objects, so a number inside an array leaves no leaf at all and
    a string leaves one leaf per character.  An object whose only value is a
    non-empty array of numbers flattens to nothing; in the object
    [{a: 1, b: "x", c: {d: [10, 20]}}] there is no leaf [c/d/0] nor [c/d/1];
    the array [["xy"]] at [a] gives [a/0/0] and [a/0/1], not [a/0]. *)
Theorem scalars_in_arrays_leave_no_leaf :
  (forall key n ns,
      hbEncode (VObj [(key, VArr (VNum n :: List.map VNum ns))]) "" = Resolved ∅)
  /\ hbEncode Scenario.nested ""
     = Resolved {[ "a" := VStr "1"; "b" := VStr "x"; "ao-types" := VStr "a=integer" ]}
  /\ hbEncode (VObj [("a", VArr [VStr "xy"])]) ""
     = Resolved {[ "a/0/0" := VStr "x"; "a/0/1" := VStr "y" ]}.
Proof.
  split; [|split].
  - intros key n ns.
    cbn [hbEncode reduce_props reducer isNullish].
    change (VNum n :: List.map VNum ns) with (List.map VNum (n :: ns)).
    cbn [List.map]. rewrite (forEach_numbers _ (n :: ns)). reflexivity.
  - apply (f_equal Resolved). apply map_eq. intros key.
    vm_compute. reflexivity.
  - reflexivity.
Qed.

(** *** The digest *)

(** The encoding is a function of the flattening. *)
Lemma encode_of_flattening (obj obj' : value) :
  obj <> VUndefined -> obj' <> VUndefined ->
  hbEncode obj "" = hbEncode obj' "" -> encode obj = encode obj'.
Proof.
  intros Hobj Hobj' Hflat. unfold encode.
  destruct obj, obj'; try congruence; now rewrite Hflat.
Qed.

(** C6 fails on the code: [ao-types] lists the typed keys of a layer in
    the order in which they were inserted, and below the top layer it is a
    part of the body.  The two objects [{x: {a: 1, b: 2}}] and
    [{x: {b: 2, a: 1}}] differ only in that order and get different
    [Content-Digest] headers. *)
Theorem digest_depends_on_insertion_order :
  hbEncode Scenario.ab "" =
    Resolved {[ "x/a" := VStr "1"; "x/b" := VStr "2";
                "x/ao-types" := VStr "a=integer,b=integer" ]}
  /\ hbEncode Scenario.ba "" =
       Resolved {[ "x/a" := VStr "1"; "x/b" := VStr "2";
                   "x/ao-types" := VStr "b=integer,a=integer" ]}
  /\ contentDigestOf (encode Scenario.ab)
     = Some "sha-256=:N/ETGmN9KUYLdx6WkPjZrxAleXNKhOPCeVZtlWLrJeI=:"
  /\ contentDigestOf (encode Scenario.ba)
     = Some "sha-256=:OrA2n/FeFMG7v7qB/EkCMiXi1Mz9g9YeY/BRRjaak6k=:"
  /\ contentDigestOf (encode Scenario.ab) <> contentDigestOf (encode Scenario.ba).
Proof.
  assert (contentDigestOf (encode Scenario.ab)
          = Some "sha-256=:N/ETGmN9KUYLdx6WkPjZrxAleXNKhOPCeVZtlWLrJeI=:") as Hab
      by (vm_compute; reflexivity).
  assert (contentDigestOf (encode Scenario.ba)
          = Some "sha-256=:OrA2n/FeFMG7v7qB/EkCMiXi1Mz9g9YeY/BRRjaak6k=:") as Hba
      by (vm_compute; reflexivity).
  split; [|split].
  - apply (f_equal Resolved), map_eq. intros key. vm_compute. reflexivity.
  - apply (f_equal Resolved), map_eq. intros key. vm_compute. reflexivity.
  - split; [exact Hab|]. split; [exact Hba|]. rewrite Hab, Hba. discriminate.
Qed.

(** At the top layer [ao-types] is a header, and the body, when there is
    one, does not show the order of the keys. *)
Example top_layer_order_is_not_in_the_digest :
  contentDigestOf (encode (VObj [("a", VNum (Int 1)); ("b", VNum (Int 2));
                                 ("c", VObj [("d", VStr "x")])]))
  = contentDigestOf (encode (VObj [("b", VNum (Int 2)); ("a", VNum (Int 1));
                                   ("c", VObj [("d", VStr "x")])])).
Proof. vm_compute. reflexivity. Qed.

End HbEncodeFacts.

(** ** More on the worker *)

Module WorkerMore.

Import Worker.

Section Loading.
Context `{env : Env}.

Lemma loadModule_hit (args : Args) (w : World) (wasm : WasmModule) :
  LRUCache.peek (moduleId args) (wasmModuleCache w) = Some wasm ->
  loadModule args w
  = (mkWorld (wasmInstanceCache w)
             (snd (LRUCache.get (moduleId args) (wasmModuleCache w)))
             (files w) (trace w),
     Resolved wasm).
Proof.
  intros Hhit.
  unfold loadModule, maybeCachedModule, bichain, chain, wasmModuleCache_get, resolved.
  now rewrite (WorkerFacts.get_hit _ _ _ Hhit).
Qed.

Lemma loadModule_rejected_caches (args : Args) (w w' : World) (err : value) :
  loadModule args w = (w', Rejected err) ->
  wasmModuleCache w' = wasmModuleCache w /\ wasmInstanceCache w' = wasmInstanceCache w.
Proof.
  destruct (LRUCache.peek (moduleId args) (wasmModuleCache w)) as [wasm|] eqn:Hpeek.
  { rewrite (loadModule_hit _ _ _ Hpeek). discriminate. }
  rewrite (WorkerFacts.loadModule_miss _ _ Hpeek). cbn zeta.
  destruct (storedBinary (moduleId args) w) as [unusable | wasm]; [|discriminate].
  rewrite WorkerFacts.loadTransaction_run. cbn zeta.
  destruct (fetch _) as [e0 | res]; [now intros [= <- _]|].
  destruct (ok res); [|destruct (Worker.text res); now intros [= <- _]].
  destruct (body res) as [stream|]; [|now intros [= <- _]].
  destruct (compileStreaming stream); [now intros [= <- _] | discriminate].
Qed.

(** X1. A load that fails leaves the compiled-module cache and the instance
    cache as they were, and it fails for one of these reasons only: the
    fetch itself failed; the gateway answered outside 2xx (the reason is the
    status with the text of the answer, or the error of the body when it
    could not be read); the gateway answered 2xx without a body (the
    [TypeError] of [res.body.tee()]); or the streaming compiler rejected the
    body it was given.  A missing or corrupt file on disk never fails a load
    by itself, nor does a write that fails. *)
Theorem loadModule_failure_modes (args : Args) (w w' : World) (err : value) :
  loadModule args w = (w', Rejected err) ->
  let url := GATEWAY_URL +:+ "/raw/" +:+ moduleId args in
  LRUCache.peek (moduleId args) (wasmModuleCache w) = None
  /\ (exists unusable, storedBinary (moduleId args) w = Rejected unusable)
  /\ wasmModuleCache w' = wasmModuleCache w
  /\ wasmInstanceCache w' = wasmInstanceCache w
  /\ (fetch url = Rejected err
      \/ (exists res text,
             fetch url = Resolved res /\ ok res = false
             /\ Worker.text res = Resolved text
             /\ err = new_Error (String_of_Z (status res) +:+ ": " +:+ text))
      \/ (exists res,
             fetch url = Resolved res /\ ok res = false
             /\ Worker.text res = Rejected err)
      \/ (exists res,
             fetch url = Resolved res /\ ok res = true
             /\ body res = None /\ err = no_body)
      \/ (exists res stream,
             fetch url = Resolved res /\ ok res = true
             /\ body res = Some stream
             /\ compileStreaming stream = Rejected err)).
Proof.
  intros Hload. cbn zeta.
  destruct (LRUCache.peek (moduleId args) (wasmModuleCache w)) as [wasm|] eqn:Hpeek.
  { rewrite (loadModule_hit _ _ _ Hpeek) in Hload. discriminate. }
  split; [reflexivity|].
  rewrite (WorkerFacts.loadModule_miss _ _ Hpeek) in Hload. cbn zeta in Hload.
  destruct (storedBinary (moduleId args) w) as [unusable | wasm]; [|discriminate].
  split; [now exists unusable|].
  rewrite WorkerFacts.loadTransaction_run in Hload. cbn zeta in Hload.
  destruct (fetch _) as [e0 | res].
  - injection Hload as <- <-. cbn. auto.
  - destruct (ok res) eqn:Hok.
    + destruct (body res) as [stream|] eqn:Hbody.
      * destruct (compileStreaming stream) as [e0 | wasm] eqn:Hcompile; [|discriminate].
        injection Hload as <- <-. cbn. repeat split.
        do 4 right. exists res, stream. auto.
      * injection Hload as <- <-. cbn. repeat split.
        do 3 right. left. exists res. auto.
    + destruct (Worker.text res) as [e0 | text] eqn:Htext.
      * injection Hload as <- <-. cbn. repeat split.
        do 2 right. left. exists res. auto.
      * injection Hload as <- <-. cbn. repeat split.
        right. left. exists res, text. auto.
Qed.

Lemma loadModule_instances (args : Args) (w w' : World) (r : Promise WasmModule) :
  loadModule args w = (w', r) -> wasmInstanceCache w' = wasmInstanceCache w.
Proof.
  destruct r as [err | wasm].
  - intros Hload. now apply loadModule_rejected_caches in Hload.
  - destruct (LRUCache.peek (moduleId args) (wasmModuleCache w)) as [cached|] eqn:Hpeek.
    + rewrite (loadModule_hit _ _ _ Hpeek). now intros [= <- _].
    + rewrite (WorkerFacts.loadModule_miss _ _ Hpeek). cbn zeta.
      destruct (storedBinary _ _); [|now intros [= <- _]].
      rewrite WorkerFacts.loadTransaction_run. cbn zeta.
      destruct (fetch _) as [e0 | res]; [discriminate|].
      destruct (ok res); [|now destruct (Worker.text res)].
      destruct (body res) as [stream|]; [|discriminate].
      destruct (compileStreaming stream); [discriminate | now intros [= <- _]].
Qed.

(** Where an acquired instance comes from. *)
Lemma acquire_cases (args : Args) (w w' : World) (r : Promise WasmInstance) :
  acquire args w = (w', r) ->
  (exists cached,
      LRUCache.peek (streamId args) (wasmInstanceCache w) = Some cached
      /\ r = Resolved cached
      /\ w' = mkWorld (snd (LRUCache.get (streamId args) (wasmInstanceCache w)))
                      (wasmModuleCache w) (files w) (trace w))
  \/ (LRUCache.peek (streamId args) (wasmInstanceCache w) = None
      /\ loadInstance args w = (w', r)).
Proof.
  unfold acquire, maybeCachedInstance, bichain, chain, wasmInstanceCache_get,
    resolved, rejected.
  destruct (LRUCache.peek (streamId args) (wasmInstanceCache w)) as [cached|] eqn:Hpeek.
  - rewrite (WorkerFacts.get_hit _ _ _ Hpeek). cbn. intros [= <- <-].
    left. exists cached. auto.
  - rewrite (WorkerFacts.get_miss _ _ Hpeek), WorkerFacts.world_eta. intros Hload.
    right. auto.
Qed.

Lemma loadInstance_cases (args : Args) (w w' : World) (r : Promise WasmInstance) :
  loadInstance args w = (w', r) ->
  (exists err, loadModule args w = (w', Rejected err) /\ r = Rejected err)
  \/ (exists wasm err,
         loadModule args w = (w', Resolved wasm)
         /\ bootstrapWasmInstance wasm (gas args) (memLimit args) = Rejected err
         /\ r = Rejected err)
  \/ (exists wasm w1 wasmInstance,
         loadModule args w = (w1, Resolved wasm)
         /\ bootstrapWasmInstance wasm (gas args) (memLimit args) = Resolved wasmInstance
         /\ r = Resolved wasmInstance
         /\ w' = wasmInstanceCache_set (streamId args) wasmInstance w1).
Proof.
  unfold loadInstance, chain, settled.
  destruct (loadModule args w) as [w1 [err | wasm]].
  - intros [= <- <-]. left. eauto.
  - destruct (bootstrapWasmInstance _ _ _) as [err | wasmInstance] eqn:Hboot.
    + intros [= <- <-]. right. left. eauto.
    + intros [= <- <-]. right. right. exists wasm, w1, wasmInstance. auto.
Qed.

(** X2. [evaluate] rejects only while it loads: never on a stream whose
    instance is cached and never because of the handler.  The reason is that
    of the module load or of the instantiation, and no instance is cached
    for the stream by a call that rejects. *)
Theorem evaluate_rejects_only_while_loading (args : Args) (w w' : World) (err : value) :
  evaluate args w = (w', Rejected err) ->
  LRUCache.peek (streamId args) (wasmInstanceCache w) = None
  /\ wasmInstanceCache w' = wasmInstanceCache w
  /\ (loadModule args w = (w', Rejected err)
      \/ exists wasm,
           loadModule args w = (w', Resolved wasm)
           /\ bootstrapWasmInstance wasm (gas args) (memLimit args) = Rejected err).
Proof.
  unfold evaluate, toPromise, chain.
  destruct (acquire args w) as [w1 [e0 | wasmInstance]] eqn:Hacq.
  - intros [= <- <-].
    apply acquire_cases in Hacq as [(cached & _ & [=] & _) | [Hmiss Hload]].
    split; [exact Hmiss|].
    apply loadInstance_cases in Hload
      as [(e' & Hm & [= <-]) | [(wasm & e' & Hm & Hboot & [= <-])
                               | (wasm & w2 & i & _ & _ & [=] & _)]].
    + split; [exact (loadModule_instances _ _ _ _ Hm) | now left].
    + split; [exact (loadModule_instances _ _ _ _ Hm) | right; eauto].
  - rewrite WorkerFacts.invoke_resolves. discriminate.
Qed.

(** X3. Once [evaluate] has resolved on a stream, the instance it used is
    cached under the stream id (if the cache holds anything at all), and the
    next call on that stream id reuses it without reading a file, fetching
    or compiling, whatever module id the next call names. *)
Theorem evaluate_reuses_the_stream_instance
    (args args' : Args) (w w1 : World) (out : EvaluationOutput) :
  evaluate args w = (w1, Resolved out) ->
  (0 < LRUCache.max (wasmInstanceCache w))%nat ->
  streamId args' = streamId args ->
  exists wasmInstance w2,
    acquire args w = (w1, Resolved wasmInstance)
    /\ LRUCache.peek (streamId args) (wasmInstanceCache w1) = Some wasmInstance
    /\ evaluate args' w1 = invoke args' wasmInstance w2
    /\ trace w2 = trace w1
    /\ files w2 = files w1
    /\ wasmModuleCache w2 = wasmModuleCache w1.
Proof.
  intros Heval Hmax Hstream. unfold evaluate, toPromise, chain in Heval.
  destruct (acquire args w) as [w0 [e0 | wasmInstance]] eqn:Hacq; [discriminate|].
  rewrite WorkerFacts.invoke_resolves in Heval. injection Heval as -> _.
  assert (LRUCache.peek (streamId args) (wasmInstanceCache w1) = Some wasmInstance)
    as Hcached.
  { apply acquire_cases in Hacq as [(cached & Hpeek & [= <-] & ->) | [Hmiss Hload]].
    - rewrite (WorkerFacts.get_hit _ _ _ Hpeek). cbn.
      unfold LRUCache.peek. cbn. now rewrite String.eqb_refl.
    - apply loadInstance_cases in Hload
        as [(e' & _ & [=]) | [(wasm & e' & _ & _ & [=])
                             | (wasm & w2 & i & Hm & _ & [= <-] & ->)]].
      cbn. apply WorkerFacts.peek_set.
      now rewrite (loadModule_instances _ _ _ _ Hm). }
  rewrite <- Hstream in Hcached.
  destruct (WorkerFacts.acquire_cached args' w1 wasmInstance Hcached)
    as (w2 & Hacq' & Htrace & Hfiles & Hmodules).
  exists wasmInstance, w2. rewrite Hstream in Hcached.
  split; [reflexivity|]. split; [exact Hcached|].
  split; [exact (WorkerFacts.evaluate_acquired _ _ _ _ Hacq')|]. auto.
Qed.

(** X4. What the gateway served is found on disk afterwards: when the body
    was written (the file is writable and gunzip undoes gzip on it), a
    worker that shares the files but has a cold module cache loads the same
    module from the file and does not fetch. *)
Theorem fetched_module_is_served_from_disk
    (args : Args) (w w2 : World) (unusable : value) (res : Response)
    (bytes : list byte) (wasm : WasmModule) :
  let m := moduleId args in
  let file := wasmFile m in
  LRUCache.peek m (wasmModuleCache w) = None ->
  storedBinary m w = Rejected unusable ->
  fetch (GATEWAY_URL +:+ "/raw/" +:+ m) = Resolved res ->
  200 <= status res <= 299 ->
  body res = Some (Resolved bytes) ->
  compile bytes = Resolved wasm ->
  writable file = true ->
  gunzip (gzip bytes) = Resolved bytes ->
  files w2 = files (fst (loadModule args w)) ->
  LRUCache.peek m (wasmModuleCache w2) = None ->
  exists w3,
    loadModule args w2 = (w3, Resolved wasm)
    /\ trace w3 = trace w2 ++ [ReadFile file]
    /\ files w3 = files w2.
Proof.
  cbn zeta. intros Hmiss Hdisk Hfetch Hok Hbody Hcompile Hwritable Hzlib Hfiles Hcold.
  destruct (WorkerFacts.loadModule_fetched args w unusable res (Resolved bytes) wasm
              Hmiss Hdisk Hfetch Hok Hbody Hcompile) as (w1 & Hload & _ & Hfiles1 & _).
  rewrite Hload in Hfiles. cbn in Hfiles. rewrite Hfiles1 in Hfiles.
  cbn in Hfiles. rewrite Hwritable in Hfiles.
  destruct (WorkerFacts.loadModule_stored args w2 wasm Hcold) as (w3 & Hload3 & Ht & Hf & _).
  - unfold storedBinary. rewrite Hfiles, lookup_insert_eq, Hzlib. exact Hcompile.
  - exists w3. auto.
Qed.

(** *** The caches stay within their bound *)

Lemma remove_keys {V} (k k' : string) (l : list (string * V)) :
  k' ∈ List.map fst (LRUCache.remove k l) <-> k' ∈ List.map fst l /\ k' <> k.
Proof.
  induction l as [|[k0 v0] l IH]; cbn.
  - split; [intros Hin | intros [Hin _]]; now apply elem_of_nil in Hin.
  - destruct (String.eqb k k0) eqn:Heq.
    + apply String.eqb_eq in Heq. subst k0. rewrite IH, elem_of_cons. intuition congruence.
    + apply String.eqb_neq in Heq. cbn. rewrite !elem_of_cons, IH. intuition congruence.
Qed.

Lemma remove_NoDup {V} (k : string) (l : list (string * V)) :
  NoDup (List.map fst l) -> NoDup (List.map fst (LRUCache.remove k l)).
Proof.
  induction l as [|[k0 v0] l IH]; cbn; [easy|].
  intros Hnd. apply NoDup_cons in Hnd as [Hfresh Hnd].
  destruct (String.eqb k k0); [now apply IH|].
  cbn. apply NoDup_cons. split; [|now apply IH].
  rewrite remove_keys. tauto.
Qed.

Lemma remove_length {V} (k : string) (l : list (string * V)) :
  (length (LRUCache.remove k l) <= length l)%nat.
Proof.
  induction l as [|[k0 v0] l IH]; cbn; [lia|].
  destruct (String.eqb k k0); cbn; lia.
Qed.

Lemma remove_found_length {V} (k : string) (l : list (string * V)) (v : V) :
  LRUCache.find k l = Some v -> (S (length (LRUCache.remove k l)) <= length l)%nat.
Proof.
  induction l as [|[k0 v0] l IH]; cbn; [discriminate|].
  destruct (String.eqb k k0); cbn.
  - intros _. pose proof (remove_length k l). lia.
  - intros Hfind. apply IH in Hfind. lia.
Qed.

Lemma firstn_keys {V} (n : nat) (l : list (string * V)) (k : string) :
  k ∈ List.map fst (firstn n l) -> k ∈ List.map fst l.
Proof.
  revert n. induction l as [|[k0 v0] l IH]; intros [|n]; cbn; try easy.
  rewrite !elem_of_cons. intros [-> | Hin]; [now left | right; eauto].
Qed.

Lemma firstn_NoDup {V} (n : nat) (l : list (string * V)) :
  NoDup (List.map fst l) -> NoDup (List.map fst (firstn n l)).
Proof.
  revert n. induction l as [|[k0 v0] l IH]; intros [|n]; cbn; try easy; [constructor|].
  intros Hall. apply NoDup_cons in Hall as [Hfresh Hall].
  apply NoDup_cons. split; [|now apply IH].
  intros Hin. apply Hfresh. exact (firstn_keys _ _ _ Hin).
Qed.

Lemma get_within_bound {V} (k : string) (c : LRUCache.t V) :
  LRUCacheSpec.within_bound c -> LRUCacheSpec.within_bound (snd (LRUCache.get k c)).
Proof.
  intros [Hlen Hnd]. unfold LRUCache.get.
  destruct (LRUCache.find k (LRUCache.entries c)) as [v|] eqn:Hfind; cbn; [|now split].
  split; cbn.
  - pose proof (remove_found_length _ _ _ Hfind). lia.
  - apply NoDup_cons. split; [|now apply remove_NoDup].
    rewrite remove_keys. tauto.
Qed.

Lemma set_within_bound {V} (k : string) (v : V) (c : LRUCache.t V) :
  NoDup (List.map fst (LRUCache.entries c)) ->
  LRUCacheSpec.within_bound (LRUCache.set k v c).
Proof.
  intros Hnd. split; cbn [LRUCache.set LRUCache.entries LRUCache.max].
  - rewrite length_firstn. lia.
  - assert (NoDup (List.map fst ((k, v) :: LRUCache.remove k (LRUCache.entries c)))) as Hall.
    { cbn. apply NoDup_cons. split; [|now apply remove_NoDup].
      rewrite remove_keys. tauto. }
    revert Hall. apply firstn_NoDup.
Qed.

Lemma loadModule_within_bound (args : Args) (w w' : World) (r : Promise WasmModule) :
  loadModule args w = (w', r) ->
  LRUCacheSpec.within_bound (wasmModuleCache w) ->
  LRUCacheSpec.within_bound (wasmModuleCache w').
Proof.
  intros Hload Hwf. destruct r as [err | wasm].
  - apply loadModule_rejected_caches in Hload as [-> _]. exact Hwf.
  - destruct (LRUCache.peek (moduleId args) (wasmModuleCache w)) as [cached|] eqn:Hpeek.
    + rewrite (loadModule_hit _ _ _ Hpeek) in Hload. injection Hload as <- _.
      cbn. now apply get_within_bound.
    + rewrite (WorkerFacts.loadModule_miss _ _ Hpeek) in Hload. cbn zeta in Hload.
      destruct (storedBinary _ _).
      * rewrite WorkerFacts.loadTransaction_run in Hload. cbn zeta in Hload.
        destruct (fetch _) as [e0 | res]; [discriminate|].
        destruct (ok res); [|now destruct (Worker.text res)].
        destruct (body res) as [stream|]; [|discriminate].
        destruct (compileStreaming stream); [discriminate|]. injection Hload as <- _.
        cbn. apply set_within_bound, Hwf.
      * injection Hload as <- _. cbn. apply set_within_bound, Hwf.
Qed.

(** X5. The two caches stay within their configured size and never hold
    two entries for one key, whatever a call to [evaluate] does: reuse,
    load, instantiate or fail. *)
Theorem evaluate_keeps_the_caches_bounded (args : Args) (w w' : World)
    (r : Promise EvaluationOutput) :
  LRUCacheSpec.within_bound (wasmModuleCache w) ->
  LRUCacheSpec.within_bound (wasmInstanceCache w) ->
  evaluate args w = (w', r) ->
  LRUCacheSpec.within_bound (wasmModuleCache w')
  /\ LRUCacheSpec.within_bound (wasmInstanceCache w').
Proof.
  intros Hmodules Hinstances. unfold evaluate, toPromise, chain.
  destruct (acquire args w) as [w1 acquired] eqn:Hacq.
  assert (LRUCacheSpec.within_bound (wasmModuleCache w1)
          /\ LRUCacheSpec.within_bound (wasmInstanceCache w1)) as Hw1.
  { apply acquire_cases in Hacq as [(cached & _ & _ & ->) | [_ Hload]].
    - cbn. split; [exact Hmodules | now apply get_within_bound].
    - apply loadInstance_cases in Hload
        as [(err & Hm & _) | [(wasm & err & Hm & _ & _)
                             | (wasm & w2 & i & Hm & _ & _ & ->)]].
      + split; [exact (loadModule_within_bound _ _ _ _ Hm Hmodules)|].
        now rewrite (loadModule_instances _ _ _ _ Hm).
      + split; [exact (loadModule_within_bound _ _ _ _ Hm Hmodules)|].
        now rewrite (loadModule_instances _ _ _ _ Hm).
      + cbn. split; [exact (loadModule_within_bound _ _ _ _ Hm Hmodules)|].
        apply set_within_bound. rewrite (loadModule_instances _ _ _ _ Hm).
        apply Hinstances. }
  destruct acquired as [err | wasmInstance].
  - now intros [= <- _].
  - rewrite WorkerFacts.invoke_resolves. now intros [= <- _].
Qed.

End Loading.

(** *** Merging an output that carries no error *)

Lemma truthy_defaultTo (v : value) : truthy (R.defaultTo VUndefined v) = truthy v.
Proof. destruct v as [| | b | [z | r |] | s | d | bs | l | props]; reflexivity. Qed.

(** X6. When the handler's output carries no [Error] (none, or a falsy one
    such as [0] or [""]), the memory it returns replaces the previous one; an
    output that returns no [Memory] keeps the previous memory, and [GasUsed],
    [Messages] and [Spawns] that are present pass through as they are. *)
Theorem mergeOutput_without_error (prevMemory raw : value) :
  truthy (get "Error" raw) = false ->
  let out := mergeOutput prevMemory raw in
  truthy (Error out) = false
  /\ (forall Memory',
         get "Memory" raw = Memory' -> isNullish Memory' = false -> Memory' <> VNum NaN ->
         Memory out = Memory')
  /\ (isNullish (get "Memory" raw) = true -> Memory out = prevMemory)
  /\ (isNullish (get "GasUsed" raw) = false -> get "GasUsed" raw <> VNum NaN ->
      GasUsed out = get "GasUsed" raw)
  /\ (isNullish (get "Messages" raw) = false -> get "Messages" raw <> VNum NaN ->
      Messages out = get "Messages" raw)
  /\ (isNullish (get "Spawns" raw) = false -> get "Spawns" raw <> VNum NaN ->
      Spawns out = get "Spawns" raw).
Proof.
  intros Hno. cbn zeta.
  assert (forall d v, isNullish v = false -> v <> VNum NaN -> R.defaultTo d v = v) as Hpresent.
  { intros d v Hn Hnan. destruct v as [| | b | [z | r |] | s | ds | bs | l | props];
      try reflexivity; try discriminate. congruence. }
  rewrite WorkerFacts.Memory_mergeOutput, WorkerFacts.Error_mergeOutput.
  rewrite truthy_defaultTo, Hno.
  unfold mergeOutput; cbn [GasUsed Messages Spawns]. rewrite !WorkerFacts.pathOr_raw.
  split; [reflexivity|]. split; [|split].
  - intros Memory' <-. apply Hpresent.
  - intros Hnull. destruct (get "Memory" raw); try discriminate; reflexivity.
  - repeat split; apply Hpresent.
Qed.

Lemma mergeOutput_without_error_witness :
  let out := mergeOutput (VBytes ["m"%byte])
               (VObj [("Error", VStr ""); ("Memory", VBytes ["n"%byte]);
                      ("GasUsed", VNum (Int 7))]) in
  Memory out = VBytes ["n"%byte] /\ GasUsed out = VNum (Int 7).
Proof.
  destruct (mergeOutput_without_error (VBytes ["m"%byte])
              (VObj [("Error", VStr ""); ("Memory", VBytes ["n"%byte]);
                     ("GasUsed", VNum (Int 7))]) eq_refl)
    as (_ & HMemory & _ & HGas & _).
  split.
  - apply (HMemory (VBytes ["n"%byte])); [reflexivity | reflexivity | discriminate].
  - apply HGas; [reflexivity | discriminate].
Defined.

Lemma loadModule_failure_witness :
  let env := Scenario.workerEnv 404 ["n"%byte; "o"%byte] Scenario.throwing in
  let w' := fst (loadModule Scenario.args0 Scenario.emptyWorld) in
  wasmModuleCache w' = wasmModuleCache Scenario.emptyWorld
  /\ wasmInstanceCache w' = wasmInstanceCache Scenario.emptyWorld.
Proof.
  intros env w'.
  destruct (loadModule_failure_modes Scenario.args0 Scenario.emptyWorld w'
              (new_Error "404: no") eq_refl) as (_ & _ & Hmodules & Hinstances & _).
  split; [exact Hmodules | exact Hinstances].
Defined.

(** A gateway that answers 204 fails the load, although the status is in
    the 2xx range: there is no body to tee. *)
Example no_content_fails_the_load :
  let env := Cases.noContentEnv in
  exists w',
    loadModule Scenario.args0 Scenario.emptyWorld = (w', Rejected no_body)
    /\ files w' = files Scenario.emptyWorld
    /\ trace w' = [ReadFile "/wasm/mod-1.wasm.gz"; Fetch "https://gateway/raw/mod-1"].
Proof. eexists. split; [reflexivity|]. split; reflexivity. Qed.

Lemma evaluate_rejects_witness :
  let env := Cases.noInstanceEnv in
  let w' := fst (evaluate Scenario.args0 Scenario.emptyWorld) in
  wasmInstanceCache w' = wasmInstanceCache Scenario.emptyWorld
  /\ exists wasm,
       loadModule Scenario.args0 Scenario.emptyWorld = (w', Resolved wasm).
Proof.
  intros env w'.
  destruct (evaluate_rejects_only_while_loading Scenario.args0 Scenario.emptyWorld w'
              (new_Error "LinkError") eq_refl) as (_ & Hinstances & [Hload | Hboot]).
  - discriminate Hload.
  - split; [exact Hinstances|]. destruct Hboot as (wasm & Hload & _). now exists wasm.
Defined.

Lemma evaluate_reuses_witness :
  let env := Scenario.workerEnv 200 ["w"%byte] Scenario.counting in
  let w1 := fst (evaluate Scenario.args0 Scenario.emptyWorld) in
  exists w2,
    fst (evaluate Cases.args1 w1) = w2
    /\ trace w2 = trace w1 /\ files w2 = files w1.
Proof.
  intros env w1.
  destruct (evaluate_reuses_the_stream_instance Scenario.args0 Cases.args1
              Scenario.emptyWorld w1
              (mkOutput (VNum (Int 1)) VUndefined (VArr []) (VArr []) (VStr "1") VUndefined)
              eq_refl ltac:(cbn; lia) eq_refl)
    as (wasmInstance & w2 & _ & _ & Heval & Htrace & Hfiles & _).
  exists w2. rewrite Heval, WorkerFacts.invoke_resolves. auto.
Defined.

Lemma fetched_module_witness :
  let env := Scenario.workerEnv 200 ["w"%byte] Scenario.counting in
  let w1 := fst (loadModule Scenario.args0 Scenario.emptyWorld) in
  let cold := mkWorld (LRUCache.create 2) (LRUCache.create 2) (files w1) [] in
  exists w3,
    loadModule Scenario.args0 cold = (w3, Resolved ["w"%byte])
    /\ trace w3 = [ReadFile "/wasm/mod-1.wasm.gz"].
Proof.
  intros env w1 cold.
  destruct (fetched_module_is_served_from_disk Scenario.args0 Scenario.emptyWorld cold
              (new_Error "ENOENT: /wasm/mod-1.wasm.gz")
              (mkResponse 200 (Some (Resolved ["w"%byte])))
              ["w"%byte] ["w"%byte] eq_refl eq_refl eq_refl ltac:(cbn; lia) eq_refl eq_refl
              eq_refl eq_refl eq_refl eq_refl) as (w3 & Hload & Htrace & _).
  exists w3. auto.
Defined.

Lemma caches_bounded_witness :
  let env := Scenario.workerEnv 200 ["w"%byte] Scenario.counting in
  let w' := fst (evaluate Scenario.args0 Scenario.emptyWorld) in
  LRUCacheSpec.within_bound (wasmModuleCache w')
  /\ LRUCacheSpec.within_bound (wasmInstanceCache w').
Proof.
  intros env w'.
  apply (evaluate_keeps_the_caches_bounded Scenario.args0 Scenario.emptyWorld w'
           (snd (evaluate Scenario.args0 Scenario.emptyWorld))).
  - split; cbn; [lia | constructor].
  - split; cbn; [lia | constructor].
  - reflexivity.
Defined.

End WorkerMore.

(** ** More on the memory checkpointer *)

Module WasmMore.

Import Wasm.

Lemma hex_length (bs : list byte) : String.length (Text.hex bs) = (2 * length bs)%nat.
Proof.
  unfold Text.hex. rewrite TextFacts.length_string_of_list_ascii.
  induction bs as [|b bs IH]; [reflexivity|].
  cbn [flat_map app length]. rewrite IH. cbn [length]. lia.
Qed.

Lemma hex_digits (b : byte) :
  TextSpec.is_lower_hex (Text.digit_of "0123456789abcdef" (Sha256.Z_of_byte b / 16)) = true
  /\ TextSpec.is_lower_hex (Text.digit_of "0123456789abcdef" (Sha256.Z_of_byte b mod 16))
     = true.
Proof. destruct b; split; vm_compute; reflexivity. Qed.

Lemma hex_chars (bs : list byte) :
  forallb TextSpec.is_lower_hex (list_ascii_of_string (Text.hex bs)) = true.
Proof.
  unfold Text.hex. rewrite list_ascii_of_string_of_list_ascii.
  induction bs as [|b bs IH]; [reflexivity|].
  destruct (hex_digits b) as [Hhi Hlo].
  cbn [flat_map app forallb]. now rewrite Hhi, Hlo, IH.
Qed.

Lemma gzip_is_given (encoding : value) : is_gzip encoding = true -> truthy encoding = true.
Proof. destruct encoding as [| | | | s | | | |]; try discriminate. now destruct s. Qed.

Lemma hashWasmMemory_supported `{Zlib} (memoryStream : Readable) (encoding : value) :
  truthy encoding = false \/ is_gzip encoding = true ->
  hashWasmMemory memoryStream encoding
  = match pipelineP memoryStream
            (if is_gzip encoding then createGunzip else PassThrough) createHash with
    | Resolved hash => Resolved (digest_hex hash)
    | Rejected err => Rejected err
    end.
Proof.
  unfold hashWasmMemory. intros [Hfalsy | Hgz].
  - now rewrite Hfalsy.
  - now rewrite Hgz, andb_false_r.
Qed.

(** X7. The hash is that of the actual memory: a gzip-encoded stream whose
    content inflates to the bytes of a plain stream gets the digest of the
    plain stream, however either stream is cut into chunks. *)
Theorem hash_is_of_the_decoded_memory `{Zlib}
    (plain encoded : Readable) (absent : value) :
  failure plain = None ->
  failure encoded = None ->
  gunzip (concat (chunks encoded)) = Resolved (concat (chunks plain)) ->
  truthy absent = false ->
  hashWasmMemory encoded (VStr "gzip") = hashWasmMemory plain absent
  /\ forall other,
       failure other = None -> concat (chunks other) = concat (chunks plain) ->
       hashWasmMemory other absent = hashWasmMemory plain absent.
Proof.
  intros Hplain Hencoded Hinflate Habsent.
  assert (is_gzip absent = false) as Hnot.
  { destruct (is_gzip absent) eqn:Hgz; [|reflexivity].
    apply gzip_is_given in Hgz. congruence. }
  assert (forall s, failure s = None ->
            hashWasmMemory s absent
            = Resolved (Text.hex (Sha256.sha256 (concat (chunks s))))) as Hpass.
  { intros s Hs. rewrite hashWasmMemory_supported by now left.
    rewrite Hnot, WasmFacts.pipelineP_ok by exact Hs. reflexivity. }
  split.
  - rewrite (Hpass plain Hplain).
    rewrite hashWasmMemory_supported by now right.
    cbn [is_gzip String.eqb Ascii.eqb Bool.eqb].
    rewrite WasmFacts.pipelineP_ok; unfold createGunzip; rewrite Hencoded, Hinflate;
      [|reflexivity].
    cbn. now rewrite app_nil_r.
  - intros other Hother Hsame. now rewrite (Hpass other Hother), (Hpass plain Hplain), Hsame.
Qed.

Lemma hash_is_of_the_decoded_memory_witness :
  let zlib := Scenario.identityZlib in
  hashWasmMemory (mkReadable [Text.bytes "abc"] None) (VStr "gzip")
  = hashWasmMemory (mkReadable [Text.bytes "a"; Text.bytes "bc"] None) VUndefined.
Proof.
  intros zlib.
  exact (proj1 (@hash_is_of_the_decoded_memory zlib
                  (mkReadable [Text.bytes "a"; Text.bytes "bc"] None)
                  (mkReadable [Text.bytes "abc"] None) VUndefined
                  eq_refl eq_refl eq_refl eq_refl)).
Defined.

(** X8. [hashWasmMemory] resolves only for a supported encoding and a stream
    that ends well, and what it resolves to is 64 lower-case hexadecimal
    characters.  A stream that fails, or an archive that does not inflate,
    rejects with that very error: no digest of a part is handed out. *)
Theorem hashWasmMemory_digest_or_error `{Zlib} (memoryStream : Readable) (encoding : value) :
  (forall digest,
      hashWasmMemory memoryStream encoding = Resolved digest ->
      (truthy encoding = false \/ is_gzip encoding = true)
      /\ failure memoryStream = None
      /\ String.length digest = 64%nat
      /\ forallb TextSpec.is_lower_hex (list_ascii_of_string digest) = true)
  /\ (forall err,
         truthy encoding = false \/ is_gzip encoding = true ->
         failure memoryStream = Some err ->
         hashWasmMemory memoryStream encoding = Rejected err)
  /\ (forall err,
         is_gzip encoding = true ->
         failure memoryStream = None ->
         gunzip (concat (chunks memoryStream)) = Rejected err ->
         hashWasmMemory memoryStream encoding = Rejected err).
Proof.
  split; [|split].
  - intros digest Hres.
    assert (truthy encoding = false \/ is_gzip encoding = true) as Hsupported.
    { unfold hashWasmMemory in Hres.
      destruct (truthy encoding); [|now left].
      destruct (is_gzip encoding); [now right | discriminate]. }
    split; [exact Hsupported|].
    rewrite (hashWasmMemory_supported _ _ Hsupported) in Hres.
    unfold pipelineP in Hres.
    destruct (failure memoryStream) as [err|] eqn:Hfail.
    { destruct (is_gzip encoding); unfold createGunzip, PassThrough in Hres;
        rewrite Hfail in Hres; discriminate. }
    split; [reflexivity|].
    destruct (failure _); [discriminate|]. injection Hres as <-.
    unfold digest_hex. rewrite hex_length, TextFacts.sha256_length. split; [reflexivity|].
    apply hex_chars.
  - intros err Hsupported Hfail. rewrite (hashWasmMemory_supported _ _ Hsupported).
    unfold pipelineP.
    destruct (is_gzip encoding); unfold createGunzip, PassThrough; now rewrite Hfail.
  - intros err Hgz Hok Hinflate.
    rewrite hashWasmMemory_supported by now right.
    unfold pipelineP. rewrite Hgz. unfold createGunzip. now rewrite Hok, Hinflate.
Qed.

Lemma hashWasmMemory_digest_or_error_witness :
  let zlib := Scenario.identityZlib in
  hashWasmMemory (mkReadable [Text.bytes "ab"] (Some (new_Error "EIO"))) VNull
  = Rejected (new_Error "EIO")
  /\ String.length "ba7816bf8f01cfea414140de5dae2223b00361a396177a9cb410ff61f20015ad"
     = 64%nat.
Proof.
  intros zlib.
  destruct (@hashWasmMemory_digest_or_error zlib
              (mkReadable [Text.bytes "ab"] (Some (new_Error "EIO"))) VNull)
    as (_ & Hfails & _).
  destruct (@hashWasmMemory_digest_or_error zlib
              (mkReadable [Text.bytes "abc"] None) VNull) as (Hdigest & _ & _).
  split.
  - apply Hfails; [now left | reflexivity].
  - apply (Hdigest "ba7816bf8f01cfea414140de5dae2223b00361a396177a9cb410ff61f20015ad").
    vm_compute. reflexivity.
Defined.

End WasmMore.

(** ** More on the codec *)

Module HbEncodeMore.

Import HbEncode HbEncodeSpec.

(** *** Induction on values, through arrays and objects *)

Lemma value_nested_ind (P : value -> Prop) :
  P VUndefined -> P VNull -> (forall b, P (VBool b)) -> (forall n, P (VNum n)) ->
  (forall s, P (VStr s)) -> (forall d, P (VSym d)) -> (forall bs, P (VBytes bs)) ->
  (forall elems, Forall P elems -> P (VArr elems)) ->
  (forall props, Forall (fun p => P (snd p)) props -> P (VObj props)) ->
  forall v, P v.
Proof.
  intros HU HN HB HNum HS HSym HBytes HArr HObj.
  fix IH 1. intros [| | b | n | s | d | bs | elems | props];
    [exact HU | exact HN | apply HB | apply HNum | apply HS | apply HSym | apply HBytes
    | | ].
  - apply HArr. induction elems as [|e elems IHelems]; constructor; [apply IH | exact IHelems].
  - apply HObj. induction props as [|[k x] props IHprops]; constructor;
      [apply IH | exact IHprops].
Qed.

(** *** Lower case *)

Lemma toLowerCase_cons (c : ascii) (s : string) :
  toLowerCase (String c s) = String (lower_char c) (toLowerCase s).
Proof. reflexivity. Qed.

Lemma toLowerCase_app (a b : string) :
  toLowerCase (a +:+ b) = toLowerCase a +:+ toLowerCase b.
Proof.
  induction a as [|c a IH]; [reflexivity|].
  change (String c a +:+ b) with (String c (a +:+ b)).
  rewrite !toLowerCase_cons, IH. reflexivity.
Qed.

Lemma toLowerCase_path (a b : string) :
  toLowerCase (a +:+ "/" +:+ b) = toLowerCase a +:+ "/" +:+ toLowerCase b.
Proof. rewrite (toLowerCase_app a), (toLowerCase_app "/" b). reflexivity. Qed.

Lemma lower_char_idem (c : ascii) : lower_char (lower_char c) = lower_char c.
Proof. destruct c as [[] [] [] [] [] [] [] []]; reflexivity. Qed.

Lemma toLowerCase_idem (s : string) : toLowerCase (toLowerCase s) = toLowerCase s.
Proof.
  induction s as [|c s IH]; [reflexivity|].
  now rewrite !toLowerCase_cons, lower_char_idem, IH.
Qed.

Lemma toLowerCase_digits (d : Decimal.uint) :
  toLowerCase (NilEmpty.string_of_uint d) = NilEmpty.string_of_uint d.
Proof.
  induction d as [|d IH|d IH|d IH|d IH|d IH|d IH|d IH|d IH|d IH|d IH];
    cbn [NilEmpty.string_of_uint]; rewrite ?toLowerCase_cons, ?IH; reflexivity.
Qed.

Lemma toLowerCase_index_key (i : nat) : toLowerCase (index_key i) = index_key i.
Proof.
  unfold index_key, String_of_Z. generalize (Z.to_int (Z.of_nat i)).
  assert (forall d, toLowerCase (NilZero.string_of_uint d) = NilZero.string_of_uint d)
    as Huint.
  { intros d. unfold NilZero.string_of_uint.
    destruct d; try reflexivity; apply toLowerCase_digits. }
  intros [d | d]; cbn [NilZero.string_of_int]; [apply Huint|].
  now rewrite toLowerCase_cons, Huint.
Qed.

(** the key the reducer makes of [parent] and [key] *)
Lemma flatK_lower (parent key : string) :
  let flatK := toLowerCase (if negb (String.eqb parent "")
                            then parent +:+ "/" +:+ key else key) in
  toLowerCase flatK = flatK.
Proof. apply toLowerCase_idem. Qed.

Lemma flatK_under (parent key : string) :
  toLowerCase parent = parent -> parent <> "" ->
  toLowerCase (if negb (String.eqb parent "") then parent +:+ "/" +:+ key else key)
  = parent +:+ "/" +:+ toLowerCase key.
Proof.
  intros Hlower Hparent. destruct (String.eqb_spec parent ""); [contradiction|].
  cbn [negb]. now rewrite toLowerCase_path, Hlower.
Qed.

Lemma flatK_top (key : string) :
  toLowerCase (if negb (String.eqb "" "") then "" +:+ "/" +:+ key else key)
  = toLowerCase key.
Proof. reflexivity. Qed.

(** *** What a flattening holds *)

Lemma well_formed_empty (parent : string) : well_formed parent ∅.
Proof. intros k v Hk. unfold Flattened in *. now apply lookup_empty_Some in Hk. Qed.

Lemma well_formed_assign (parent : string) (target source : Flattened) :
  well_formed parent target -> well_formed parent source ->
  well_formed parent (Object_assign target source).
Proof.
  intros Ht Hs k v Hk. unfold Object_assign in Hk.
  apply lookup_union_Some_raw in Hk as [Hk | [_ Hk]]; eauto.
Qed.

Lemma well_formed_insert (parent k : string) (v : value) (flattened : Flattened) :
  well_formed parent flattened -> well_keyed parent k v ->
  well_formed parent (<[k := v]> flattened).
Proof.
  intros Hfl Hkv k' v' Hk'. apply lookup_insert_Some in Hk' as [[<- <-] | [_ Hk']]; eauto.
Qed.

(** what was made under a key below [parent] lies under [parent] *)
Lemma well_formed_under (parent below : string) (sub : Flattened) :
  well_formed below sub ->
  (parent <> "" -> exists rest, below = parent +:+ "/" +:+ rest) ->
  well_formed parent sub.
Proof.
  intros Hsub Hbelow k v Hk. destruct (Hsub k v Hk) as (Hlower & Hleaf & Hunder).
  split; [exact Hlower|]. split; [exact Hleaf|].
  intros Hparent. destruct (Hbelow Hparent) as [rest ->].
  destruct Hunder as [rest' ->]; [now apply TextFacts.string_app_nonempty|].
  exists (rest +:+ "/" +:+ rest'). now rewrite !TextFacts.string_app_assoc.
Qed.

Lemma hbEncodeValue_leaf (value : value) (type : option string) (encoded : JS.value) :
  hbEncodeValue value = Resolved (type, encoded) -> truthy encoded = true -> is_leaf encoded.
Proof.
  assert (forall s, truthy (VStr s) = true -> is_leaf (VStr s)) as Hstr.
  { intros s Htruthy ->. discriminate. }
  destruct value as [| | b | n | s | d | bs | elems | props]; cbn; try discriminate.
  - destruct n as [z | repr |]; cbn; intros [= <- <-]; apply Hstr.
  - destruct (String.length s =? 0)%nat eqn:Hlen; intros [= <- <-]; apply Hstr.
  - destruct d as [description|]; intros [= <- <-]; [apply Hstr | discriminate].
  - destruct (length bs =? 0)%nat eqn:Hlen; intros [= <- <-]; [apply Hstr|].
    intros _ ->. discriminate.
  - destruct elems; cbn; [|discriminate]. intros [= <- <-]. discriminate.
Qed.

Lemma store_well_formed (parent key : string) (value : value)
    (acc : Flattened * Types) (encoded : option string * JS.value) :
  toLowerCase parent = parent ->
  well_formed parent (fst acc) ->
  hbEncodeValue value = Resolved encoded ->
  let flatK := toLowerCase (if negb (String.eqb parent "")
                            then parent +:+ "/" +:+ key else key) in
  well_formed parent (fst (store flatK key acc encoded)).
Proof.
  intros Hlower Hacc Henc flatK. destruct acc as [flattened types].
  destruct encoded as [type encoded]. cbn [store fst].
  destruct (truthy encoded) eqn:Htruthy; [|exact Hacc].
  apply well_formed_insert; [exact Hacc|].
  split; [apply flatK_lower|]. split; [exact (hbEncodeValue_leaf _ _ _ Henc Htruthy)|].
  intros Hparent. exists (toLowerCase key). now apply flatK_under.
Qed.

Lemma ao_types_nonempty (types : Types) : types <> [] -> ao_types types <> "".
Proof.
  destruct types as [|[key type] types]; [congruence|]. intros _. unfold ao_types.
  cbn [List.map String.concat].
  assert (toLowerCase key +:+ "=" +:+ type <> "") as Hfirst.
  { destruct (toLowerCase key); discriminate. }
  destruct (List.map _ types); [exact Hfirst|].
  now apply TextFacts.string_app_nonempty.
Qed.

Lemma withTypes_well_formed (parent : string) (acc : Flattened * Types) :
  toLowerCase parent = parent ->
  well_formed parent (fst acc) -> well_formed parent (withTypes parent acc).
Proof.
  intros Hlower Hacc. destruct acc as [flattened types]. unfold withTypes.
  destruct types as [|entry types]; [exact Hacc|].
  apply well_formed_insert; [exact Hacc|].
  split; [|split].
  - destruct (String.eqb parent ""); cbn [negb]; [reflexivity|].
    now rewrite (toLowerCase_app parent), Hlower.
  - now apply ao_types_nonempty.
  - intros Hparent. destruct (String.eqb_spec parent ""); [contradiction|].
    cbn [negb]. now exists "ao-types".
Qed.

Section Flattening.
Variable f : value -> string -> Promise Flattened.

Lemma forEach_well_formed (parent flatK : string) (vs : list value) (i : nat)
    (flattened flattened' : Flattened) :
  toLowerCase flatK = flatK ->
  (parent <> "" -> exists rest, flatK = parent +:+ "/" +:+ rest) ->
  Forall (flattens_well f) vs ->
  well_formed parent flattened ->
  forEach f flatK vs i flattened = Resolved flattened' ->
  well_formed parent flattened'.
Proof.
  intros Hlower Hunder Hvs. revert i flattened.
  induction Hvs as [|v vs Hv Hvs IH]; intros i flattened Hfl; cbn [forEach].
  - now intros [= <-].
  - destruct (f v (flatK +:+ "/" +:+ index_key i)) as [err | sub] eqn:Hsub; [discriminate|].
    apply IH. apply well_formed_assign; [exact Hfl|].
    apply (well_formed_under parent (flatK +:+ "/" +:+ index_key i)).
    + apply (Hv _ _ ltac:(now rewrite toLowerCase_path, Hlower, toLowerCase_index_key) Hsub).
    + intros Hparent. destruct (Hunder Hparent) as [rest ->].
      exists (rest +:+ "/" +:+ index_key i). now rewrite !TextFacts.string_app_assoc.
Qed.

Lemma reducer_well_formed (parent key : string) (value : value)
    (acc acc' : Flattened * Types) :
  toLowerCase parent = parent ->
  flattens_well f value ->
  (forall elems, value = VArr elems -> Forall (flattens_well f) elems) ->
  well_formed parent (fst acc) ->
  reducer f parent acc key value = Resolved acc' ->
  well_formed parent (fst acc').
Proof.
  intros Hlower Hvalue Helems Hacc.
  assert (forall encoded,
             hbEncodeValue value = Resolved encoded ->
             well_formed parent
               (fst (store (toLowerCase (if negb (String.eqb parent "")
                                         then parent +:+ "/" +:+ key else key))
                           key acc encoded))) as Hleaf
      by (intros encoded Henc; now apply store_well_formed with (value := value)).
  assert (parent <> "" ->
          exists rest,
            toLowerCase (if negb (String.eqb parent "") then parent +:+ "/" +:+ key else key)
            = parent +:+ "/" +:+ rest) as Hunder
      by (intros Hparent; exists (toLowerCase key); now apply flatK_under).
  unfold reducer.
  destruct value as [| | b | n | s | d | bs | elems | props]; cbn [isNullish isPojo isBytes
    typeof String.eqb Ascii.eqb Bool.eqb negb andb].
  - now intros [= <-].
  - now intros [= <-].
  - destruct (hbEncodeValue (VBool b)) as [err | encoded] eqn:Henc; [discriminate|].
    intros [= <-]. now apply Hleaf.
  - destruct (hbEncodeValue (VNum n)) as [err | encoded] eqn:Henc; [discriminate|].
    intros [= <-]. now apply Hleaf.
  - destruct (hbEncodeValue (VStr s)) as [err | encoded] eqn:Henc; [discriminate|].
    intros [= <-]. now apply Hleaf.
  - destruct (hbEncodeValue (VSym d)) as [err | encoded] eqn:Henc; [discriminate|].
    intros [= <-]. now apply Hleaf.
  - destruct (hbEncodeValue (VBytes bs)) as [err | encoded] eqn:Henc; [discriminate|].
    intros [= <-]. now apply Hleaf.
  - destruct elems as [|e elems].
    + destruct (hbEncodeValue (VArr [])) as [err | encoded] eqn:Henc; [discriminate|].
      intros [= <-]. now apply Hleaf.
    + destruct (forEach _ _ _ _ _) as [err | flattened] eqn:Heach; [discriminate|].
      intros [= <-]. cbn [fst].
      eapply forEach_well_formed; [apply flatK_lower | exact Hunder | | exact Hacc
                                  | exact Heach].
      now apply Helems.
  - destruct (f (VObj props) _) as [err | sub] eqn:Hsub; [discriminate|].
    intros [= <-]. cbn [fst]. apply well_formed_assign; [exact Hacc|].
    eapply well_formed_under; [|exact Hunder].
    exact (Hvalue _ _ (flatK_lower parent key) Hsub).
Qed.

Lemma reduce_props_well_formed (parent : string) (entries : list (string * value))
    (acc acc' : Flattened * Types) :
  toLowerCase parent = parent ->
  Forall (fun p => flattens_well f (snd p)
                   /\ forall elems, snd p = VArr elems -> Forall (flattens_well f) elems)
         entries ->
  well_formed parent (fst acc) ->
  reduce_props f parent entries acc = Resolved acc' ->
  well_formed parent (fst acc').
Proof.
  intros Hlower Hentries. revert acc.
  induction Hentries as [|[key value] entries [Hvalue Helems] Hentries IH];
    intros acc Hacc; cbn [reduce_props].
  - now intros [= <-].
  - destruct (reducer f parent acc key value) as [err | acc1] eqn:Hred; [discriminate|].
    apply IH. exact (reducer_well_formed _ _ _ _ _ Hlower Hvalue Helems Hacc Hred).
Qed.

Lemma reduce_elems_well_formed (parent : string) (elems : list value) (i : nat)
    (acc acc' : Flattened * Types) :
  toLowerCase parent = parent ->
  Forall (fun v => flattens_well f v
                   /\ forall elems, v = VArr elems -> Forall (flattens_well f) elems)
         elems ->
  well_formed parent (fst acc) ->
  reduce_elems f parent elems i acc = Resolved acc' ->
  well_formed parent (fst acc').
Proof.
  intros Hlower Helems. revert i acc.
  induction Helems as [|value elems [Hvalue Hinner] Helems IH];
    intros i acc Hacc; cbn [reduce_elems].
  - now intros [= <-].
  - destruct (reducer f parent acc (index_key i) value) as [err | acc1] eqn:Hred;
      [discriminate|].
    apply IH. exact (reducer_well_formed _ _ _ _ _ Hlower Hvalue Hinner Hacc Hred).
Qed.

End Flattening.

Lemma no_nesting_flattens_well (vs : list value) :
  Forall (fun v => flattens_well no_nesting v
                   /\ forall elems, v = VArr elems -> Forall (flattens_well no_nesting) elems)
         vs.
Proof.
  assert (forall v, flattens_well no_nesting v) as Hall.
  { intros v parent flattened _ [= <-]. apply well_formed_empty. }
  apply Forall_forall. intros v _. split; [apply Hall|].
  intros elems _. apply Forall_forall. intros e _. apply Hall.
Qed.

Lemma hbEncode_flattens_well (obj : value) :
  flattens_well hbEncode obj
  /\ forall elems, obj = VArr elems -> Forall (flattens_well hbEncode) elems.
Proof.
  induction obj as [| | b | n | s | d | bs | elems IH | props IH] using value_nested_ind;
    (split; [|try discriminate]).
  - intros parent flattened _. discriminate.
  - intros parent flattened _. discriminate.
  - intros parent flattened _ [= <-]. apply well_formed_empty.
  - intros parent flattened _ [= <-]. apply well_formed_empty.
  - intros parent flattened Hlower. cbn [hbEncode].
    destruct (reduce_elems _ _ _ _ _) as [err | acc] eqn:Hred; [discriminate|].
    intros [= <-]. apply withTypes_well_formed; [exact Hlower|].
    exact (reduce_elems_well_formed _ _ _ _ ((∅, []) : Flattened * Types) _ Hlower (no_nesting_flattens_well _)
             (well_formed_empty parent) Hred).
  - intros parent flattened _ [= <-]. apply well_formed_empty.
  - intros parent flattened Hlower. cbn [hbEncode].
    destruct (reduce_elems _ _ _ _ _) as [err | acc] eqn:Hred; [discriminate|].
    intros [= <-]. apply withTypes_well_formed; [exact Hlower|].
    exact (reduce_elems_well_formed _ _ _ _ ((∅, []) : Flattened * Types) _ Hlower (no_nesting_flattens_well _)
             (well_formed_empty parent) Hred).
  - intros parent flattened Hlower. cbn [hbEncode].
    destruct (reduce_elems _ _ _ _ _) as [err | acc] eqn:Hred; [discriminate|].
    intros [= <-]. apply withTypes_well_formed; [exact Hlower|].
    exact (reduce_elems_well_formed _ _ _ _ ((∅, []) : Flattened * Types) _ Hlower IH (well_formed_empty parent) Hred).
  - intros elems' [= <-]. eapply Forall_impl; [exact IH|]. now intros v [Hv _].
  - intros parent flattened Hlower. cbn [hbEncode].
    destruct (reduce_props _ _ _ _) as [err | acc] eqn:Hred; [discriminate|].
    intros [= <-]. apply withTypes_well_formed; [exact Hlower|].
    exact (reduce_props_well_formed _ _ _ ((∅, []) : Flattened * Types) _ Hlower IH (well_formed_empty parent) Hred).
Qed.

(** X9. Whatever [hbEncode] flattens an object to: every key is in lower
    case, every value is a string or a buffer that is not empty, and in a
    flattening made under a parent every key lies under that parent.  So a
    nested key always contains a [/]. *)
Theorem flattened_keys_and_leaves
    (obj : value) (parent : string) (flattened : Flattened) (k : string) (v : value) :
  toLowerCase parent = parent ->
  hbEncode obj parent = Resolved flattened ->
  flattened !! k = Some v ->
  toLowerCase k = k
  /\ is_leaf v
  /\ (parent <> "" -> exists rest, k = parent +:+ "/" +:+ rest).
Proof.
  intros Hlower Henc Hk.
  exact (proj1 (hbEncode_flattens_well obj) parent flattened Hlower Henc k v Hk).
Qed.

Lemma flattened_keys_and_leaves_witness :
  toLowerCase "p/name" = "p/name"
  /\ is_leaf (VStr "x")
  /\ exists rest, "p/name" = "p" +:+ "/" +:+ rest.
Proof.
  assert (hbEncode (VObj [("Name", VStr "x")]) "p"
          = Resolved (<["p/name" := VStr "x"]> (∅ : Flattened))) as Henc
      by (vm_compute; reflexivity).
  assert ((<["p/name" := VStr "x"]> (∅ : Flattened)) !! "p/name" = Some (VStr "x")) as Hk
      by (vm_compute; reflexivity).
  destruct (flattened_keys_and_leaves _ "p" _ _ _ eq_refl Henc Hk)
    as (Hlower & Hleaf & Hunder).
  split; [exact Hlower|]. split; [exact Hleaf|]. apply Hunder. discriminate.
Defined.

(** *** Properties that are [null] or [undefined] *)

Lemma reduce_props_skips_nullish (f : value -> string -> Promise Flattened)
    (parent : string) (entries : list (string * value)) (acc : Flattened * Types) :
  reduce_props f parent entries acc
  = reduce_props f parent
      (List.filter (fun p => negb (isNullish (snd p))) entries) acc.
Proof.
  revert acc. induction entries as [|[key value] entries IH]; intros acc; [reflexivity|].
  cbn [reduce_props List.filter snd].
  destruct (isNullish value) eqn:Hnull; cbn [negb reduce_props].
  - unfold reducer. rewrite Hnull. apply IH.
  - destruct (reducer f parent acc key value); [reflexivity | apply IH].
Qed.

(** X11. A property whose value is [null] or [undefined] leaves no trace:
    the flattening, and so the headers and the body, are those of the object
    without such properties. *)
Theorem nullish_properties_are_skipped (props : list (string * value)) (parent : string) :
  let present := List.filter (fun p => negb (isNullish (snd p))) props in
  hbEncode (VObj props) parent = hbEncode (VObj present) parent
  /\ encode (VObj props) = encode (VObj present).
Proof.
  cbn zeta.
  assert (forall p, hbEncode (VObj props) p
                    = hbEncode (VObj (List.filter (fun p => negb (isNullish (snd p))) props)) p)
    as Hsame.
  { intros p. cbn [hbEncode]. now rewrite reduce_props_skips_nullish. }
  split; [apply Hsame|]. unfold encode. now rewrite Hsame.
Qed.

(** *** Values that cannot be told apart *)

Lemma reduce_props_app (f : value -> string -> Promise Flattened) (parent : string)
    (before after : list (string * value)) (acc : Flattened * Types) :
  reduce_props f parent (before ++ after) acc
  = match reduce_props f parent before acc with
    | Resolved acc => reduce_props f parent after acc
    | Rejected err => Rejected err
    end.
Proof.
  revert acc. induction before as [|[key value] before IH]; intros acc; [reflexivity|].
  cbn [app reduce_props]. destruct (reducer f parent acc key value); [reflexivity | apply IH].
Qed.

Lemma hbEncode_congruence (before after : list (string * value)) (key : string)
    (v v' : value) (parent : string) :
  (forall acc, reducer hbEncode parent acc key v = reducer hbEncode parent acc key v') ->
  hbEncode (VObj (before ++ (key, v) :: after)) parent
  = hbEncode (VObj (before ++ (key, v') :: after)) parent.
Proof.
  intros Hsame. cbn [hbEncode]. rewrite !reduce_props_app.
  destruct (reduce_props hbEncode parent before (∅, [])) as [err | acc]; [reflexivity|].
  cbn [reduce_props]. now rewrite Hsame.
Qed.

(** X13. The encoding loses the difference between an empty string, an
    empty buffer and the string ['empty-binary']: put as the value of the
    same property of the same object, at any depth of flattening, the three
    give one and the same flattening, hence the same headers and body.  A
    symbol and a string do not collide in that way: they differ in
    [ao-types]. *)
Theorem empty_values_cannot_be_told_apart
    (before after : list (string * value)) (key parent : string) :
  let obj v := VObj (before ++ (key, v) :: after) in
  hbEncode (obj (VStr "")) parent = hbEncode (obj (VStr "empty-binary")) parent
  /\ hbEncode (obj (VBytes [])) parent = hbEncode (obj (VStr "empty-binary")) parent
  /\ encode (obj (VStr "")) = encode (obj (VStr "empty-binary"))
  /\ encode (obj (VBytes [])) = encode (obj (VStr "empty-binary")).
Proof.
  cbn zeta.
  assert (forall p, hbEncode (VObj (before ++ (key, VStr "") :: after)) p
                    = hbEncode (VObj (before ++ (key, VStr "empty-binary") :: after)) p)
    as Hstr by (intros p; now apply hbEncode_congruence).
  assert (forall p, hbEncode (VObj (before ++ (key, VBytes []) :: after)) p
                    = hbEncode (VObj (before ++ (key, VStr "empty-binary") :: after)) p)
    as Hbytes by (intros p; now apply hbEncode_congruence).
  split; [apply Hstr|]. split; [apply Hbytes|].
  unfold encode. now rewrite Hstr, Hbytes.
Qed.

Example a_symbol_is_not_its_description :
  hbEncode (VObj [("a", VSym (Some "x"))]) "" <> hbEncode (VObj [("a", VStr "x")]) "".
Proof. vm_compute. discriminate. Qed.

(** *** What is accepted *)

Section Accepting.
Variable f : value -> string -> Promise Flattened.

Lemma forEach_decides (flatK : string) (vs : list value) (i : nat) (flattened : Flattened) :
  Forall (decides f) vs ->
  match forEach f flatK vs i flattened with
  | Resolved _ => forallb accepts vs = true
  | Rejected err => forallb accepts vs = false /\ rejects_for err
  end.
Proof.
  intros Hvs. revert i flattened.
  induction Hvs as [|v vs Hv Hvs IH]; intros i flattened; cbn [forEach forallb];
    [reflexivity|].
  specialize (Hv (flatK +:+ "/" +:+ index_key i)).
  destruct (f v (flatK +:+ "/" +:+ index_key i)) as [err | sub].
  - destruct Hv as [-> Herr]. now split.
  - rewrite Hv. apply IH.
Qed.

Lemma reducer_decides (parent key : string) (value : value) (acc : Flattened * Types) :
  decides f value ->
  (forall elems, value = VArr elems -> Forall (decides f) elems) ->
  match reducer f parent acc key value with
  | Resolved _ => accepts_entry accepts value = true
  | Rejected err => accepts_entry accepts value = false /\ rejects_for err
  end.
Proof.
  intros Hvalue Helems. unfold reducer.
  destruct value as [| | b | n | s | d | bs | elems | props];
    cbn [isNullish isPojo isBytes typeof String.eqb Ascii.eqb Bool.eqb negb andb
         accepts_entry]; try reflexivity.
  - split; [reflexivity|]. right. now exists b.
  - cbn. now destruct n.
  - cbn. now destruct (String.length s =? 0)%nat.
  - cbn. now destruct (length bs =? 0)%nat.
  - destruct elems as [|e elems]; [reflexivity|].
    pose proof (forEach_decides
                  (toLowerCase (if negb (String.eqb parent "")
                                then parent +:+ "/" +:+ key else key))
                  (e :: elems) 0 (fst acc) (Helems _ eq_refl)) as Heach.
    destruct (forEach _ _ _ _ _); exact Heach.
  - specialize (Hvalue (toLowerCase (if negb (String.eqb parent "")
                                     then parent +:+ "/" +:+ key else key))).
    destruct (f (VObj props) _); exact Hvalue.
Qed.

Lemma reduce_props_decides (parent : string) (entries : list (string * value))
    (acc : Flattened * Types) :
  Forall (fun p => decides f (snd p)
                   /\ forall elems, snd p = VArr elems -> Forall (decides f) elems)
         entries ->
  match reduce_props f parent entries acc with
  | Resolved _ => forallb (fun p => accepts_entry accepts (snd p)) entries = true
  | Rejected err =>
      forallb (fun p => accepts_entry accepts (snd p)) entries = false /\ rejects_for err
  end.
Proof.
  intros Hentries. revert acc.
  induction Hentries as [|[key value] entries [Hvalue Helems] Hentries IH];
    intros acc; cbn [reduce_props forallb snd]; [reflexivity|].
  pose proof (reducer_decides parent key value acc Hvalue Helems) as Hred.
  destruct (reducer f parent acc key value) as [err | acc1].
  - destruct Hred as [-> Herr]. now split.
  - rewrite Hred. apply IH.
Qed.

Lemma reduce_elems_decides (parent : string) (elems : list value) (i : nat)
    (acc : Flattened * Types) :
  Forall (fun v => decides f v
                   /\ forall elems, v = VArr elems -> Forall (decides f) elems)
         elems ->
  match reduce_elems f parent elems i acc with
  | Resolved _ => forallb (accepts_entry accepts) elems = true
  | Rejected err => forallb (accepts_entry accepts) elems = false /\ rejects_for err
  end.
Proof.
  intros Helems. revert i acc.
  induction Helems as [|value elems [Hvalue Hinner] Helems IH];
    intros i acc; cbn [reduce_elems forallb]; [reflexivity|].
  pose proof (reducer_decides parent (index_key i) value acc Hvalue Hinner) as Hred.
  destruct (reducer f parent acc (index_key i) value) as [err | acc1].
  - destruct Hred as [-> Herr]. now split.
  - rewrite Hred. apply IH.
Qed.

End Accepting.

(** the entries of a string or of a buffer are always reduced *)
Lemma reduce_elems_scalars (parent : string) (elems : list value) (i : nat)
    (acc : Flattened * Types) :
  Forall (fun v => match v with VStr _ | VNum _ => True | _ => False end) elems ->
  exists acc', reduce_elems no_nesting parent elems i acc = Resolved acc'.
Proof.
  intros Helems. revert i acc.
  induction Helems as [|value elems Hvalue Helems IH]; intros i acc; cbn [reduce_elems];
    [now exists acc|].
  assert (exists acc1, reducer no_nesting parent acc (index_key i) value = Resolved acc1)
    as [acc1 ->].
  { unfold reducer. destruct value as [| | b | n | s | d | bs | es | props]; try easy; cbn.
    - destruct n; eauto.
    - destruct (String.length s =? 0)%nat; eauto. }
  apply IH.
Qed.

Lemma hbEncode_decides (obj : value) :
  decides hbEncode obj
  /\ forall elems, obj = VArr elems -> Forall (decides hbEncode) elems.
Proof.
  induction obj as [| | b | n | s | d | bs | elems IH | props IH] using value_nested_ind;
    (split; [|try discriminate]).
  - intros parent. split; [reflexivity | now left].
  - intros parent. split; [reflexivity | now left].
  - intros parent. reflexivity.
  - intros parent. reflexivity.
  - intros parent. cbn [hbEncode].
    destruct (reduce_elems_scalars parent (char_entries s) 0 (∅, [])) as [acc ->];
      [|reflexivity].
    unfold char_entries. apply Forall_forall. intros v Hin.
    now apply list_elem_of_In, List.in_map_iff in Hin as (c & <- & _).
  - intros parent. reflexivity.
  - intros parent. cbn [hbEncode].
    destruct (reduce_elems_scalars parent (byte_entries bs) 0 (∅, [])) as [acc ->];
      [|reflexivity].
    unfold byte_entries. apply Forall_forall. intros v Hin.
    now apply list_elem_of_In, List.in_map_iff in Hin as (c & <- & _).
  - intros parent. cbn [hbEncode accepts].
    pose proof (reduce_elems_decides hbEncode parent elems 0 (∅, []) IH) as Hred.
    destruct (reduce_elems _ _ _ _ _); exact Hred.
  - intros elems' [= <-]. eapply Forall_impl; [exact IH|]. now intros v [Hv _].
  - intros parent. cbn [hbEncode accepts].
    pose proof (reduce_props_decides hbEncode parent props (∅, []) IH) as Hred.
    destruct (reduce_props _ _ _ _); exact Hred.
Qed.

Lemma encode_flattened_resolves (flattened : Flattened) :
  (exists encoded, encode_flattened flattened = Resolved encoded)
  <-> forall key, key ∈ snd (split_keys flattened) ->
                  accepted key (text_of (flattened !! key)) = true.
Proof.
  pose proof (HbEncodeFacts.encode_flattened_spec flattened) as Hspec. cbn zeta in Hspec.
  assert (all_accepted flattened (snd (split_keys flattened)) = true
          <-> forall key, key ∈ snd (split_keys flattened) ->
                          accepted key (text_of (flattened !! key)) = true) as <-.
  { unfold all_accepted. rewrite forallb_forall.
    split; intros Hkeys key Hin; apply Hkeys; now apply list_elem_of_In. }
  destruct (all_accepted flattened _).
  - split; [reflexivity | intros _; eauto].
  - destruct Hspec as (key & _ & _ & ->). split; [now intros [encoded [=]] | discriminate].
Qed.

(** X10. What the codec refuses, among the values made of [undefined],
    [null], booleans, numbers, strings, symbols, buffers, arrays and plain
    objects.  [hbEncode] resolves exactly on the values that [accepts]
    takes: it rejects when a boolean stands as the value of a property (or
    as an element of an array that is itself inside an array or is the
    argument), or when [null] or [undefined] stands where an object is
    flattened, as the argument or as an element of an array that is the
    value of a property.  A boolean directly inside such an array is not
    refused, nor is [null] as the value of a property.  [encode] takes
    [undefined] as [{}], and resolves exactly when the flattening resolves
    and [Headers] takes every header key with its value. *)
Theorem what_the_codec_refuses (obj : value) (parent : string) :
  ((exists flattened, hbEncode obj parent = Resolved flattened) <-> accepts obj = true)
  /\ ((exists encoded, encode obj = Resolved encoded)
      <-> exists flattened,
            hbEncode (match obj with VUndefined => VObj [] | _ => obj end) ""
            = Resolved flattened
            /\ forall key, key ∈ snd (split_keys flattened) ->
                           accepted key (text_of (flattened !! key)) = true)
  /\ ((exists encoded, encode obj = Resolved encoded) ->
      obj = VUndefined \/ accepts obj = true).
Proof.
  assert (forall v p,
             (exists flattened, hbEncode v p = Resolved flattened) <-> accepts v = true)
    as Hdec.
  { intros v p. pose proof (proj1 (hbEncode_decides v) p) as Hv.
    destruct (hbEncode v p) as [err | flattened].
    - destruct Hv as [Hno Herr]. split; [now intros [flattened [=]] | congruence].
    - split; [now intros _ | eauto]. }
  assert ((exists encoded, encode obj = Resolved encoded)
          <-> exists flattened,
                hbEncode (match obj with VUndefined => VObj [] | _ => obj end) ""
                = Resolved flattened
                /\ forall key, key ∈ snd (split_keys flattened) ->
                               accepted key (text_of (flattened !! key)) = true)
    as Hencode.
  { unfold encode.
    destruct (hbEncode (match obj with VUndefined => VObj [] | _ => obj end) "")
      as [err | flattened].
    - split; [now intros [encoded [=]] | now intros (flattened & [=] & _)].
    - rewrite encode_flattened_resolves. split.
      + intros Hkeys. now exists flattened.
      + now intros (flattened' & [= <-] & Hkeys). }
  split; [apply Hdec|]. split; [exact Hencode|].
  intros Hres. apply Hencode in Hres as (flattened & Hflat & _).
  assert (accepts (match obj with VUndefined => VObj [] | _ => obj end) = true) as Hacc
      by (apply (Hdec _ ""); eauto).
  destruct obj; auto.
Qed.

(** A value that [Headers] refuses fails the encoding of an object that
    [hbEncode] takes: a line feed inside a short value, a key with a space. *)
Example refused_by_Headers :
  accepts (VObj [("a", VStr (String "x" (String "010" "y")))]) = true
  /\ encode (VObj [("a", VStr (String "x" (String "010" "y")))])
     = Rejected (invalid_header "a")
  /\ encode (VObj [("a b", VStr "x")]) = Rejected (invalid_header "a b").
Proof. vm_compute. repeat split. Qed.

(** Booleans and [null] in the places named above. *)
Example refused_and_taken :
  accepts (VObj [("a", VBool true)]) = false
  /\ accepts (VObj [("a", VArr [VBool true])]) = true
  /\ accepts (VObj [("a", VArr [VArr [VBool true]])]) = false
  /\ accepts (VObj [("a", VNull)]) = true
  /\ accepts (VObj [("a", VArr [VNull])]) = false
  /\ accepts (VObj [("a", VArr [VArr [VNull]])]) = true.
Proof. repeat split; reflexivity. Qed.

(** *** The headers that come with a body *)

Lemma filter_set_existing (name value : string) (h : Headers) :
  existsb (fun p => String.eqb (fst p) name) h = true ->
  List.filter (fun p => String.eqb (fst p) name) (set_existing name value h)
  = [(name, value)].
Proof.
  induction h as [|[n v] h IH]; cbn [existsb set_existing fst]; [discriminate|].
  destruct (String.eqb n name) eqn:Hn; cbn [orb List.filter fst].
  - intros _. rewrite String.eqb_refl. f_equal. clear IH.
    induction h as [|[n' v'] h IHh]; [reflexivity|].
    cbn [List.filter fst]. destruct (String.eqb n' name) eqn:Hn'; cbn [negb]; [exact IHh|].
    cbn [List.filter fst]. now rewrite Hn'.
  - intros Hex. rewrite Hn. now apply IH.
Qed.

Lemma filter_set_existing_other (name value other : string) (h : Headers) :
  String.eqb name other = false ->
  List.filter (fun p => String.eqb (fst p) other) (set_existing name value h)
  = List.filter (fun p => String.eqb (fst p) other) h.
Proof.
  intros Hother. induction h as [|[n v] h IH]; [reflexivity|].
  cbn [set_existing]. destruct (String.eqb n name) eqn:Hn.
  - apply String.eqb_eq in Hn. subst n. cbn [List.filter fst]. rewrite Hother.
    clear IH. induction h as [|[n' v'] h IHh]; [reflexivity|].
    cbn [List.filter fst]. destruct (String.eqb n' name) eqn:Hn'; cbn [negb].
    + apply String.eqb_eq in Hn'. subst n'. now rewrite Hother.
    + cbn [List.filter fst]. destruct (String.eqb n' other); [now rewrite IHh | exact IHh].
  - cbn [List.filter fst]. destruct (String.eqb n other); [now rewrite IH | exact IH].
Qed.

Lemma filter_with_content_type (value : string) (h : Headers) :
  List.filter (fun p => String.eqb (fst p) "content-type") (with_content_type value h)
  = [("content-type", value)].
Proof.
  unfold with_content_type. destruct (existsb _ h) eqn:Hex.
  - now apply filter_set_existing.
  - rewrite List.filter_app. cbn [List.filter fst].
    assert (List.filter (fun p => String.eqb (fst p) "content-type") h = []) as ->.
    { induction h as [|[n v] h IH]; [reflexivity|].
      cbn [existsb fst] in Hex. apply orb_false_iff in Hex as [Hn Hex].
      cbn [List.filter fst]. rewrite Hn. now apply IH. }
    reflexivity.
Qed.

Lemma filter_with_content_type_other (value other : string) (h : Headers) :
  String.eqb "content-type" other = false ->
  List.filter (fun p => String.eqb (fst p) other) (with_content_type value h)
  = List.filter (fun p => String.eqb (fst p) other) h.
Proof.
  intros Hother. unfold with_content_type. destruct (existsb _ h).
  - now apply filter_set_existing_other.
  - rewrite List.filter_app. cbn [List.filter fst].
    rewrite Hother. now rewrite app_nil_r.
Qed.

Lemma filter_asked (flattened : Flattened) (keys : list string) (name : string) :
  List.map snd (List.filter (fun p => String.eqb (fst p) name) (asked flattened keys))
  = List.map (fun key => normalize (text_of (flattened !! key)))
             (List.filter (fun key => String.eqb (toLowerCase key) name) keys).
Proof.
  induction keys as [|key keys IH]; [reflexivity|].
  cbn [asked List.map List.filter fst]. fold (asked flattened keys).
  destruct (String.eqb (toLowerCase key) name); cbn [List.map snd]; now rewrite IH.
Qed.

(** X12. When the encoding resolves and has a body, it says so in two
    headers.  [Content-Type] reads as one value only, the multipart type
    with the boundary, whatever [content-type] the object carried; the
    boundary is 43 characters of the base64url alphabet.  [Content-Digest]
    reads as the values the object carried under that name, if any, then, as
    the last value, the SHA-256 of exactly the body in standard base64 (44
    characters, padding included) between [sha-256=:] and [:]; so it is that
    digest alone when the object carried none. *)
Theorem headers_of_a_body (flattened : Flattened) (encoded : Encoded) :
  encode_flattened flattened = Resolved encoded ->
  fst (split_keys flattened) <> [] ->
  let boundary := boundaryFrom (List.map (bodyPart flattened) (fst (split_keys flattened))) in
  let carried :=
    List.map (fun key => normalize (text_of (flattened !! key)))
             (List.filter (fun key => String.eqb (toLowerCase key) "content-digest")
                          (snd (split_keys flattened))) in
  exists body,
    HbEncode.body encoded = Some body
    /\ String.length boundary = 43%nat
    /\ forallb TextSpec.is_base64url (list_ascii_of_string boundary) = true
    /\ get "Content-Type" (headers encoded)
       = Some ("multipart/form-data; boundary=" +:+ DQUOTE +:+ boundary +:+ DQUOTE)
    /\ get "Content-Digest" (headers encoded)
       = Some (String.concat ", "
                 (carried
                  ++ ["sha-256=:" +:+ Text.base64 (Sha256.sha256 body) +:+ ":"]))
    /\ (carried = [] ->
        get "Content-Digest" (headers encoded)
        = Some ("sha-256=:" +:+ Text.base64 (Sha256.sha256 body) +:+ ":"))
    /\ String.length (Text.base64 (Sha256.sha256 body)) = 44%nat.
Proof.
  intros Henc Hbody. cbn zeta.
  pose proof (HbEncodeFacts.encode_flattened_spec flattened) as Hspec. cbn zeta in Hspec.
  destruct (all_accepted flattened _);
    [|destruct Hspec as (key & _ & _ & Hrej); congruence].
  rewrite Hspec in Henc. injection Henc as <-. clear Hspec.
  destruct (split_keys flattened) as [bodyKeys headerKeys]. cbn [fst snd] in *.
  destruct bodyKeys as [|key bodyKeys]; [congruence|].
  set (bodyParts := List.map (bodyPart flattened) (key :: bodyKeys)).
  exists (multipart (boundaryFrom bodyParts) bodyParts). cbn [HbEncode.body headers].
  destruct (TextFacts.base64_of_a_digest
              (Sha256.sha256 (join_bytes (Text.bytes CRLF) bodyParts))
              (TextFacts.sha256_length _)) as (Hlen & Hchars & _).
  destruct (TextFacts.base64_of_a_digest
              (Sha256.sha256 (multipart (boundaryFrom bodyParts) bodyParts))
              (TextFacts.sha256_length _)) as (_ & _ & Hdigest).
  assert (get "Content-Digest"
            (with_content_type
               ("multipart/form-data; boundary=" +:+ DQUOTE +:+ boundaryFrom bodyParts
                  +:+ DQUOTE)
               (asked flattened headerKeys)
             ++ [("content-digest",
                  "sha-256=:"
                  +:+ Text.base64
                        (Sha256.sha256 (multipart (boundaryFrom bodyParts) bodyParts))
                  +:+ ":")])
          = Some (String.concat ", "
                    (List.map (fun key => normalize (text_of (flattened !! key)))
                       (List.filter
                          (fun key => String.eqb (toLowerCase key) "content-digest")
                          headerKeys)
                     ++ ["sha-256=:"
                         +:+ Text.base64
                               (Sha256.sha256
                                  (multipart (boundaryFrom bodyParts) bodyParts))
                         +:+ ":"]))) as Hget.
  { unfold get. change (toLowerCase "Content-Digest") with "content-digest".
    rewrite List.filter_app, filter_with_content_type_other by reflexivity.
    cbn [List.filter fst String.eqb Ascii.eqb Bool.eqb andb].
    rewrite <- filter_asked.
    destruct (List.filter _ (asked flattened headerKeys)) as [|p ps].
    - cbn [app List.map snd]. reflexivity.
    - cbn [app List.map snd]. rewrite List.map_app. reflexivity. }
  split; [reflexivity|]. split; [exact Hlen|]. split; [exact Hchars|].
  split; [|split; [exact Hget | split; [|exact Hdigest]]].
  - unfold get. change (toLowerCase "Content-Type") with "content-type".
    rewrite List.filter_app, filter_with_content_type. reflexivity.
  - intros Hnone. rewrite Hget, Hnone. reflexivity.
Qed.

Lemma headers_of_a_body_witness :
  let flattened : Flattened := {[ "c/d" := VStr "y"; "content-type" := VStr "text/plain" ]} in
  let boundary := boundaryFrom (List.map (bodyPart flattened) ["c/d"]) in
  exists encoded,
    encode_flattened flattened = Resolved encoded
    /\ get "Content-Type" (headers encoded)
       = Some ("multipart/form-data; boundary=" +:+ DQUOTE +:+ boundary +:+ DQUOTE).
Proof.
  intros flattened boundary.
  assert (fst (split_keys flattened) = ["c/d"]) as Hkeys by (vm_compute; reflexivity).
  assert (exists encoded, encode_flattened flattened = Resolved encoded) as [encoded Henc]
      by (eexists; vm_compute; reflexivity).
  exists encoded. split; [exact Henc|].
  destruct (headers_of_a_body flattened encoded Henc) as (body & _ & _ & _ & Htype & _).
  - rewrite Hkeys. discriminate.
  - rewrite Hkeys in Htype. exact Htype.
Defined.

(** A [content-digest] that the object carries stays in front of the
    digest of the body. *)
Example a_carried_digest_stays :
  let flattened : Flattened := {[ "c/d" := VStr "y"; "content-digest" := VStr "evil" ]} in
  exists encoded own,
    encode_flattened flattened = Resolved encoded
    /\ get "Content-Digest" (headers encoded) = Some ("evil, " +:+ own).
Proof. eexists. eexists. split; vm_compute; reflexivity. Qed.

End HbEncodeMore.

(** ** The message route *)

Module RoutesFacts.

Import Routes.


(** With a scheduler that takes the message and a crank that fails, the
    client is still told 202. *)
Example accepted_although_cranking_fails :
  let env := Cases.failingCrank in
  postMessage (VStr "item") (mkWorld 0%nat [])
  = (mkWorld 2%nat
       [SendMsg (VObj [("raw", VStr "item")]);
        Respond 202 (VObj [("message", VStr "Processing message"); ("id", VStr "tx-1")]);
        CrankIt],
     Rejected (new_Error "crank")).
Proof. reflexivity. Qed.

End RoutesFacts.
